(** * PoSDK / GLOMAP plugin: COLMAP store and model readers, pose resolver, exporters

    A shallow embedding of the Python sources under
    [plugins/methods/GLOMAP/]:

    - [load_colmap_db.py]                (pair-id codec, blob decoding)
    - [export_matches_from_db.py]        (match reader and per-pair match files)
    - [export_camera_poses_from_db.py]   (per-image pose resolver, Euler angles)
    - [export_global_poses_from_db.py]   (global pose file from the store)
    - [export_global_poses_from_model.py] (binary / text model readers)

    Conventions of the embedding.
    - Python [int] is [Z] (unbounded); Python [float] and numpy's [float64]
      are Rocq's primitive binary64 [float], whose [+ - * / sqrt] are the
      IEEE-754 operations Python performs.
    - A call that can raise returns [result]; the exception classes are the
      Python ones ([exn]).
    - SQL [NULL] / Python [None] is [None : option _].
    - A dict is an association list in insertion order ([dict_set] replaces in
      place, as Python does); a table is the list of its rows in table order.
    - A binary file is its list of bytes; a text file is the character stream
      the file object delivers; a [str] is a [string] of its bytes.
    - Library functions whose result the development does not compute are
      parameters of the definitions that call them: [math.atan2], and
      [int()] / [float()] on a token of a text file.
    - The real numbers appear once, to read the normalisation of a quaternion
      in exact arithmetic. *)

From Stdlib Require Import ZArith List String Ascii Bool Lia Floats.
From Stdlib Require Import Reals Lra.
From Stdlib Require Import Strings.Byte.
From Stdlib Require Import DecimalString.
Import ListNotations.

Set Implicit Arguments.
Local Open Scope Z_scope.

(* ================================================================== *)
(** * Part I. Definitions                                              *)
(* ================================================================== *)

(** ** Exceptions and results *)

(** The Python exception classes the embedded code can raise.  The
    specification's error taxonomy names them differently: its [DecodeError]
    is numpy's [ValueError] (buffer size / reshape), its
    [MalformedRecordError] is [struct.error] or [ZeroDivisionError];
    [OperationalError] is sqlite3's (a selected column the table lacks).
    [RangeError] is the specification's name for a pair-id component out of
    bounds; no statement of the sources raises it. *)
Inductive exn : Type :=
| ValueError
| ZeroDivisionError
| IndexError
| StructError
| OperationalError
| RangeError.

Inductive result (A : Type) : Type :=
| Ok (a : A)
| Raise (e : exn).

Arguments Ok {A} a.
Arguments Raise {A} e.

Definition bind {A B} (r : result A) (k : A -> result B) : result B :=
  match r with
  | Ok a => k a
  | Raise e => Raise e
  end.

Declare Scope result_scope.
Delimit Scope result_scope with result.
Notation "x <- r ;; k" := (bind r (fun x => k))
  (at level 61, r at next level, right associativity) : result_scope.
Notation "' p <- r ;; k" := (bind r (fun x => let p := x in k))
  (at level 61, p pattern, r at next level, right associativity) : result_scope.


(** [try: ... except Exception: continue] inside a loop body that appends one
    record: the record on success, nothing on any exception. *)
Definition try_or_skip {A} (r : result A) : list A :=
  match r with Ok a => [a] | Raise _ => [] end.

(** ** Dicts in insertion order *)

Section Dict.
Variable V : Type.

Fixpoint dict_get (d : list (Z * V)) (k : Z) : option V :=
  match d with
  | [] => None
  | (k', v) :: d' => if k =? k' then Some v else dict_get d' k
  end.

(** [d[k] = v]: an existing key keeps its position, a new key goes last. *)
Fixpoint dict_set (d : list (Z * V)) (k : Z) (v : V) : list (Z * V) :=
  match d with
  | [] => [(k, v)]
  | (k', v') :: d' =>
      if k =? k' then (k', v) :: d' else (k', v') :: dict_set d' k v
  end.
End Dict.

(** ** Pair-ID codec ([load_colmap_db.py], [export_matches_from_db.py]) *)

Definition MAX_IMAGE_ID : Z := 2 ^ 31 - 1.

(** [ColmapDatabaseLoader._image_ids_to_pair_id]: swaps the two identifiers
    when the first is the larger, then packs them.  It has no [raise]. *)
Definition _image_ids_to_pair_id (image_id1 image_id2 : Z) : Z :=
  let '(image_id1, image_id2) :=
    if image_id1 >? image_id2 then (image_id2, image_id1)
    else (image_id1, image_id2) in
  image_id1 * MAX_IMAGE_ID + image_id2.

(** [_pair_id_to_image_ids]; Python's [%] and [//] are floor operations, as
    [Z.modulo] and [Z.div] are for a positive divisor. *)
Definition _pair_id_to_image_ids (pair_id : Z) : Z * Z :=
  let image_id2 := pair_id mod MAX_IMAGE_ID in
  let image_id1 := (pair_id - image_id2) / MAX_IMAGE_ID in
  (image_id1, image_id2).

(** [export_matches_from_db.pair_id_to_image_ids]: the same body. *)
Definition pair_id_to_image_ids (pair_id : Z) : Z * Z :=
  let image_id2 := pair_id mod MAX_IMAGE_ID in
  let image_id1 := (pair_id - image_id2) / MAX_IMAGE_ID in
  (image_id1, image_id2).

(** The encode operation as the specification words it (section 4.1): range
    check on both components, then [idLow * MAX_PAIR_COMPONENT + idHigh]. *)
Definition in_pair_range (id : Z) : bool :=
  (0 <=? id) && (id <? MAX_IMAGE_ID).

Definition spec_encode (idLow idHigh : Z) : result Z :=
  if in_pair_range idLow && in_pair_range idHigh
  then Ok (idLow * MAX_IMAGE_ID + idHigh)
  else Raise RangeError.

(** [_image_ids_to_pair_id] as a call that returns or raises: the body has
    no [raise] statement and arithmetic on Python ints does not raise, so
    every call returns. *)
Definition encode_outcome (image_id1 image_id2 : Z) : result Z :=
  Ok (_image_ids_to_pair_id image_id1 image_id2).

(** ** Bytes, machine integers and binary floats *)

Definition byte_to_Z (b : byte) : Z := Z.of_N (Byte.to_N b).

(** Little-endian unsigned value of a byte sequence (numpy's native order on
    the platforms the tool runs on, and [struct]'s ["<"]). *)
Fixpoint le_unsigned (bs : list byte) : Z :=
  match bs with
  | [] => 0
  | b :: bs' => byte_to_Z b + 256 * le_unsigned bs'
  end.

(** Two's complement reading of a [bits]-bit unsigned value. *)
Definition to_signed (bits : Z) (w : Z) : Z :=
  if w <? 2 ^ (bits - 1) then w else w - 2 ^ bits.

Definition le_signed (bs : list byte) : Z :=
  to_signed (8 * Z.of_nat (List.length bs)) (le_unsigned bs).

(** IEEE-754 interchange decoding: [ebits] exponent bits, [mbits] stored
    mantissa bits, the sign on top.  Every binary32 value is a binary64
    value, so both widths decode into [float] exactly (the conversion numpy
    performs when a [float32] scalar is turned into a Python float). *)
Definition float_of_ieee_bits (ebits mbits : Z) (w : Z) : float :=
 (let m := w mod 2 ^ mbits in
  let e := (w / 2 ^ mbits) mod 2 ^ ebits in
  let s := Z.odd (w / 2 ^ (mbits + ebits)) in
  let bias := 2 ^ (ebits - 1) - 1 in
  if e =? 2 ^ ebits - 1 then
    if m =? 0 then SF2Prim (S754_infinity s) else SF2Prim S754_nan
  else if e =? 0 then
    match m with
    | Zpos p => SF2Prim (S754_finite s p (1 - bias - mbits))
    | _ => SF2Prim (S754_zero s)
    end
  else
    match 2 ^ mbits + m with
    | Zpos p => SF2Prim (S754_finite s p (e - bias - mbits))
    | _ => SF2Prim (S754_zero s)
    end)%Z.

Definition float_of_bits32 (w : Z) : float := float_of_ieee_bits 8 23 w.
Definition float_of_bits64 (w : Z) : float := float_of_ieee_bits 11 52 w.

(** ** Text rendering of numbers *)

(** [str(n)] / [f"{n}"] for an int. *)
Definition str_of_nat (n : nat) : string :=
  NilZero.string_of_uint (Nat.to_uint n).

Definition str_of_Z (z : Z) : string :=
  NilZero.string_of_int (Z.to_int z).

Fixpoint zeros (n : nat) : string :=
  match n with
  | O => EmptyString
  | S n' => String "0" (zeros n')
  end.

(** A natural number in exactly [width] digits when it fits (zero padded on
    the left). *)
Definition pad_digits (width : nat) (n : Z) : string :=
  let d := NilZero.string_of_uint (N.to_uint (Z.to_N n)) in
  (zeros (width - String.length d) ++ d)%string.

(** Rounding of the non-negative rational [num / den] to the nearest
    integer, ties to even. *)
Definition round_half_even (num den : Z) : Z :=
  let q := num / den in
  let r := num mod den in
  match 2 * r ?= den with
  | Lt => q
  | Gt => q + 1
  | Eq => if Z.even q then q else q + 1
  end.

(** [format(x, ".<digits>f")] for a Python float: the exact binary value
    rounded correctly (ties to even) to [digits] decimals. *)
Definition format_f (digits : nat) (x : float) : string :=
  match Prim2SF x with
  | S754_nan => "nan"
  | S754_infinity s => if s then "-inf" else "inf"
  | S754_zero s =>
      ((if s then "-" else "") ++ "0" ++
       (if Nat.eqb digits 0 then "" else "." ++ zeros digits))%string
  | S754_finite s m e =>
      let scale := 10 ^ Z.of_nat digits in
      let n :=
        if 0 <=? e then Zpos m * 2 ^ e * scale
        else round_half_even (Zpos m * scale) (2 ^ (- e)) in
      ((if s then "-" else "") ++
       NilZero.string_of_uint (N.to_uint (Z.to_N (n / scale))) ++
       (if Nat.eqb digits 0 then ""
        else "." ++ pad_digits digits (n mod scale)))%string
  end.

(** ** numpy arrays over a blob ([blob_to_array], [_blob_to_array]) *)

Inductive dtype : Type := float32 | uint8 | uint32 | float64.

Definition itemsize (dt : dtype) : Z :=
  match dt with
  | float32 => 4
  | uint8 => 1
  | uint32 => 4
  | float64 => 8
  end.

(** An array is a view on its buffer: element type, shape, bytes in row-major
    order. *)
Record ndarray : Type := mk_ndarray {
  nd_dtype : dtype;
  nd_shape : list Z;
  nd_buffer : list byte
}.

Definition nd_size (a : ndarray) : Z := fold_right Z.mul 1 (nd_shape a).

(** [np.frombuffer(blob, dtype=dt)] (and the binary mode of [np.fromstring],
    which [load_colmap_db.py] calls under Python 3): a [ValueError] unless the
    buffer size is a multiple of the element size. *)
Definition frombuffer (blob : list byte) (dt : dtype) : result ndarray :=
  let n := Z.of_nat (List.length blob) in
  if n mod itemsize dt =? 0
  then Ok (mk_ndarray dt [n / itemsize dt] blob)
  else Raise ValueError.

(** The two shape arguments the sources pass to [reshape]. *)
Inductive shape_arg : Type :=
| Shape1                 (* (-1,)      *)
| Shape2 (cols : Z).     (* (-1, cols) *)

(** [a.reshape(-1, cols)]: numpy infers the unknown dimension as
    [size / cols] and raises [ValueError] when [cols] is negative (a second
    unknown dimension), when [cols] is zero, or when [cols] does not divide
    the size. *)
Definition reshape (a : ndarray) (shape : shape_arg) : result ndarray :=
  match shape with
  | Shape1 => Ok (mk_ndarray (nd_dtype a) [nd_size a] (nd_buffer a))
  | Shape2 cols =>
      if cols <=? 0 then Raise ValueError
      else if nd_size a mod cols =? 0
      then Ok (mk_ndarray (nd_dtype a) [nd_size a / cols; cols] (nd_buffer a))
      else Raise ValueError
  end.

(** [blob_to_array(blob, dtype, shape)] of [export_matches_from_db.py] and
    [ColmapDatabaseLoader._blob_to_array] (same body up to the numpy entry
    point). *)
Definition blob_to_array (blob : option (list byte)) (dt : dtype)
  (shape : shape_arg) : result (option ndarray) :=
  match blob with
  | None => Ok None
  | Some b =>
      (a <- frombuffer b dt ;;
       r <- reshape a shape ;;
       Ok (Some r))%result
  end.

Definition _blob_to_array := blob_to_array.

(** Element access. *)
Definition slice {A} (start len : nat) (l : list A) : list A :=
  firstn len (skipn start l).

Definition chunks {A} (n : nat) (l : list A) : list (list A) :=
  map (fun i => slice (i * n) n l) (seq 0 (List.length l / n)).

(** The elements in buffer order, each as the unsigned value of its bytes. *)
Definition nd_items (a : ndarray) : list Z :=
  map le_unsigned (chunks (Z.to_nat (itemsize (nd_dtype a))) (nd_buffer a)).

(** [len(a)]: the first dimension. *)
Definition nd_len (a : ndarray) : Z := hd 0 (nd_shape a).

(** The rows of a two-dimensional array (what [for row in a] yields and what
    [a[i]] indexes). *)
Definition nd_rows (a : ndarray) : list (list Z) :=
  match nd_shape a with
  | [_; cols] => chunks (Z.to_nat cols) (nd_items a)
  | _ => map (fun x => [x]) (nd_items a)
  end.

(** ** The relational store *)

Record image_row : Type := mk_image_row {
  image_id : Z;
  name : string;
  camera_id : Z;
  prior_qw : option float;
  prior_qx : option float;
  prior_qy : option float;
  prior_qz : option float;
  prior_tx : option float;
  prior_ty : option float;
  prior_tz : option float;
  qw : option float;
  qx : option float;
  qy : option float;
  qz : option float;
  tx : option float;
  ty : option float;
  tz : option float
}.

Record camera_row : Type := mk_camera_row {
  cam_camera_id : Z;
  cam_model : Z;
  cam_width : Z;
  cam_height : Z;
  cam_params : option (list byte)
}.

(** A row of [keypoints], [descriptors] (keyed by image id) or [matches]
    (keyed by pair id): the stored shape and the blob. *)
Record blob_row : Type := mk_blob_row {
  br_key : Z;
  br_rows : Z;
  br_cols : Z;
  br_data : option (list byte)
}.

(** The store: the column names of [images] (what [PRAGMA table_info]
    lists) and the rows of each table in table order.  A pose field of an
    [image_row] whose column the table lacks is never read. *)
Record database : Type := mk_database {
  images_columns : list string;
  images : list image_row;
  cameras : list camera_row;
  keypoints : list blob_row;
  descriptors : list blob_row;
  matches : list blob_row
}.

Definition has_column (db : database) (c : string) : bool :=
  existsb (String.eqb c) (images_columns db).

Definition has_columns (db : database) (cs : list string) : bool :=
  forallb (has_column db) cs.

(** ** Quaternion and rotation-matrix geometry *)

Record mat3 : Type := mk_mat3 {
  R00 : float; R01 : float; R02 : float;
  R10 : float; R11 : float; R12 : float;
  R20 : float; R21 : float; R22 : float
}.

Definition quat : Type := (float * float * float * float)%type.
Definition vec3 : Type := (float * float * float)%type.

(** The normalisation of [quaternion_to_rotation_matrix], written once over
    the arithmetic it uses: the sources run it on binary64 floats; the same
    expressions read over the real numbers give its value in exact
    arithmetic. *)
Section Normalisation.
Variable F : Type.
Variable add mul div : F -> F -> F.
Variable sqrt : F -> F.

(** [math.sqrt(qw*qw + qx*qx + qy*qy + qz*qz)]. *)
Definition norm_of (q : F * F * F * F) : F :=
  let '(qw, qx, qy, qz) := q in
  sqrt (add (add (add (mul qw qw) (mul qx qx)) (mul qy qy)) (mul qz qz)).

(** [qw, qx, qy, qz = qw/norm, qx/norm, qy/norm, qz/norm]. *)
Definition div_by (q : F * F * F * F) (norm : F) : F * F * F * F :=
  let '(qw, qx, qy, qz) := q in
  (div qw norm, div qx norm, div qy norm, div qz norm).
End Normalisation.

Definition quaternion_norm (q : quat) : float :=
  norm_of PrimFloat.add PrimFloat.mul PrimFloat.sqrt q.

Definition quaternion_div (q : quat) (norm : float) : quat :=
  div_by PrimFloat.div q norm.

(** The matrix literal of [quaternion_to_rotation_matrix] (the int literals
    [1] and [2] are promoted to floats by Python). *)
Definition rotation_matrix_literal (q : quat) : mat3 :=
  let '(qw, qx, qy, qz) := q in
  (mk_mat3
     (1 - 2 * (qy * qy + qz * qz)) (2 * (qx * qy - qw * qz)) (2 * (qx * qz + qw * qy))
     (2 * (qx * qy + qw * qz)) (1 - 2 * (qx * qx + qz * qz)) (2 * (qy * qz - qw * qx))
     (2 * (qx * qz - qw * qy)) (2 * (qy * qz + qw * qx)) (1 - 2 * (qx * qx + qy * qy)))%float.

(** [quaternion_to_rotation_matrix] of [export_camera_poses_from_db.py] and of
    [export_global_poses_from_db.py] (the two bodies are the same).  Python's
    float division raises [ZeroDivisionError] on a zero divisor. *)
Definition quaternion_to_rotation_matrix (q : quat) : result mat3 :=
  let norm := quaternion_norm q in
  if (norm =? 0)%float then Raise ZeroDivisionError
  else Ok (rotation_matrix_literal (quaternion_div q norm)).

(** [qvec2rotmat] of [export_global_poses_from_model.py]; [x**2] is [x*x].
    The quaternion is used as stored. *)
Definition qvec2rotmat (qvec : quat) : mat3 :=
  let '(q0, q1, q2, q3) := qvec in
  (mk_mat3
     (1 - 2 * (q2 * q2) - 2 * (q3 * q3))
     (2 * q1 * q2 - 2 * q0 * q3)
     (2 * q3 * q1 + 2 * q0 * q2)
     (2 * q1 * q2 + 2 * q0 * q3)
     (1 - 2 * (q1 * q1) - 2 * (q3 * q3))
     (2 * q2 * q3 - 2 * q0 * q1)
     (2 * q3 * q1 - 2 * q0 * q2)
     (2 * q2 * q3 + 2 * q0 * q1)
     (1 - 2 * (q1 * q1) - 2 * (q2 * q2)))%float.


(** The float literal [1e-6] (nearest binary64 value). *)
Definition gimbal_eps : float := 0x1.0c6f7a0b5ed8dp-20%float.

(** [np.degrees]: multiplication by [180.0 / pi] in binary64. *)
Definition rad2deg : float := 0x1.ca5dc1a63c1f8p+5%float.
Definition degrees (x : float) : float := (x * rad2deg)%float.

Section Euler.
(** [math.atan2], the C library's two-argument arctangent. *)
Variable atan2 : float -> float -> float.

(** [sy] of [rotation_matrix_to_euler_angles]. *)
Definition euler_sy (R : mat3) : float :=
  PrimFloat.sqrt (R00 R * R00 R + R10 R * R10 R)%float.

(** [rotation_matrix_to_euler_angles]: (roll, pitch, yaw) in degrees. *)
Definition rotation_matrix_to_euler_angles (R : mat3) : vec3 :=
  let sy := euler_sy R in
  let singular := (sy <? gimbal_eps)%float in
  let '(x, y, z) :=
    if negb singular then
      (atan2 (R21 R) (R22 R),
       atan2 (- R20 R)%float sy,
       atan2 (R10 R) (R00 R))
    else
      (atan2 (- R12 R)%float (R11 R),
       atan2 (- R20 R)%float sy,
       0%float) in
  (degrees x, degrees y, degrees z).
End Euler.

(** [-R.T @ t]: row [i] of the product is the dot product of column [i] of
    [-R] with [t], accumulated left to right. *)
Definition camera_center_of (R : mat3) (t : vec3) : vec3 :=
  let '(t0, t1, t2) := t in
  ((- R00 R) * t0 + (- R10 R) * t1 + (- R20 R) * t2,
   (- R01 R) * t0 + (- R11 R) * t1 + (- R21 R) * t2,
   (- R02 R) * t0 + (- R12 R) * t1 + (- R22 R) * t2)%float.

(** ** Pose resolver of [export_camera_poses_from_db.py] *)

(** [x or 0] on a nullable float: [None] and the zeros are falsy. *)
Definition or_zero (x : option float) : float :=
  match x with
  | None => 0%float
  | Some v => if (v =? 0)%float then 0%float else v
  end.

Definition not_none {A} (x : option A) : bool :=
  match x with Some _ => true | None => false end.

(** [is_registered] of the row loop: all seven optimized fields are not
    [None]. *)
Definition is_registered (row : image_row) : bool :=
  not_none (qw row) && not_none (qx row) && not_none (qy row) &&
  not_none (qz row) && not_none (tx row) && not_none (ty row) &&
  not_none (tz row).

(** The [if is_registered / elif prior quaternion / else: continue] of the
    row loop: the flag, the final quaternion and the final translation, or
    [None] when the row is skipped. *)
Definition resolve_pose (row : image_row) : option (bool * quat * vec3) :=
  match qw row, qx row, qy row, qz row, tx row, ty row, tz row with
  | Some w, Some x, Some y, Some z, Some a, Some b, Some c =>
      Some (true, (w, x, y, z), (a, b, c))
  | _, _, _, _, _, _, _ =>
      match prior_qw row, prior_qx row, prior_qy row, prior_qz row with
      | Some w, Some x, Some y, Some z =>
          Some (false, (w, x, y, z),
                (or_zero (prior_tx row), or_zero (prior_ty row),
                 or_zero (prior_tz row)))
      | _, _, _, _ => None
      end
  end.

Record pose_data : Type := mk_pose_data {
  pd_image_id : Z;
  pd_image_name : string;
  pd_camera_id : Z;
  pd_is_registered : bool;
  pd_quaternion : quat;
  pd_translation : vec3;
  pd_camera_center : vec3;
  pd_euler_angles : vec3;
  pd_rotation_matrix : mat3
}.

Record camera_info : Type := mk_camera_info {
  ci_model : Z;
  ci_width : Z;
  ci_height : Z;
  ci_params : ndarray
}.

(** [np.frombuffer(params, dtype=np.float64) if params else np.array([])]. *)
Definition camera_param_array (params : option (list byte)) : result ndarray :=
  match params with
  | None | Some [] => Ok (mk_ndarray float64 [0] [])
  | Some b => frombuffer b float64
  end.

Fixpoint read_cameras (rows : list camera_row)
  (acc : list (Z * camera_info)) : result (list (Z * camera_info)) :=
  match rows with
  | [] => Ok acc
  | r :: rows' =>
      (p <- camera_param_array (cam_params r) ;;
       read_cameras rows'
         (dict_set acc (cam_camera_id r)
            (mk_camera_info (cam_model r) (cam_width r) (cam_height r) p)))%result
  end.

Definition key_columns : list string :=
  ["image_id"; "name"; "camera_id"]%string.
Definition prior_q_columns : list string :=
  ["prior_qw"; "prior_qx"; "prior_qy"; "prior_qz"]%string.
Definition prior_t_columns : list string :=
  ["prior_tx"; "prior_ty"; "prior_tz"]%string.
Definition optimized_columns : list string :=
  ["qw"; "qx"; "qy"; "qz"; "tx"; "ty"; "tz"]%string.

Section CameraPoses.
Variable atan2 : float -> float -> float.

(** The body of the row loop: at most one record per row; a row without
    pose fields is skipped, and so is a row whose conversion raises. *)
Definition pose_of_row (row : image_row) : list pose_data :=
  match resolve_pose row with
  | None => []
  | Some (registered, q, t) =>
      try_or_skip
        (R <- quaternion_to_rotation_matrix q ;;
         Ok (mk_pose_data (image_id row) (name row) (camera_id row)
               registered q t (camera_center_of R t)
               (rotation_matrix_to_euler_angles atan2 R) R))%result
  end.

(** [read_camera_poses_from_database]: the camera table first, then the
    single [SELECT] over all seventeen pose columns of [images]. *)
Definition read_camera_poses_from_database (db : database)
  : result (list pose_data * list (Z * camera_info)) :=
  (cams <- read_cameras (cameras db) [] ;;
   if has_columns db
        (key_columns ++ prior_q_columns ++ prior_t_columns ++ optimized_columns)
   then Ok (flat_map pose_of_row (images db), cams)
   else Raise OperationalError)%result.
End CameraPoses.

(** ** Global pose exporter of [export_global_poses_from_db.py] *)

Record global_pose : Type := mk_global_pose {
  gp_image_id : Z;
  gp_image_name : string;
  gp_camera_id : Z;
  gp_rotation_matrix : mat3;
  gp_translation : vec3
}.

(** [COALESCE(x, 0)]. *)
Definition coalesce_zero (x : option float) : float :=
  match x with Some v => v | None => 0%float end.

(** The row of the first [SELECT] (optimized fields, [WHERE] all seven
    [IS NOT NULL]): the selected tuple, or nothing when the row is filtered
    out. *)
Definition select_optimized (row : image_row) : option (quat * vec3) :=
  match qw row, qx row, qy row, qz row, tx row, ty row, tz row with
  | Some w, Some x, Some y, Some z, Some a, Some b, Some c =>
      Some ((w, x, y, z), (a, b, c))
  | _, _, _, _, _, _, _ => None
  end.

(** The row of the second [SELECT] (prior quaternion [IS NOT NULL], prior
    translation through [COALESCE]). *)
Definition select_prior (row : image_row) : option (quat * vec3) :=
  match prior_qw row, prior_qx row, prior_qy row, prior_qz row with
  | Some w, Some x, Some y, Some z =>
      Some ((w, x, y, z),
            (coalesce_zero (prior_tx row), coalesce_zero (prior_ty row),
             coalesce_zero (prior_tz row)))
  | _, _, _, _ => None
  end.

(** The body of the loop over the fetched rows. *)
Definition global_pose_of (row : image_row) (sel : option (quat * vec3))
  : list global_pose :=
  match sel with
  | None => []
  | Some (q, t) =>
      try_or_skip
        (R <- quaternion_to_rotation_matrix q ;;
         Ok (mk_global_pose (image_id row) (name row) (camera_id row) R t))%result
  end.

(** [read_global_poses_from_database]: the choice between optimized and
    prior fields is made once, from the columns of the table. *)
Definition read_global_poses_from_database (db : database)
  : result (list global_pose) :=
  let has_prior := has_columns db prior_q_columns in
  let has_optimized := has_columns db optimized_columns in
  if negb has_prior && negb has_optimized then Ok []
  else if has_optimized then
    if has_columns db key_columns
    then Ok (flat_map (fun r => global_pose_of r (select_optimized r)) (images db))
    else Raise OperationalError
  else
    if has_columns db (key_columns ++ prior_t_columns)
    then Ok (flat_map (fun r => global_pose_of r (select_prior r)) (images db))
    else Raise OperationalError.

Definition newline : string := String (ascii_of_nat 10) EmptyString.

(** One pose line: the name, the rotation matrix column by column, the
    translation, all at eight decimals. *)
Definition global_pose_line (image_name : string) (R : mat3) (t : vec3)
  : string :=
  let '(tx, ty, tz) := t in
  let f := format_f 8 in
  (image_name ++ " " ++
   f (R00 R) ++ " " ++ f (R10 R) ++ " " ++ f (R20 R) ++ " " ++
   f (R01 R) ++ " " ++ f (R11 R) ++ " " ++ f (R21 R) ++ " " ++
   f (R02 R) ++ " " ++ f (R12 R) ++ " " ++ f (R22 R) ++ " " ++
   f tx ++ " " ++ f ty ++ " " ++ f tz ++ newline)%string.

(** [export_global_poses_txt(poses_data, output_path)]: the text written. *)
Definition export_global_poses_txt (poses_data : list global_pose) : string :=
  (str_of_nat (List.length poses_data) ++ newline ++
   String.concat ""
     (map (fun p => global_pose_line (gp_image_name p) (gp_rotation_matrix p)
                      (gp_translation p)) poses_data))%string.

(** [main] of [export_global_poses_from_db.py] on an existing store: the
    content of [global_pose.txt], or [None] when no file is written (an empty
    pose list returns before the export; an exception exits with status 1). *)
Definition global_poses_main (db : database) : option string :=
  match read_global_poses_from_database db with
  | Raise _ => None
  | Ok [] => None
  | Ok poses_data => Some (export_global_poses_txt poses_data)
  end.

(** The part of a text up to and including its first line terminator. *)
Fixpoint first_line (s : string) : string :=
  match s with
  | EmptyString => EmptyString
  | String c s' =>
      if Ascii.eqb c (ascii_of_nat 10) then String c EmptyString
      else String c (first_line s')
  end.

(** ** Match reader and exporter of [export_matches_from_db.py] *)

Record image_info : Type := mk_image_info {
  ii_name : string;
  ii_camera_id : Z
}.

Definition coords : Type := (float * float * float * float)%type.

Record match_data : Type := mk_match_data {
  md_image_id1 : Z;
  md_image_id2 : Z;
  md_camera_id1 : Z;
  md_camera_id2 : Z;
  md_image_name1 : string;
  md_image_name2 : string;
  md_matches : list coords
}.

(** The [images] dict: [image_id -> {name, camera_id}]. *)
Definition read_image_infos (rows : list image_row) : list (Z * image_info) :=
  fold_left
    (fun d r => dict_set d (image_id r) (mk_image_info (name r) (camera_id r)))
    rows [].

(** The [keypoints] dict: rows with a blob, reinterpreted as [float32] with
    the stored column count; a decoding error leaves the function. *)
Fixpoint read_keypoints (rows : list blob_row) (acc : list (Z * ndarray))
  : result (list (Z * ndarray)) :=
  match rows with
  | [] => Ok acc
  | r :: rows' =>
      match br_data r with
      | None => read_keypoints rows' acc
      | Some data =>
          (k <- blob_to_array (Some data) float32 (Shape2 (br_cols r)) ;;
           match k with
           | Some kpts => read_keypoints rows' (dict_set acc (br_key r) kpts)
           | None => read_keypoints rows' acc
           end)%result
      end
  end.

(** [x, y = kpts[idx][:2]]: the first two entries of row [idx]; unpacking a
    shorter row is a [ValueError], a row that does not exist an
    [IndexError]. *)
Definition keypoint_xy (kpts : ndarray) (idx : Z) : result (float * float) :=
  match nth_error (nd_rows kpts) (Z.to_nat idx) with
  | Some (x :: y :: _) => Ok (float_of_bits32 x, float_of_bits32 y)
  | Some _ => Raise ValueError
  | None => Raise IndexError
  end.

(** The loop [for match in matches] with its range test on both indices. *)
Fixpoint match_coords (kpts1 kpts2 : ndarray) (ms : list (list Z))
  : result (list coords) :=
  match ms with
  | [] => Ok []
  | m :: ms' =>
      match m with
      | [idx1; idx2] =>
          if (idx1 <? nd_len kpts1) && (idx2 <? nd_len kpts2) then
            (xy1 <- keypoint_xy kpts1 idx1 ;;
             xy2 <- keypoint_xy kpts2 idx2 ;;
             rest <- match_coords kpts1 kpts2 ms' ;;
             Ok ((fst xy1, snd xy1, fst xy2, snd xy2) :: rest))%result
          else match_coords kpts1 kpts2 ms'
      | _ => Raise ValueError
      end
  end.

(** The range test of the match loop on one row of the index-pair array. *)
Definition index_pair_in_range (kpts1 kpts2 : ndarray) (m : list Z) : bool :=
  match m with
  | [idx1; idx2] => (idx1 <? nd_len kpts1) && (idx2 <? nd_len kpts2)
  | _ => true
  end.

(** The body of the loop over the rows of [matches]: at most one record. *)
Definition match_data_of_row (imgs : list (Z * image_info))
  (kps : list (Z * ndarray)) (row : blob_row) : result (list match_data) :=
  match br_data row with
  | None => Ok []
  | Some data =>
      if negb (br_rows row >? 0) then Ok [] else
      let '(image_id1, image_id2) := pair_id_to_image_ids (br_key row) in
      match dict_get imgs image_id1, dict_get imgs image_id2 with
      | Some info1, Some info2 =>
          match dict_get kps image_id1, dict_get kps image_id2 with
          | Some kpts1, Some kpts2 =>
              (m <- blob_to_array (Some data) uint32 (Shape2 2) ;;
               match m with
               | None => Ok []
               | Some ms =>
                   if nd_len ms =? 0 then Ok [] else
                   (match_coords_ <- match_coords kpts1 kpts2 (nd_rows ms) ;;
                    if (0 <? List.length match_coords_)%nat then
                      Ok [mk_match_data image_id1 image_id2
                            (ii_camera_id info1) (ii_camera_id info2)
                            (ii_name info1) (ii_name info2) match_coords_]
                    else Ok [])
               end)%result
          | _, _ => Ok []
          end
      | _, _ => Ok []
      end
  end.

Fixpoint read_match_rows (imgs : list (Z * image_info))
  (kps : list (Z * ndarray)) (rows : list blob_row)
  : result (list match_data) :=
  match rows with
  | [] => Ok []
  | r :: rows' =>
      (here <- match_data_of_row imgs kps r ;;
       rest <- read_match_rows imgs kps rows' ;;
       Ok (here ++ rest))%result
  end.

(** [read_database_matches]; the [matches] query keeps the rows with
    [rows > 0]. *)
Definition read_database_matches (db : database) : result (list match_data) :=
  let imgs := read_image_infos (images db) in
  (kps <- read_keypoints (keypoints db) [] ;;
   read_match_rows imgs kps
     (filter (fun r => br_rows r >? 0) (matches db)))%result.

(** [os.path.splitext(p)[0]] (posixpath): the extension starts at the last
    dot of the last path component, leading dots of that component apart. *)
Fixpoint rfind_from (c : ascii) (s : string) (i : Z) (found : Z) : Z :=
  match s with
  | EmptyString => found
  | String d s' => rfind_from c s' (i + 1) (if Ascii.eqb d c then i else found)
  end.

Definition rfind (c : ascii) (s : string) : Z := rfind_from c s 0 (-1).

Fixpoint all_chars (c : ascii) (s : string) : bool :=
  match s with
  | EmptyString => true
  | String d s' => Ascii.eqb d c && all_chars c s'
  end.

Definition splitext_root (p : string) : string :=
  let sepIndex := rfind "/" p in
  let dotIndex := rfind "." p in
  if dotIndex >? sepIndex then
    if all_chars "."
         (substring (Z.to_nat (sepIndex + 1))
            (Z.to_nat (dotIndex - sepIndex - 1)) p)
    then p
    else substring 0 (Z.to_nat dotIndex) p
  else p.

Definition match_filename (m : match_data) : string :=
  ("matches_" ++ splitext_root (md_image_name1 m) ++ "_" ++
   splitext_root (md_image_name2 m) ++ ".txt")%string.

Definition match_coord_line (c : coords) : string :=
  let '(x1, y1, x2, y2) := c in
  let f := format_f 6 in
  (f x1 ++ " " ++ f y1 ++ " " ++ f x2 ++ " " ++ f y2 ++ newline)%string.

Definition match_file_content (m : match_data) : string :=
  (str_of_Z (md_camera_id1 m) ++ " " ++ str_of_Z (md_camera_id2 m) ++ newline ++
   String.concat "" (map match_coord_line (md_matches m)))%string.

(** An output folder: file names with their contents; [open(path, 'w')]
    replaces an existing file. *)
Fixpoint fs_write (fs : list (string * string)) (path content : string)
  : list (string * string) :=
  match fs with
  | [] => [(path, content)]
  | (p, c) :: fs' =>
      if String.eqb p path then (p, content) :: fs'
      else (p, c) :: fs_write fs' path content
  end.

(** [export_matches_to_files]: the folder after the loop, from an empty
    folder. *)
Definition export_matches_to_files (matches_data : list match_data)
  : list (string * string) :=
  fold_left (fun fs m => fs_write fs (match_filename m) (match_file_content m))
    matches_data [].

Definition default_min_matches : Z := 15.

(** [main] of [export_matches_from_db.py] on an existing store: the files
    written.  An exception exits with status 1; an empty filtered list
    returns before the export. *)
Definition matches_main (db : database) (min_matches : Z)
  : list (string * string) :=
  match read_database_matches db with
  | Raise _ => []
  | Ok matches_data =>
      let filtered_matches :=
        filter (fun m => Z.of_nat (List.length (md_matches m)) >=? min_matches)
          matches_data in
      match filtered_matches with
      | [] => []
      | _ => export_matches_to_files filtered_matches
      end
  end.

(** ** Model-file readers of [export_global_poses_from_model.py] *)

(** A [str] is modelled by its UTF-8 bytes (a Rocq [string]); the text file
    is the character stream [fid.readline()] reads from. *)

(** Python's [str.isspace] on ASCII: tab to carriage return, the four
    separators [0x1c]-[0x1f], and the space. *)
Definition is_space (c : ascii) : bool :=
  let n := nat_of_ascii c in
  (Nat.eqb n 32 || (Nat.leb 9 n && Nat.leb n 13) ||
   (Nat.leb 28 n && Nat.leb n 31))%bool.

Definition not_space (c : ascii) : bool := negb (is_space c).

Definition not_newline (c : ascii) : bool :=
  negb (Ascii.eqb c (ascii_of_nat 10)).

Definition is_empty (s : string) : bool :=
  match s with EmptyString => true | String _ _ => false end.

(** The lines of a text as successive [readline()] calls return them (each
    with its terminator, the last one possibly without). *)
Fixpoint split_lines (s : string) : list string :=
  match s with
  | EmptyString => []
  | String c s' =>
      if Ascii.eqb c (ascii_of_nat 10) then String c EmptyString :: split_lines s'
      else match split_lines s' with
           | [] => [String c EmptyString]
           | l :: ls => String c l :: ls
           end
  end.

Fixpoint lstrip (s : string) : string :=
  match s with
  | EmptyString => EmptyString
  | String c s' => if is_space c then lstrip s' else s
  end.

Fixpoint rstrip (s : string) : string :=
  match s with
  | EmptyString => EmptyString
  | String c s' =>
      let r := rstrip s' in
      if is_space c && is_empty r then EmptyString else String c r
  end.

(** [s.strip()]. *)
Definition strip (s : string) : string := rstrip (lstrip s).

(** [s.split()]: the maximal runs of non-space characters; [cur] is the run
    being read. *)
Fixpoint split_from (cur : string) (s : string) : list string :=
  match s with
  | EmptyString => if is_empty cur then [] else [cur]
  | String c s' =>
      if is_space c then
        if is_empty cur then split_from EmptyString s'
        else cur :: split_from EmptyString s'
      else split_from (cur ++ String c EmptyString) s'
  end.

Definition split (s : string) : list string := split_from EmptyString s.

(** [elems[start::3]]. *)
Fixpoint every_third {A} (skip : nat) (l : list A) : list A :=
  match l with
  | [] => []
  | x :: l' =>
      match skip with
      | O => x :: every_third 2 l'
      | S k => every_third k l'
      end
  end.

(** [read_next_bytes(fid, num_bytes, ...)]: [fid.read] returns fewer bytes at
    the end of the file and [struct.unpack] then raises [struct.error]. *)
Definition read_next_bytes (fid : list byte) (num_bytes : Z)
  : result (list byte * list byte) :=
  if Z.of_nat (List.length fid) <? num_bytes then Raise StructError
  else Ok (firstn (Z.to_nat num_bytes) fid, skipn (Z.to_nat num_bytes) fid).

(** The loop reading the name one byte at a time up to the zero byte. *)
Fixpoint read_name (fid : list byte) : result (list byte * list byte) :=
  match fid with
  | [] => Raise StructError
  | b :: fid' =>
      if Byte.eqb b x00 then Ok ([], fid')
      else (r <- read_name fid' ;; Ok (b :: fst r, snd r))%result
  end.

Definition unpack_d (data : list byte) : float :=
  float_of_bits64 (le_unsigned data).

Module Model.

(** The [Image] namedtuple. *)
Record Image : Type := mk_Image {
  id : Z;
  qvec : quat;
  tvec : vec3;
  camera_id : Z;
  name : string;
  xys : list (float * float);
  point3D_ids : list Z
}.

(** [struct.unpack("<idddddddi", data)] on 64 bytes. *)
Definition unpack_image_properties (data : list byte)
  : Z * quat * vec3 * Z :=
  let d k := unpack_d (slice k 8 data) in
  (le_signed (slice 0 4 data),
   (d 4%nat, d 12%nat, d 20%nat, d 28%nat),
   (d 36%nat, d 44%nat, d 52%nat),
   le_signed (slice 60 4 data)).

(** One [(x, y, point3D_id)] of [struct.unpack("<" + "ddq" * n, data)]. *)
Definition unpack_point2D (data : list byte) : float * float * Z :=
  (unpack_d (slice 0 8 data), unpack_d (slice 8 8 data),
   le_signed (slice 16 8 data)).

(** The body of the loop of [read_images_binary]: one image record and the
    rest of the file. *)
Definition read_image_binary (fid : list byte) : result (Image * list byte) :=
  ('(props, fid1) <- read_next_bytes fid 64 ;;
   let '(image_id, qvec, tvec, camera_id) := unpack_image_properties props in
   '(binary_image_name, fid2) <- read_name fid1 ;;
   let image_name := string_of_list_byte binary_image_name in
   '(count, fid3) <- read_next_bytes fid2 8 ;;
   let num_points2D := le_unsigned count in
   '(x_y_id_s, fid4) <- read_next_bytes fid3 (24 * num_points2D) ;;
   let points := map unpack_point2D (chunks 24 x_y_id_s) in
   Ok (mk_Image image_id qvec tvec camera_id image_name
         (map fst points) (map snd points),
       fid4))%result.

(** [for _ in range(num_reg_images)]; every pass consumes bytes, so the
    length of the file bounds the number of passes ([fuel]). *)
Fixpoint read_images_binary_loop (fuel : nat) (num_reg_images : Z)
  (fid : list byte) (images : list (Z * Image))
  : result (list (Z * Image)) :=
  if num_reg_images <=? 0 then Ok images
  else match fuel with
       | O => Raise StructError
       | S fuel' =>
           ('(image, fid') <- read_image_binary fid ;;
            read_images_binary_loop fuel' (num_reg_images - 1) fid'
              (dict_set images (id image) image))%result
       end.

Definition read_images_binary (file : list byte)
  : result (list (Z * Image)) :=
  ('(count, fid) <- read_next_bytes file 8 ;;
   read_images_binary_loop (S (List.length fid)) (le_unsigned count) fid [])%result.

Section Text.
(** Python's [int(token)] and [float(token)]; [None] is [ValueError]. *)
Variable py_int : string -> option Z.
Variable py_float : string -> option float.

Definition parse_with {A} (f : string -> option A) (tok : string)
  : result A :=
  match f tok with Some v => Ok v | None => Raise ValueError end.

Fixpoint parse_all {A} (f : string -> option A) (toks : list string)
  : result (list A) :=
  match toks with
  | [] => Ok []
  | t :: toks' =>
      (v <- parse_with f t ;;
       vs <- parse_all f toks' ;;
       Ok (v :: vs))%result
  end.

(** [elems[i]]. *)
Definition elem_at (elems : list string) (i : nat) : result string :=
  match nth_error elems i with
  | Some e => Ok e
  | None => Raise IndexError
  end.

(** The image line and the observation line that follows it. *)
Definition read_image_text (elems obs : list string) : result Image :=
  (e0 <- elem_at elems 0 ;;
   image_id <- parse_with py_int e0 ;;
   qvec <- parse_all py_float (slice 1 4 elems) ;;
   tvec <- parse_all py_float (slice 5 3 elems) ;;
   e8 <- elem_at elems 8 ;;
   camera_id <- parse_with py_int e8 ;;
   image_name <- elem_at elems 9 ;;
   xs <- parse_all py_float (every_third 0 obs) ;;
   ys <- parse_all py_float (every_third 1 obs) ;;
   _ <- (if Nat.eqb (List.length xs) (List.length ys) then Ok tt
         else Raise ValueError) ;;
   point3D_ids <- parse_all py_int (every_third 2 obs) ;;
   match qvec, tvec with
   | [q0; q1; q2; q3], [t0; t1; t2] =>
       Ok (mk_Image image_id (q0, q1, q2, q3) (t0, t1, t2) camera_id
             image_name (combine xs ys) point3D_ids)
   | _, _ => Raise IndexError
   end)%result.

(** The [while True] loop of [read_images_text] over the remaining
    lines. *)
Fixpoint read_images_text_loop (lines : list string)
  (images : list (Z * Image)) : result (list (Z * Image)) :=
  match lines with
  | [] => Ok images
  | line :: rest =>
      let line := strip line in
      match line with
      | EmptyString => read_images_text_loop rest images
      | String c _ =>
          if Ascii.eqb c "#" then read_images_text_loop rest images
          else
            match rest with
            | [] =>
                (image <- read_image_text (split line) [] ;;
                 Ok (dict_set images (id image) image))%result
            | obs :: rest' =>
                (image <- read_image_text (split line) (split obs) ;;
                 read_images_text_loop rest'
                   (dict_set images (id image) image))%result
            end
      end
  end.

Definition read_images_text (file : string) : result (list (Z * Image)) :=
  read_images_text_loop (split_lines file) [].
End Text.

(** [export_global_poses_txt(images, output_path)] of the model exporter:
    the rotation comes from [qvec2rotmat] on the stored quaternion. *)
Definition export_global_poses_txt (images : list (Z * Image)) : string :=
  (str_of_nat (List.length images) ++ newline ++
   String.concat ""
     (map (fun kv => global_pose_line (name (snd kv))
                       (qvec2rotmat (qvec (snd kv))) (tvec (snd kv)))
        images))%string.

End Model.

(** ** The two layouts of an image record, as the specification describes them

    Section 4.3 of the specification fixes a binary and a text layout for the
    same image records.  The content written is kept abstract here: an
    integer field is its value together with the token that stands for it in
    the text layout, a floating-point field is its binary64 bit pattern
    together with its token. *)

Definition byte_of_Z (z : Z) : byte :=
  match Byte.of_N (Z.to_N (z mod 256)) with
  | Some b => b
  | None => x00
  end.

(** The [n] low-order bytes of [z], least significant first (two's
    complement for a negative [z]). *)
Fixpoint le_bytes (n : nat) (z : Z) : list byte :=
  match n with
  | O => []
  | S n' => byte_of_Z z :: le_bytes n' (z / 256)
  end.

Record int_field : Type := mk_int_field {
  int_value : Z;
  int_text : string
}.

Record float_field : Type := mk_float_field {
  float_bits : Z;
  float_text : string
}.

Definition float_value (f : float_field) : float :=
  float_of_bits64 (float_bits f).

Record point2D_content : Type := mk_point2D_content {
  c_x : float_field;
  c_y : float_field;
  c_point3D_id : int_field
}.

Record image_content : Type := mk_image_content {
  c_image_id : int_field;
  c_qw : float_field; c_qx : float_field; c_qy : float_field; c_qz : float_field;
  c_tx : float_field; c_ty : float_field; c_tz : float_field;
  c_camera_id : int_field;
  c_name : string;
  c_points2D : list point2D_content
}.

(** The in-memory record the content denotes. *)
Definition image_of_content (c : image_content) : Model.Image :=
  Model.mk_Image (int_value (c_image_id c))
    (float_value (c_qw c), float_value (c_qx c), float_value (c_qy c),
     float_value (c_qz c))
    (float_value (c_tx c), float_value (c_ty c), float_value (c_tz c))
    (int_value (c_camera_id c)) (c_name c)
    (map (fun p => (float_value (c_x p), float_value (c_y p))) (c_points2D c))
    (map (fun p => int_value (c_point3D_id p)) (c_points2D c)).

(** Binary layout: 64-byte header [(imageId: signed 32, 7 x float64,
    cameraId: signed 32)], the name and its terminating zero byte, the 8-byte
    observation count, the observation triples [(float64, float64,
    signed 64)]. *)
Definition spec_image_binary_header (c : image_content) : list byte :=
  le_bytes 4 (int_value (c_image_id c)) ++
  le_bytes 8 (float_bits (c_qw c)) ++ le_bytes 8 (float_bits (c_qx c)) ++
  le_bytes 8 (float_bits (c_qy c)) ++ le_bytes 8 (float_bits (c_qz c)) ++
  le_bytes 8 (float_bits (c_tx c)) ++ le_bytes 8 (float_bits (c_ty c)) ++
  le_bytes 8 (float_bits (c_tz c)) ++
  le_bytes 4 (int_value (c_camera_id c)).

Definition spec_point2D_binary (p : point2D_content) : list byte :=
  le_bytes 8 (float_bits (c_x p)) ++ le_bytes 8 (float_bits (c_y p)) ++
  le_bytes 8 (int_value (c_point3D_id p)).

Definition spec_image_binary (c : image_content) : list byte :=
  spec_image_binary_header c ++
  list_byte_of_string (c_name c) ++ [x00] ++
  le_bytes 8 (Z.of_nat (List.length (c_points2D c))) ++
  flat_map spec_point2D_binary (c_points2D c).

(** The binary file: the 8-byte record count, then the records. *)
Definition spec_images_binary (cs : list image_content) : list byte :=
  le_bytes 8 (Z.of_nat (List.length cs)) ++ flat_map spec_image_binary cs.

(** Text layout: the line [imageId qw qx qy qz tx ty tz cameraId imageName],
    then the line of the flattened observation triples. *)
Fixpoint join_space (toks : list string) : string :=
  match toks with
  | [] => EmptyString
  | [t] => t
  | t :: toks' => (t ++ " " ++ join_space toks')%string
  end.

Definition spec_point2D_text (p : point2D_content) : list string :=
  [float_text (c_x p); float_text (c_y p); int_text (c_point3D_id p)].

Definition spec_image_header (c : image_content) : list string :=
  [int_text (c_image_id c);
   float_text (c_qw c); float_text (c_qx c); float_text (c_qy c);
   float_text (c_qz c);
   float_text (c_tx c); float_text (c_ty c); float_text (c_tz c);
   int_text (c_camera_id c); c_name c].

Definition spec_image_text (c : image_content) : string :=
  (join_space (spec_image_header c) ++ newline ++
   join_space (flat_map spec_point2D_text (c_points2D c)) ++ newline)%string.

(** The text file: comment lines (each starting with [#]), then the
    records. *)
Definition spec_images_text (comments : list string) (cs : list image_content)
  : string :=
  (String.concat "" (map (fun c => c ++ newline) comments) ++
   String.concat "" (map spec_image_text cs))%string.

(** ** The synthetic store of the end-to-end scenario

    Two cameras; three images: image 1 with a full optimized pose (and a
    prior one), image 2 with a prior quaternion only (null prior
    translation), image 3 without pose data; keypoints for images 1 and 2;
    one row of [matches] between images 1 and 2 holding five index pairs. *)

Definition words32 (ws : list Z) : list byte := flat_map (le_bytes 4) ws.
Definition words64 (ws : list Z) : list byte := flat_map (le_bytes 8) ws.

Definition scenario_cameras : list camera_row :=
  [ mk_camera_row 1 1 640 480
      (Some (words64 [0x407f400000000000; 0x407f400000000000;
                      0x4074000000000000; 0x406e000000000000]));
    mk_camera_row 2 0 640 480
      (Some (words64 [0x407f400000000000; 0x4074000000000000;
                      0x406e000000000000])) ].

Definition scenario_image1 : image_row :=
  mk_image_row 1 "img1.jpg" 1
    (Some 1%float) (Some 0%float) (Some 0%float) (Some 0%float)
    None None None
    (Some 0.5%float) (Some 0.5%float) (Some 0.5%float) (Some 0.5%float)
    (Some 1.5%float) (Some (-2.25)%float) (Some 3%float).

Definition scenario_image2 : image_row :=
  mk_image_row 2 "img2.jpg" 2
    (Some 1%float) (Some 0%float) (Some 0%float) (Some 0%float)
    None None None
    None None None None None None None.

Definition scenario_image3 : image_row :=
  mk_image_row 3 "img3.jpg" 2
    None None None None None None None
    None None None None None None None.

Definition scenario_images : list image_row :=
  [scenario_image1; scenario_image2; scenario_image3].

(** Image 1: six keypoints [(x, y)]; image 2: six keypoints
    [(x, y, scale, orientation)]; all [float32]. *)
Definition scenario_keypoints : list blob_row :=
  [ mk_blob_row 1 6 2
      (Some (words32
         [0x41280000; 0x41a20000;  0x41f00000; 0x42200000;
          0x42488000; 0x42720000;  0x428c0000; 0x42a18000;
          0x42b50000; 0x42c80000;  0x42dc0000; 0x42f00000]));
    mk_blob_row 2 6 4
      (Some (words32
         [0x41380000; 0x41aa0000; 0x3f800000; 0x00000000;
          0x41f80000; 0x42240000; 0x3fc00000; 0x3e800000;
          0x424c8000; 0x42760000; 0x40000000; 0x3f000000;
          0x428e0000; 0x42a38000; 0x3f800000; 0x00000000;
          0x42b70000; 0x42ca0000; 0x3f800000; 0x00000000;
          0x42de0000; 0x42f20000; 0x40400000; 0x3f400000])) ].

(** The pair key of images 1 and 2 and the five index pairs
    [(0,0) (1,1) (2,3) (3,2) (5,4)] as [uint32]. *)
Definition scenario_matches : list blob_row :=
  [ mk_blob_row (1 * (2 ^ 31 - 1) + 2) 5 2
      (Some (words32 [0; 0;  1; 1;  2; 3;  3; 2;  5; 4])) ].

Definition all_image_columns : list string :=
  key_columns ++ prior_q_columns ++ prior_t_columns ++ optimized_columns.

Definition scenario_db : database :=
  mk_database all_image_columns scenario_images scenario_cameras
    scenario_keypoints [] scenario_matches.

(** The same store with index pairs [(0,0) (9,1) (2,7)]: the second and the
    third point outside the six keypoints of an image. *)
Definition scenario_db_out_of_range : database :=
  mk_database all_image_columns scenario_images scenario_cameras
    scenario_keypoints []
    [ mk_blob_row (1 * (2 ^ 31 - 1) + 2) 3 2
        (Some (words32 [0; 0;  9; 1;  2; 7])) ].

(** The same store with every index pair out of range. *)
Definition scenario_db_all_out_of_range : database :=
  mk_database all_image_columns scenario_images scenario_cameras
    scenario_keypoints []
    [ mk_blob_row (1 * (2 ^ 31 - 1) + 2) 2 2
        (Some (words32 [6; 0;  0; 6])) ].

(** ** Equivalent content of the two layouts

    Content is equivalent in the two layouts when each field's token is read
    by [int()] / [float()] as the value the binary field holds, the tokens
    and the name are single whitespace-free words (the text layout separates
    fields by whitespace), the name has no zero byte (the binary layout ends
    it with one), and the integers fit the widths of the binary layout. *)

Fixpoint all_ascii (p : ascii -> bool) (s : string) : bool :=
  match s with
  | EmptyString => true
  | String c s' => p c && all_ascii p s'
  end.

Definition is_token (s : string) : bool :=
  negb (is_empty s) && all_ascii (fun c => negb (is_space c)) s.



Section EquivalentContent.
Variable py_int : string -> option Z.
Variable py_float : string -> option float.




End EquivalentContent.


(** The dict both readers should build: the records in file order, a
    repeated image id replacing the earlier record. *)
Definition images_of_contents (cs : list image_content)
  : list (Z * Model.Image) :=
  fold_left
    (fun d c => dict_set d (int_value (c_image_id c)) (image_of_content c))
    cs [].

(** Plain decimal tokens, to run the text reader on examples: [int()] on an
    optionally signed digit string, and [float()] on an optionally signed
    [digits] or [digits.digits] whose digits make an integer below [2^53]
    with at most 22 decimals (one correctly rounded division gives the
    nearest binary64).  Other tokens are not covered ([None]). *)
Definition digit_value (c : ascii) : option Z :=
  let n := nat_of_ascii c in
  if (Nat.leb 48 n && Nat.leb n 57)%bool then Some (Z.of_nat n - 48) else None.

Fixpoint digits_value (acc : Z) (s : string) : option Z :=
  match s with
  | EmptyString => Some acc
  | String c s' =>
      match digit_value c with
      | Some d => digits_value (10 * acc + d) s'
      | None => None
      end
  end.

Definition unsigned_decimal (s : string) : option Z :=
  match s with
  | EmptyString => None
  | _ => digits_value 0 s
  end.

Definition decimal_int (s : string) : option Z :=
  match s with
  | String "-" s' => option_map Z.opp (unsigned_decimal s')
  | String "+" s' => unsigned_decimal s'
  | _ => unsigned_decimal s
  end.

Fixpoint split_at_dot (s : string) : string * option string :=
  match s with
  | EmptyString => (EmptyString, None)
  | String c s' =>
      if Ascii.eqb c "." then (EmptyString, Some s')
      else let '(a, b) := split_at_dot s' in (String c a, b)
  end.

Definition float_of_Z (z : Z) : float :=
  of_uint63 (Uint63.of_Z z).

Definition unsigned_decimal_float (s : string) : option float :=
  let '(ip, fp) := split_at_dot s in
  let fp := match fp with Some f => f | None => EmptyString end in
  match unsigned_decimal (ip ++ fp) with
  | Some n =>
      if (n <? 2 ^ 53) && (Nat.leb (String.length fp) 22) && negb (is_empty ip)
      then Some (float_of_Z n / float_of_Z (10 ^ Z.of_nat (String.length fp)))%float
      else None
  | None => None
  end.

Definition decimal_float (s : string) : option float :=
  match s with
  | String "-" s' => option_map PrimFloat.opp (unsigned_decimal_float s')
  | String "+" s' => unsigned_decimal_float s'
  | _ => unsigned_decimal_float s
  end.


(** A model of two images, the first with two observations, written in
    both layouts. *)
Definition example_contents : list image_content :=
  [ mk_image_content (mk_int_field 1 "1")
      (mk_float_field 0x3fe0000000000000 "0.5")
      (mk_float_field 0x3fe0000000000000 "0.5")
      (mk_float_field 0xbfe0000000000000 "-0.5")
      (mk_float_field 0x3fe0000000000000 "0.5")
      (mk_float_field 0x3ff8000000000000 "1.5")
      (mk_float_field 0xc002000000000000 "-2.25")
      (mk_float_field 0x4008000000000000 "3")
      (mk_int_field 1 "1") "img1.jpg"
      [ mk_point2D_content (mk_float_field 0x4025000000000000 "10.5")
          (mk_float_field 0x4034400000000000 "20.25") (mk_int_field 7 "7");
        mk_point2D_content (mk_float_field 0x403e000000000000 "30")
          (mk_float_field 0x4044000000000000 "40.0") (mk_int_field (-1) "-1") ];
    mk_image_content (mk_int_field 2 "2")
      (mk_float_field 0x3ff0000000000000 "1")
      (mk_float_field 0 "0") (mk_float_field 0 "0") (mk_float_field 0 "0")
      (mk_float_field 0 "0") (mk_float_field 0 "0") (mk_float_field 0 "0")
      (mk_int_field 2 "2") "img2.jpg" [] ].


(** A record whose name holds a space: the binary layout carries it, the
    whitespace-separated text layout does not. *)
Definition spaced_name_content : image_content :=
  mk_image_content (mk_int_field 1 "1")
    (mk_float_field 0x3ff0000000000000 "1")
    (mk_float_field 0 "0") (mk_float_field 0 "0") (mk_float_field 0 "0")
    (mk_float_field 0 "0") (mk_float_field 0 "0") (mk_float_field 0 "0")
    (mk_int_field 1 "1") "my image.jpg" [].

(* ================================================================== *)
(** * Part I, continued. The rest of the files                         *)
(* ================================================================== *)

From Stdlib Require DecimalZ DecimalPos.

(** ** Reading back an output folder *)

(** The content of a file of an output folder, [None] when there is no file
    of that name. *)
Fixpoint fs_read (fs : list (string * string)) (path : string)
  : option string :=
  match fs with
  | [] => None
  | (p, c) :: fs' => if String.eqb p path then Some c else fs_read fs' path
  end.

(** ** Characters of the rendered numbers *)

Definition is_digit (c : ascii) : bool :=
  let n := nat_of_ascii c in (Nat.leb 48 n && Nat.leb n 57)%bool.

(** ** The fields of the exported lines *)

(** The four fields of a coordinate line of a match file. *)
Definition coord_tokens (c : coords) : list string :=
  let '(x1, y1, x2, y2) := c in
  [format_f 6 x1; format_f 6 y1; format_f 6 x2; format_f 6 y2].

(** The thirteen fields of a pose line of a global pose file. *)
Definition pose_tokens (image_name : string) (R : mat3) (t : vec3)
  : list string :=
  let '(tx, ty, tz) := t in
  let f := format_f 8 in
  [image_name;
   f (R00 R); f (R10 R); f (R20 R);
   f (R01 R); f (R11 R); f (R21 R);
   f (R02 R); f (R12 R); f (R22 R);
   f tx; f ty; f tz].

(** ** The record of the scenario store's single pair *)

Definition scenario_match_record : match_data :=
  mk_match_data 1 2 1 2 "img1.jpg" "img2.jpg"
    [(10.5, 20.25, 11.5, 21.25)%float;
     (30, 40, 31, 41)%float;
     (50.125, 60.5, 71, 81.75)%float;
     (70, 80.75, 51.125, 61.5)%float;
     (110, 120, 91.5, 101)%float].

(** ** Arrays as the blob decoder builds them *)

(** A two-dimensional array whose buffer holds exactly [rows * cols]
    elements. *)
Definition array_2d (a : ndarray) : Prop :=
  exists rows cols,
    nd_shape a = [rows; cols] /\ 0 <= rows /\ 0 < cols /\
    Z.of_nat (List.length (nd_buffer a)) = rows * cols * itemsize (nd_dtype a).

(** A stored blob that decodes into rows of [cols] elements of [isz] bytes,
    with at least [min_cols] columns; a [NULL] blob is skipped by the
    readers. *)
Definition blob_well_formed (isz min_cols cols : Z)
  (data : option (list byte)) : bool :=
  match data with
  | None => true
  | Some b =>
      (min_cols <=? cols) && (0 <? cols) &&
      (Z.of_nat (List.length b) mod (cols * isz) =? 0)
  end.

(** The scenario store with a keypoint blob of seven bytes for image 3,
    an image that takes part in no pair. *)
Definition scenario_db_corrupt_keypoints : database :=
  mk_database all_image_columns scenario_images scenario_cameras
    (scenario_keypoints ++
     [mk_blob_row 3 1 2 (Some (le_bytes 7 0))])
    [] scenario_matches.

(** ** A text model whose observation line ends in a pair without point id *)

Definition dangling_pair_text : string :=
  ("1 1 0 0 0 0 0 0 1 a.jpg" ++ newline ++
   "10.5 20.25 7 30 40" ++ newline)%string.

Definition dangling_pair_images : list (Z * Model.Image) :=
  [(1, Model.mk_Image 1 (1, 0, 0, 0)%float (0, 0, 0)%float 1 "a.jpg"
         [(10.5, 20.25)%float; (30, 40)%float] [7])].

(** ** Model folders ([export_global_poses_from_model.py]) *)




Section ModelFolder.
Variable py_int : string -> option Z.
Variable py_float : string -> option float.


End ModelFolder.

(** ** Text and CSV export of [export_camera_poses_from_db.py] *)

(** [int(pose['is_registered'])] in an f-string. *)
Definition flag_text (b : bool) : string := if b then "1" else "0".

Definition poses_txt_header : list string :=
  [ "# COLMAP Camera Pose Export File";
    "# Format: image_name registration_status quaternion(w,x,y,z) translation(x,y,z) camera_center(x,y,z) euler_angles(roll,pitch,yaw)";
    "# Registration status: 1=registered, 0=prior only";
    "#" ]%string.

(** The fifteen fields of a pose line of [camera_poses.txt]: quaternion,
    translation and camera centre at eight decimals, Euler angles at six. *)
Definition pose_txt_tokens (p : pose_data) : list string :=
  let '(qw, qx, qy, qz) := pd_quaternion p in
  let '(tx, ty, tz) := pd_translation p in
  let '(cx, cy, cz) := pd_camera_center p in
  let '(roll, pitch, yaw) := pd_euler_angles p in
  [pd_image_name p; flag_text (pd_is_registered p);
   format_f 8 qw; format_f 8 qx; format_f 8 qy; format_f 8 qz;
   format_f 8 tx; format_f 8 ty; format_f 8 tz;
   format_f 8 cx; format_f 8 cy; format_f 8 cz;
   format_f 6 roll; format_f 6 pitch; format_f 6 yaw].

Definition pose_txt_line (p : pose_data) : string :=
  let '(qw, qx, qy, qz) := pd_quaternion p in
  let '(tx, ty, tz) := pd_translation p in
  let '(cx, cy, cz) := pd_camera_center p in
  let '(roll, pitch, yaw) := pd_euler_angles p in
  (pd_image_name p ++ " " ++ flag_text (pd_is_registered p) ++ " " ++
   format_f 8 qw ++ " " ++ format_f 8 qx ++ " " ++ format_f 8 qy ++ " " ++
   format_f 8 qz ++ " " ++
   format_f 8 tx ++ " " ++ format_f 8 ty ++ " " ++ format_f 8 tz ++ " " ++
   format_f 8 cx ++ " " ++ format_f 8 cy ++ " " ++ format_f 8 cz ++ " " ++
   format_f 6 roll ++ " " ++ format_f 6 pitch ++ " " ++ format_f 6 yaw ++
   newline)%string.

(** [export_poses_txt(poses_data, output_path)]: the text written. *)
Definition export_poses_txt (poses_data : list pose_data) : string :=
  (String.concat "" (map (fun l => l ++ newline) poses_txt_header) ++
   String.concat "" (map pose_txt_line poses_data))%string.

Definition poses_csv_header : string :=
  "image_name,camera_id,is_registered,qw,qx,qy,qz,tx,ty,tz,camera_center_x,camera_center_y,camera_center_z,roll_deg,pitch_deg,yaw_deg"%string.

Definition pose_csv_line (p : pose_data) : string :=
  let '(qw, qx, qy, qz) := pd_quaternion p in
  let '(tx, ty, tz) := pd_translation p in
  let '(cx, cy, cz) := pd_camera_center p in
  let '(roll, pitch, yaw) := pd_euler_angles p in
  (pd_image_name p ++ "," ++ str_of_Z (pd_camera_id p) ++ "," ++
   flag_text (pd_is_registered p) ++ "," ++
   format_f 8 qw ++ "," ++ format_f 8 qx ++ "," ++ format_f 8 qy ++ "," ++
   format_f 8 qz ++ "," ++
   format_f 8 tx ++ "," ++ format_f 8 ty ++ "," ++ format_f 8 tz ++ "," ++
   format_f 8 cx ++ "," ++ format_f 8 cy ++ "," ++ format_f 8 cz ++ "," ++
   format_f 6 roll ++ "," ++ format_f 6 pitch ++ "," ++ format_f 6 yaw ++
   newline)%string.

(** [export_poses_csv(poses_data, output_path)]: the text written. *)
Definition export_poses_csv (poses_data : list pose_data) : string :=
  (poses_csv_header ++ newline ++
   String.concat "" (map pose_csv_line poses_data))%string.


Section CameraPosesMain.
Variable atan2 : float -> float -> float.

End CameraPosesMain.

(** The fields a record of the per-image reader shares with a record of the
    global reader. *)
Definition global_pose_of_pose_data (p : pose_data) : global_pose :=
  mk_global_pose (pd_image_id p) (pd_image_name p) (pd_camera_id p)
    (pd_rotation_matrix p) (pd_translation p).

(** The records of the per-image reader on the scenario store (the Euler
    angles with a stand-in for [math.atan2]). *)
Definition scenario_poses : list pose_data :=
  flat_map (pose_of_row (fun _ _ => 0%float)) scenario_images.

(** ** The loader's sqlite readers ([load_colmap_db.py])

    [ColmapDatabaseLoader] opened on a store without reconstruction folder
    and without pycolmap [Database] class: every accessor takes its sqlite
    branch. *)

Record ImageInfo : Type := mk_ImageInfo {
  info_image_id : Z;
  info_name : string;
  info_camera_id : Z;
  info_qvec : option quat;
  info_tvec : option vec3;
  info_point2D_ids : option (list Z);
  info_xys : option (list (float * float))
}.

Record FeatureInfo : Type := mk_FeatureInfo {
  fi_image_id : Z;
  fi_keypoints : ndarray;
  fi_descriptors : option ndarray
}.

Record MatchInfo : Type := mk_MatchInfo {
  mi_image_id1 : Z;
  mi_image_id2 : Z;
  mi_matches : ndarray
}.

(** [cursor.fetchone()] after [SELECT ... WHERE key = ?]: the first row
    with that key. *)
Definition fetchone (rows : list blob_row) (key : Z) : option blob_row :=
  find (fun r => br_key r =? key) rows.

(** [_read_images_sqlite]: every image gets the default pose. *)
Definition _read_images_sqlite (db : database) : list (Z * ImageInfo) :=
  fold_left
    (fun images_info row =>
       dict_set images_info (image_id row)
         (mk_ImageInfo (image_id row) (name row) (camera_id row)
            (Some (1, 0, 0, 0)%float) (Some (0, 0, 0)%float) None None))
    (images db) [].

Definition get_images_info := _read_images_sqlite.

(** [_get_camera_model_name]: [model_names.get(model_id,
    f'UNKNOWN_{model_id}')]. *)
Definition model_names : list (Z * string) :=
  [ (0, "SIMPLE_PINHOLE"); (1, "PINHOLE"); (2, "SIMPLE_RADIAL");
    (3, "RADIAL"); (4, "OPENCV"); (5, "OPENCV_FISHEYE");
    (6, "FULL_OPENCV"); (7, "FOV"); (8, "SIMPLE_RADIAL_FISHEYE");
    (9, "RADIAL_FISHEYE"); (10, "THIN_PRISM_FISHEYE") ]%string.

Definition _get_camera_model_name (model_id : Z) : string :=
  match dict_get model_names model_id with
  | Some model_name => model_name
  | None => ("UNKNOWN_" ++ str_of_Z model_id)%string
  end.

Definition _read_keypoints_sqlite (db : database) (image_id : Z)
  : result (option ndarray) :=
  match fetchone (keypoints db) image_id with
  | None => Ok None
  | Some row => _blob_to_array (br_data row) float32 (Shape2 (br_cols row))
  end.

Definition _read_descriptors_sqlite (db : database) (image_id : Z)
  : result (option ndarray) :=
  match fetchone (descriptors db) image_id with
  | None => Ok None
  | Some row => _blob_to_array (br_data row) uint8 (Shape2 (br_cols row))
  end.

Definition _read_matches_sqlite (db : database) (image_id1 image_id2 : Z)
  : result (option ndarray) :=
  let pair_id := _image_ids_to_pair_id image_id1 image_id2 in
  match fetchone (matches db) pair_id with
  | None => Ok None
  | Some row => _blob_to_array (br_data row) uint32 (Shape2 2)
  end.

(** [get_features]: any exception is logged and turned into [None]. *)
Definition get_features (db : database) (image_id : Z) : option FeatureInfo :=
  match (keypoints <- _read_keypoints_sqlite db image_id ;;
         descriptors <- _read_descriptors_sqlite db image_id ;;
         Ok (keypoints, descriptors))%result with
  | Ok (Some keypoints, descriptors) =>
      Some (mk_FeatureInfo image_id keypoints descriptors)
  | Ok (None, _) => None
  | Raise _ => None
  end.

(** [get_all_features]: one entry per image whose features were read. *)
Definition get_all_features (db : database) : list (Z * FeatureInfo) :=
  fold_left
    (fun features image_id =>
       match get_features db image_id with
       | Some feature_info => dict_set features image_id feature_info
       | None => features
       end)
    (map fst (get_images_info db)) [].

(** [get_matches]: the identifiers are kept as given; any exception is
    logged and turned into [None]. *)
Definition get_matches (db : database) (image_id1 image_id2 : Z)
  : option MatchInfo :=
  match _read_matches_sqlite db image_id1 image_id2 with
  | Ok (Some matches) =>
      if nd_len matches >? 0
      then Some (mk_MatchInfo image_id1 image_id2 matches)
      else None
  | Ok None => None
  | Raise _ => None
  end.

(** [get_all_matches]: the rows with [rows > 0], in table order; no
    [try]. *)
Fixpoint get_all_matches_loop (rows : list blob_row)
  : result (list MatchInfo) :=
  match rows with
  | [] => Ok []
  | row :: rows' =>
      let pair_id := br_key row in
      let '(image_id1, image_id2) := _pair_id_to_image_ids pair_id in
      (match_array <- _blob_to_array (br_data row) uint32 (Shape2 2) ;;
       rest <- get_all_matches_loop rows' ;;
       Ok (match match_array with
           | Some m =>
               if nd_len m >? 0
               then mk_MatchInfo image_id1 image_id2 m :: rest
               else rest
           | None => rest
           end))%result
  end.

Definition get_all_matches (db : database) : result (list MatchInfo) :=
  get_all_matches_loop (filter (fun r => br_rows r >? 0) (matches db)).

(** The scenario store with the pair key [5 * (2^31 - 1) + 2], whose first
    component is the larger one. *)
Definition scenario_db_swapped_key : database :=
  mk_database all_image_columns scenario_images scenario_cameras
    scenario_keypoints []
    [ mk_blob_row (5 * (2 ^ 31 - 1) + 2) 1 2 (Some (words32 [0; 0])) ].

(** ** Image names in file names *)

(** A name with which [open(os.path.join(output_folder, filename), 'w')]
    creates a file in the output folder: no path separator (the file would
    lie in a directory that does not exist, and [open] raises) and no zero
    byte (which [open] rejects).  Limits of the file system on the length of
    a name are left aside. *)
Definition plain_name (s : string) : bool :=
  all_ascii
    (fun c => negb (Ascii.eqb c "/") && negb (Ascii.eqb c Ascii.zero)) s.

Definition plain_names (m : match_data) : bool :=
  plain_name (md_image_name1 m) && plain_name (md_image_name2 m).

(** Two records whose first image names differ in the extension only. *)
Definition same_stem_records : list match_data :=
  [ mk_match_data 1 3 1 1 "a.jpg" "c.jpg" [(1, 2, 3, 4)%float];
    mk_match_data 2 3 1 1 "a.png" "c.jpg" [(5, 6, 7, 8)%float] ].

(** ** Camera parameter blobs *)


(** ** Further scenario data *)

(** The global reader's records on the scenario store. *)
Definition scenario_global_poses : list global_pose :=
  map global_pose_of_pose_data (filter pd_is_registered scenario_poses).

(** The scenario store with the pose columns of a store that holds prior
    poses only: [images] has no optimized column. *)
Definition scenario_db_prior_columns : database :=
  mk_database (key_columns ++ prior_q_columns ++ prior_t_columns)
    scenario_images scenario_cameras scenario_keypoints [] scenario_matches.

(* ================================================================== *)
(** * Part II. Theorems                                                *)
(* ================================================================== *)

Unset Implicit Arguments.

(** ** Pair-ID codec *)

Lemma MAX_IMAGE_ID_value : MAX_IMAGE_ID = 2147483647.
Proof. reflexivity. Qed.

Lemma decode_packed : forall a b,
  0 <= b < MAX_IMAGE_ID ->
  _pair_id_to_image_ids (a * MAX_IMAGE_ID + b) = (a, b).
Proof.
  intros a b Hb. unfold _pair_id_to_image_ids.
  assert (Hm : (a * MAX_IMAGE_ID + b) mod MAX_IMAGE_ID = b).
  { rewrite Z.add_comm, Z.mod_add by (rewrite MAX_IMAGE_ID_value; lia).
    apply Z.mod_small; exact Hb. }
  rewrite Hm. f_equal.
  replace (a * MAX_IMAGE_ID + b - b) with (a * MAX_IMAGE_ID) by lia.
  apply Z.div_mul. rewrite MAX_IMAGE_ID_value; lia.
Qed.

Lemma encode_ordered : forall a b,
  a <= b -> _image_ids_to_pair_id a b = a * MAX_IMAGE_ID + b.
Proof.
  intros a b Hab. unfold _image_ids_to_pair_id.
  destruct (a >? b) eqn:E; [lia | reflexivity].
Qed.

Lemma pair_id_to_image_ids_same : forall k,
  pair_id_to_image_ids k = _pair_id_to_image_ids k.
Proof. reflexivity. Qed.

(** C2. Pair-ID round trip: for [0 <= idLow <= idHigh < 2^31 - 1], decoding
    the encoded pair key gives back [(idLow, idHigh)], with the decoder of the
    loader and with the one of the match exporter; and encoding the decoded
    components again gives the same pair key. *)
Theorem pair_id_round_trip : forall idLow idHigh,
  0 <= idLow -> idLow <= idHigh -> idHigh < 2 ^ 31 - 1 ->
  _pair_id_to_image_ids (_image_ids_to_pair_id idLow idHigh) = (idLow, idHigh) /\
  pair_id_to_image_ids (_image_ids_to_pair_id idLow idHigh) = (idLow, idHigh) /\
  _image_ids_to_pair_id
    (fst (_pair_id_to_image_ids (_image_ids_to_pair_id idLow idHigh)))
    (snd (_pair_id_to_image_ids (_image_ids_to_pair_id idLow idHigh)))
  = _image_ids_to_pair_id idLow idHigh.
Proof.
  intros lo hi H0 Hle Hhi.
  assert (Hd : _pair_id_to_image_ids (_image_ids_to_pair_id lo hi) = (lo, hi)).
  { rewrite encode_ordered by exact Hle.
    apply decode_packed. rewrite MAX_IMAGE_ID_value. lia. }
  repeat split.
  - exact Hd.
  - rewrite pair_id_to_image_ids_same. exact Hd.
  - rewrite Hd. reflexivity.
Qed.

Lemma pair_id_round_trip_witness :
  _pair_id_to_image_ids (_image_ids_to_pair_id 1 2) = (1, 2) /\
  pair_id_to_image_ids (_image_ids_to_pair_id 1 2) = (1, 2) /\
  _image_ids_to_pair_id
    (fst (_pair_id_to_image_ids (_image_ids_to_pair_id 1 2)))
    (snd (_pair_id_to_image_ids (_image_ids_to_pair_id 1 2)))
  = _image_ids_to_pair_id 1 2.
Proof. apply (pair_id_round_trip 1 2); lia. Defined.

(** The claim of a range check fails at the identifier [-1]: the call
    returns a pair key where the specification's encode raises. *)
Lemma encode_no_range_check :
  in_pair_range (-1) = false /\
  spec_encode (-1) 5 = Raise RangeError /\
  encode_outcome (-1) 5 = Ok (-2147483642).
Proof. repeat split. Qed.

(** C9 (amended). The encode operation has no range check and never fails:
    for all integers it returns [min * (2^31 - 1) + max] of its two
    arguments; on identifiers within [[0, 2^31 - 1)] given in ascending order
    this is the value [idLow * (2^31 - 1) + idHigh] of the specification. *)
Theorem encode_total_min_max : forall image_id1 image_id2,
  encode_outcome image_id1 image_id2
    = Ok (Z.min image_id1 image_id2 * (2 ^ 31 - 1) + Z.max image_id1 image_id2) /\
  (in_pair_range image_id1 && in_pair_range image_id2 = true ->
   image_id1 <= image_id2 ->
   encode_outcome image_id1 image_id2 = spec_encode image_id1 image_id2 /\
   encode_outcome image_id1 image_id2 = Ok (image_id1 * (2 ^ 31 - 1) + image_id2)).
Proof.
  intros a b. split.
  - unfold encode_outcome, _image_ids_to_pair_id. f_equal.
    destruct (a >? b) eqn:E.
    + rewrite Z.min_r, Z.max_l by lia. reflexivity.
    + rewrite Z.min_l, Z.max_r by lia. reflexivity.
  - intros Hr Hle. unfold spec_encode. rewrite Hr.
    unfold encode_outcome. rewrite encode_ordered by exact Hle.
    split; reflexivity.
Qed.

Lemma encode_total_min_max_witness :
  encode_outcome 1 2 = spec_encode 1 2 /\
  encode_outcome 1 2 = Ok (1 * (2 ^ 31 - 1) + 2).
Proof.
  apply (proj2 (encode_total_min_max 1 2)); [reflexivity | lia].
Defined.

(** ** Blob decoding *)

Lemma itemsize_pos : forall dt, 0 < itemsize dt.
Proof. destruct dt; reflexivity. Qed.

Lemma frombuffer_multiple : forall blob dt k,
  Z.of_nat (List.length blob) = k * itemsize dt ->
  frombuffer blob dt = Ok (mk_ndarray dt [k] blob).
Proof.
  intros blob dt k Hn. unfold frombuffer. pose proof (itemsize_pos dt) as Hp.
  rewrite Hn, Z.mod_mul, Z.div_mul by lia. reflexivity.
Qed.

Lemma frombuffer_not_multiple : forall blob dt,
  Z.of_nat (List.length blob) mod itemsize dt <> 0 ->
  frombuffer blob dt = Raise ValueError.
Proof.
  intros blob dt Hn. unfold frombuffer.
  destruct (Z.eqb_spec (Z.of_nat (List.length blob) mod itemsize dt) 0);
    [contradiction | reflexivity].
Qed.

Lemma slice_length : forall (A : Type) (l : list A) start len,
  (start + len <= List.length l)%nat ->
  List.length (slice start len l) = len.
Proof.
  intros A l start len H. unfold slice.
  rewrite length_firstn, length_skipn. lia.
Qed.

Lemma chunks_length : forall (A : Type) (n : nat) (l : list A),
  List.length (chunks n l) = (List.length l / n)%nat.
Proof. intros. unfold chunks. rewrite length_map, length_seq. reflexivity. Qed.

Lemma chunks_row_length : forall (A : Type) (n : nat) (l : list A) r,
  (0 < n)%nat -> In r (chunks n l) -> List.length r = n.
Proof.
  intros A n l r Hn Hin. unfold chunks in Hin.
  apply in_map_iff in Hin. destruct Hin as [i [<- Hi]].
  apply in_seq in Hi. apply slice_length.
  pose proof (Nat.Div0.mul_div_le (List.length l) n) as Hle.
  nia.
Qed.

(** C8. Blob decoding: a blob whose byte length is not divisible by
    [cols * itemsize] fails to decode (numpy's [ValueError], the
    specification's DecodeError), and, for a positive column count, a blob of
    exactly [rows * cols * itemsize] bytes decodes into the [rows]-by-[cols]
    array of the requested element type over the same bytes, for each of the
    four element types ([float32], [uint8], [uint32], [float64]); its [rows]
    rows have [cols] elements each.  With the one-dimensional shape used for
    camera intrinsics the same holds with one column. *)
Theorem blob_to_array_divisibility : forall (blob : list byte) (dt : dtype) (cols : Z),
  (~ (cols * itemsize dt | Z.of_nat (List.length blob)) ->
   blob_to_array (Some blob) dt (Shape2 cols) = Raise ValueError /\
   _blob_to_array (Some blob) dt (Shape2 cols) = Raise ValueError) /\
  (forall rows,
     0 < cols ->
     Z.of_nat (List.length blob) = rows * cols * itemsize dt ->
     blob_to_array (Some blob) dt (Shape2 cols)
       = Ok (Some (mk_ndarray dt [rows; cols] blob)) /\
     _blob_to_array (Some blob) dt (Shape2 cols)
       = Ok (Some (mk_ndarray dt [rows; cols] blob)) /\
     List.length (nd_rows (mk_ndarray dt [rows; cols] blob)) = Z.to_nat rows /\
     Forall (fun r => List.length r = Z.to_nat cols)
       (nd_rows (mk_ndarray dt [rows; cols] blob))) /\
  (~ (itemsize dt | Z.of_nat (List.length blob)) ->
   _blob_to_array (Some blob) dt Shape1 = Raise ValueError) /\
  (forall rows,
     Z.of_nat (List.length blob) = rows * itemsize dt ->
     _blob_to_array (Some blob) dt Shape1
       = Ok (Some (mk_ndarray dt [rows] blob))).
Proof.
  intros blob dt cols. pose proof (itemsize_pos dt) as Hp.
  set (n := Z.of_nat (List.length blob)).
  assert (Hraise : ~ (cols * itemsize dt | n) ->
                   blob_to_array (Some blob) dt (Shape2 cols) = Raise ValueError).
  { intros Hnd. unfold blob_to_array.
    destruct (Z.eq_dec (n mod itemsize dt) 0) as [Hm | Hm].
    - apply Z.mod_divide in Hm; [| lia]. destruct Hm as [k Hk].
      rewrite (frombuffer_multiple blob dt k) by exact Hk.
      cbn [bind reshape nd_size nd_shape fold_right nd_dtype nd_buffer].
      destruct (Z.leb_spec cols 0); [reflexivity |].
      rewrite Z.mul_1_r.
      destruct (Z.eqb_spec (k mod cols) 0) as [Hk0 | Hk0]; [| reflexivity].
      exfalso. apply Hnd. apply Z.mod_divide in Hk0; [| lia].
      destruct Hk0 as [j Hj]. exists j. fold n in Hk. rewrite Hk, Hj. ring.
    - rewrite frombuffer_not_multiple by exact Hm. reflexivity. }
  assert (Hok : forall rows, 0 < cols -> n = rows * cols * itemsize dt ->
                blob_to_array (Some blob) dt (Shape2 cols)
                = Ok (Some (mk_ndarray dt [rows; cols] blob))).
  { intros rows Hc Hn. unfold blob_to_array.
    rewrite (frombuffer_multiple blob dt (rows * cols)) by exact Hn.
    cbn [bind reshape nd_size nd_shape fold_right nd_dtype nd_buffer].
    destruct (Z.leb_spec cols 0); [lia |].
    rewrite Z.mul_1_r, Z.mod_mul, Z.div_mul by lia. reflexivity. }
  split; [| split; [| split]].
  - intros Hnd. split; [| unfold _blob_to_array]; apply Hraise; exact Hnd.
  - intros rows Hc Hn.
    assert (Hrows : 0 <= rows) by (fold n in Hn; nia).
    assert (Hitems : List.length (nd_items (mk_ndarray dt [rows; cols] blob))
                     = Z.to_nat (rows * cols)).
    { unfold nd_items. rewrite length_map, chunks_length. cbn [nd_dtype nd_buffer].
      apply Nat2Z.inj. rewrite Nat2Z.inj_div, !Z2Nat.id by lia.
      fold n. rewrite Hn. apply Z.div_mul. lia. }
    split; [apply Hok; assumption |].
    split; [unfold _blob_to_array; apply Hok; assumption |].
    split.
    + unfold nd_rows. cbn [nd_shape]. rewrite chunks_length, Hitems.
      apply Nat2Z.inj. rewrite Nat2Z.inj_div, !Z2Nat.id by lia.
      apply Z.div_mul. lia.
    + apply Forall_forall. intros r Hr. unfold nd_rows in Hr. cbn [nd_shape] in Hr.
      apply chunks_row_length in Hr; [exact Hr | lia].
  - intros Hnd. unfold _blob_to_array, blob_to_array.
    rewrite frombuffer_not_multiple; [reflexivity |].
    intros Hm. apply Hnd. apply Z.mod_divide; [lia | exact Hm].
  - intros rows Hn. unfold _blob_to_array, blob_to_array.
    rewrite (frombuffer_multiple blob dt rows) by exact Hn.
    cbn [bind reshape nd_size nd_shape fold_right nd_dtype nd_buffer].
    rewrite Z.mul_1_r. reflexivity.
Qed.

Lemma blob_to_array_divisibility_witness :
  blob_to_array (Some [x01; x02; x03]%byte) float32 (Shape2 2) = Raise ValueError /\
  blob_to_array
    (Some [x00; x00; x80; x3f; x00; x00; x00; x40]%byte) float32 (Shape2 2)
  = Ok (Some (mk_ndarray float32 [1; 2]
                [x00; x00; x80; x3f; x00; x00; x00; x40]%byte)).
Proof.
  split.
  - apply (proj1 (blob_to_array_divisibility [x01; x02; x03]%byte float32 2)).
    intros [k Hk]. cbn in Hk. lia.
  - apply (proj1 (proj2 (blob_to_array_divisibility
                           [x00; x00; x80; x3f; x00; x00; x00; x40]%byte
                           float32 2)) 1); [lia | reflexivity].
Defined.

(** ** Euler decomposition *)





(** The boundary case of the specification: [R00 = R10 = 0] gives [sy = 0],
    the alternate branch and a yaw of exactly [0]. *)
Example euler_boundary_example :
  forall atan2 : float -> float -> float,
  rotation_matrix_to_euler_angles atan2
    (mk_mat3 0 0 1 0 1 0 (-1) 0 0)
  = (degrees (atan2 (-0)%float 1%float),
     degrees (atan2 1%float 0%float),
     0%float).
Proof. intros atan2. reflexivity. Qed.

(** ** Pose precedence (per-image pose reader) *)

Lemma is_registered_fields : forall row,
  is_registered row = true ->
  exists w x y z a b c,
    qw row = Some w /\ qx row = Some x /\ qy row = Some y /\ qz row = Some z /\
    tx row = Some a /\ ty row = Some b /\ tz row = Some c.
Proof.
  intros row H. unfold is_registered in H.
  repeat (apply andb_prop in H; destruct H as [H ?]).
  destruct (qw row) as [w |], (qx row) as [x |], (qy row) as [y |],
    (qz row) as [z |], (tx row) as [a |], (ty row) as [b |],
    (tz row) as [c |]; try discriminate.
  exists w, x, y, z, a, b, c. repeat split.
Qed.

Lemma resolve_pose_registered : forall row w x y z a b c,
  qw row = Some w -> qx row = Some x -> qy row = Some y -> qz row = Some z ->
  tx row = Some a -> ty row = Some b -> tz row = Some c ->
  is_registered row = true /\
  resolve_pose row = Some (true, (w, x, y, z), (a, b, c)).
Proof.
  intros row w x y z a b c Hw Hx Hy Hz Ha Hb Hc.
  unfold is_registered, resolve_pose.
  rewrite Hw, Hx, Hy, Hz, Ha, Hb, Hc. split; reflexivity.
Qed.

Lemma resolve_pose_unregistered : forall row,
  is_registered row = false ->
  resolve_pose row =
  match prior_qw row, prior_qx row, prior_qy row, prior_qz row with
  | Some w, Some x, Some y, Some z =>
      Some (false, (w, x, y, z),
            (or_zero (prior_tx row), or_zero (prior_ty row),
             or_zero (prior_tz row)))
  | _, _, _, _ => None
  end.
Proof.
  intros row H. unfold is_registered in H. unfold resolve_pose.
  destruct (qw row), (qx row), (qy row), (qz row), (tx row), (ty row),
    (tz row); try discriminate; reflexivity.
Qed.

Lemma pose_of_row_inv : forall atan2 row p,
  In p (pose_of_row atan2 row) ->
  exists registered q t R,
    resolve_pose row = Some (registered, q, t) /\
    quaternion_to_rotation_matrix q = Ok R /\
    pose_of_row atan2 row = [p] /\
    p = mk_pose_data (image_id row) (name row) (camera_id row) registered q t
          (camera_center_of R t) (rotation_matrix_to_euler_angles atan2 R) R.
Proof.
  intros atan2 row p Hin. unfold pose_of_row in *.
  destruct (resolve_pose row) as [[[registered q] t] |]; [| destruct Hin].
  destruct (quaternion_to_rotation_matrix q) as [R | e] eqn:HR; cbn in *;
    [| destruct Hin].
  destruct Hin as [<- | []].
  exists registered, q, t, R. repeat (split; try reflexivity). exact HR.
Qed.

Lemma pose_of_row_resolved : forall atan2 row registered q t,
  resolve_pose row = Some (registered, q, t) ->
  (quaternion_norm q =? 0)%float = false ->
  exists p, pose_of_row atan2 row = [p] /\
            pd_is_registered p = registered /\
            pd_quaternion p = q /\ pd_translation p = t /\
            pd_image_id p = image_id row /\ pd_image_name p = name row.
Proof.
  intros atan2 row registered q t Hr Hn. unfold pose_of_row. rewrite Hr.
  unfold quaternion_to_rotation_matrix. rewrite Hn. cbn.
  eexists. repeat split.
Qed.

Lemma select_optimized_registered : forall row,
  is_registered row = true ->
  exists q t, select_optimized row = Some (q, t) /\
              resolve_pose row = Some (true, q, t).
Proof.
  intros row H.
  destruct (is_registered_fields row H)
    as (w & x & y & z & a & b & c & Hw & Hx & Hy & Hz & Ha & Hb & Hc).
  exists (w, x, y, z), (a, b, c). unfold select_optimized, resolve_pose.
  rewrite Hw, Hx, Hy, Hz, Ha, Hb, Hc. split; reflexivity.
Qed.

Lemma select_optimized_none : forall row,
  is_registered row = false -> select_optimized row = None.
Proof.
  intros row H. unfold is_registered in H. unfold select_optimized.
  destruct (qw row), (qx row), (qy row), (qz row), (tx row), (ty row),
    (tz row); try discriminate; reflexivity.
Qed.

(** The precedence is not applied row by row in the global pose reader: on
    the scenario store the second image has no optimized pose and a non-null
    prior quaternion, the per-image reader resolves it from the prior fields,
    and the global reader, which selects the optimized rows because the
    table has the optimized columns, leaves it out. *)
Lemma global_reader_skips_prior_only_row :
  In scenario_image2 (images scenario_db) /\
  is_registered scenario_image2 = false /\
  prior_qw scenario_image2 = Some 1%float /\
  prior_qx scenario_image2 = Some 0%float /\
  prior_qy scenario_image2 = Some 0%float /\
  prior_qz scenario_image2 = Some 0%float /\
  resolve_pose scenario_image2
    = Some (false, (1, 0, 0, 0)%float, (0, 0, 0)%float) /\
  exists poses,
    read_global_poses_from_database scenario_db = Ok poses /\
    map gp_image_id poses = [1] /\
    ~ In (image_id scenario_image2) (map gp_image_id poses).
Proof.
  split; [right; left; reflexivity |].
  do 6 (split; [reflexivity |]).
  eexists. split; [vm_compute; reflexivity |].
  split; [reflexivity |].
  intros [H | []]. discriminate H.
Qed.

(** C1 (amended). Pose precedence.  In the per-image pose reader
    ([read_camera_poses_from_database]), for every row of [images]:
    - all seven optimized fields non-null: the resolved pose is made of them
      and [is_registered] is true;
    - otherwise, all four prior quaternion fields non-null: the resolved pose
      is the prior quaternion with the prior translation, each null
      component replaced by [0.0], and [is_registered] is false;
    - otherwise the row is skipped: it contributes nothing to the output.
    The output of that reader is the concatenation of what the rows
    contribute, and every record in it carries the flag, quaternion and
    translation resolved for its row.
    In the global pose reader ([read_global_poses_from_database]) the choice
    is made once for the table: when [images] has the seven optimized
    columns, exactly the rows with all seven optimized fields non-null are
    resolved, from those fields (a row with a prior pose only is absent);
    when it lacks one of them and has the four prior quaternion columns, the
    rows with a non-null prior quaternion are resolved from it, null prior
    translation components replaced by [0]. *)
Theorem pose_precedence :
  forall (atan2 : float -> float -> float) (row : image_row),
  (forall w x y z a b c,
     qw row = Some w -> qx row = Some x -> qy row = Some y ->
     qz row = Some z -> tx row = Some a -> ty row = Some b ->
     tz row = Some c ->
     is_registered row = true /\
     resolve_pose row = Some (true, (w, x, y, z), (a, b, c))) /\
  (is_registered row = false ->
   forall w x y z,
     prior_qw row = Some w -> prior_qx row = Some x ->
     prior_qy row = Some y -> prior_qz row = Some z ->
     resolve_pose row
     = Some (false, (w, x, y, z),
             (or_zero (prior_tx row), or_zero (prior_ty row),
              or_zero (prior_tz row))) /\
     select_prior row
     = Some ((w, x, y, z),
             (coalesce_zero (prior_tx row), coalesce_zero (prior_ty row),
              coalesce_zero (prior_tz row))) /\
     (prior_tx row = None ->
      or_zero (prior_tx row) = 0%float /\ coalesce_zero (prior_tx row) = 0%float) /\
     (prior_ty row = None ->
      or_zero (prior_ty row) = 0%float /\ coalesce_zero (prior_ty row) = 0%float) /\
     (prior_tz row = None ->
      or_zero (prior_tz row) = 0%float /\ coalesce_zero (prior_tz row) = 0%float)) /\
  (is_registered row = false ->
   (prior_qw row = None \/ prior_qx row = None \/
    prior_qy row = None \/ prior_qz row = None) ->
   resolve_pose row = None /\ pose_of_row atan2 row = [] /\
   select_prior row = None) /\
  (forall p,
     In p (pose_of_row atan2 row) ->
     pose_of_row atan2 row = [p] /\
     resolve_pose row
     = Some (pd_is_registered p, pd_quaternion p, pd_translation p) /\
     pd_is_registered p = is_registered row) /\
  (forall registered q t,
     resolve_pose row = Some (registered, q, t) ->
     (quaternion_norm q =? 0)%float = false ->
     exists p, pose_of_row atan2 row = [p]) /\
  (forall db poses cams,
     read_camera_poses_from_database atan2 db = Ok (poses, cams) ->
     poses = flat_map (pose_of_row atan2) (images db)) /\
  (is_registered row = true ->
   exists q t, select_optimized row = Some (q, t) /\
               resolve_pose row = Some (true, q, t)) /\
  (is_registered row = false -> select_optimized row = None) /\
  (forall db,
     has_columns db optimized_columns = true ->
     has_columns db key_columns = true ->
     read_global_poses_from_database db
     = Ok (flat_map (fun r => global_pose_of r (select_optimized r))
             (images db))) /\
  (forall db,
     has_columns db optimized_columns = false ->
     has_columns db prior_q_columns = true ->
     has_columns db (key_columns ++ prior_t_columns) = true ->
     read_global_poses_from_database db
     = Ok (flat_map (fun r => global_pose_of r (select_prior r))
             (images db))).
Proof.
  intros atan2 row. repeat apply conj.
  - intros. apply resolve_pose_registered; assumption.
  - intros Hreg w x y z Hw Hx Hy Hz.
    rewrite (resolve_pose_unregistered row Hreg). unfold select_prior.
    rewrite Hw, Hx, Hy, Hz.
    repeat split;
      match goal with H : _ = None |- _ => rewrite H; reflexivity end.
  - intros Hreg Hnone.
    assert (Hr : resolve_pose row = None /\ select_prior row = None).
    { rewrite (resolve_pose_unregistered row Hreg). unfold select_prior.
      destruct Hnone as [-> | [-> | [-> | ->]]];
        destruct (prior_qw row), (prior_qx row), (prior_qy row),
          (prior_qz row); split; reflexivity. }
    destruct Hr as [Hr Hs]. split; [exact Hr |]. split; [| exact Hs].
    unfold pose_of_row. rewrite Hr. reflexivity.
  - intros p Hin.
    destruct (pose_of_row_inv atan2 row p Hin)
      as (registered & q & t & R & Hr & HR & Hone & ->).
    cbn. repeat split; [exact Hone | exact Hr |].
    destruct (is_registered row) eqn:Hreg.
    + destruct (is_registered_fields row Hreg)
        as (w & x & y & z & a & b & c & Hw & Hx & Hy & Hz & Ha & Hb & Hc).
      destruct (resolve_pose_registered row w x y z a b c Hw Hx Hy Hz Ha Hb Hc)
        as [_ Hr']. congruence.
    + rewrite (resolve_pose_unregistered row Hreg) in Hr.
      destruct (prior_qw row), (prior_qx row), (prior_qy row), (prior_qz row);
        congruence.
  - intros registered q t Hr Hn.
    destruct (pose_of_row_resolved atan2 row registered q t Hr Hn) as [p [Hp _]].
    exists p. exact Hp.
  - intros db poses cams H. unfold read_camera_poses_from_database in H.
    destruct (read_cameras (cameras db) []) as [cs | e]; cbn [bind] in H;
      [| discriminate].
    destruct (has_columns db _); [| discriminate].
    injection H as <- _. reflexivity.
  - apply select_optimized_registered.
  - apply select_optimized_none.
  - intros db Hopt Hkey. unfold read_global_poses_from_database.
    rewrite Hopt, Hkey, andb_false_r. reflexivity.
  - intros db Hopt Hprior Hcols. unfold read_global_poses_from_database.
    rewrite Hopt, Hprior, Hcols. reflexivity.
Qed.

(** The three rows of the scenario store: optimized fields preferred over the
    prior ones, null prior translation defaulted to zero, no pose data
    skipped; the reader returns on this store. *)
Example pose_precedence_scenario :
  forall atan2 : float -> float -> float,
  map (fun p => (pd_image_id p, pd_is_registered p, pd_quaternion p,
                 pd_translation p))
    (flat_map (pose_of_row atan2) scenario_images)
  = [ (1, true, (0.5, 0.5, 0.5, 0.5)%float, (1.5, -2.25, 3)%float);
      (2, false, (1, 0, 0, 0)%float, (0, 0, 0)%float) ] /\
  exists cams,
    read_camera_poses_from_database atan2 scenario_db
    = Ok (flat_map (pose_of_row atan2) scenario_images, cams).
Proof.
  intros atan2. split; [reflexivity |].
  unfold read_camera_poses_from_database.
  destruct (read_cameras (cameras scenario_db) []) as [cams | e] eqn:E;
    [| vm_compute in E; discriminate].
  exists cams. reflexivity.
Qed.

(** ** Quaternion normalisation *)

Lemma quaternion_to_rotation_matrix_unfold : forall q,
  quaternion_to_rotation_matrix q
  = if (quaternion_norm q =? 0)%float then Raise ZeroDivisionError
    else Ok (rotation_matrix_literal (quaternion_div q (quaternion_norm q))).
Proof. reflexivity. Qed.





(** ** Global pose exporter on the end-to-end scenario *)

Lemma global_pose_of_some : forall row q t,
  (quaternion_norm q =? 0)%float = false ->
  global_pose_of row (Some (q, t))
  = [mk_global_pose (image_id row) (name row) (camera_id row)
       (rotation_matrix_literal (quaternion_div q (quaternion_norm q))) t].
Proof.
  intros row q t Hn. unfold global_pose_of.
  rewrite quaternion_to_rotation_matrix_unfold, Hn. reflexivity.
Qed.

(** On the scenario store the global pose file starts with the line [1], not
    [2]: the images table has the optimized columns, so only rows with a
    full optimized pose are selected and the prior-only image 2 is left out
    (the per-image pose reader resolves images 1 and 2 on the same store). *)
Lemma global_exporter_scenario_one_image :
  (exists content,
     global_poses_main scenario_db = Some content /\
     first_line content = ("1" ++ newline)%string /\
     first_line content <> ("2" ++ newline)%string) /\
  (exists p,
     read_global_poses_from_database scenario_db = Ok [p] /\
     gp_image_id p = 1) /\
  map pd_image_id (flat_map (pose_of_row (fun _ _ => 0%float)) scenario_images)
  = [1; 2].
Proof.
  split; [| split].
  - eexists. split; [vm_compute; reflexivity |].
    split; [vm_compute; reflexivity | vm_compute; discriminate].
  - eexists. split; vm_compute; reflexivity.
  - vm_compute. reflexivity.
Qed.

(** C3 (amended). For a store of the end-to-end scenario -- an images table
    with the optimized pose columns and three rows, the first with a full
    optimized pose of non-zero norm, the second with a prior pose only, the
    third without pose data -- the global pose exporter resolves exactly one
    of the three images, the one with the optimized pose, and writes the
    count [1] followed by a newline as the first line of the global pose
    file. *)
Theorem global_exporter_scenario :
  forall (db : database) (r1 r2 r3 : image_row) (q : quat) (t : vec3),
  images db = [r1; r2; r3] ->
  has_columns db optimized_columns = true ->
  has_columns db key_columns = true ->
  select_optimized r1 = Some (q, t) ->
  (quaternion_norm q =? 0)%float = false ->
  is_registered r2 = false ->
  is_registered r3 = false ->
  (exists p,
     read_global_poses_from_database db = Ok [p] /\
     gp_image_id p = image_id r1 /\ gp_image_name p = name r1 /\
     gp_translation p = t) /\
  (exists content,
     global_poses_main db = Some content /\
     first_line content = ("1" ++ newline)%string).
Proof.
  intros db r1 r2 r3 q t Himgs Hopt Hkey H1 Hn H2 H3.
  assert (Hread : read_global_poses_from_database db
                  = Ok (global_pose_of r1 (Some (q, t)))).
  { unfold read_global_poses_from_database.
    rewrite Hopt, Hkey, Himgs, andb_false_r. cbn [negb flat_map].
    rewrite H1, (select_optimized_none r2 H2),
      (select_optimized_none r3 H3).
    cbn [global_pose_of Datatypes.app]. rewrite app_nil_r. reflexivity. }
  rewrite global_pose_of_some in Hread by exact Hn.
  split.
  - eexists. split; [exact Hread |]. repeat split.
  - unfold global_poses_main. rewrite Hread.
    eexists. split; [reflexivity |]. reflexivity.
Qed.

Lemma global_exporter_scenario_witness :
  (exists p,
     read_global_poses_from_database scenario_db = Ok [p] /\
     gp_image_id p = image_id scenario_image1 /\
     gp_image_name p = name scenario_image1 /\
     gp_translation p = (1.5, -2.25, 3)%float) /\
  (exists content,
     global_poses_main scenario_db = Some content /\
     first_line content = ("1" ++ newline)%string).
Proof.
  apply (global_exporter_scenario scenario_db
           scenario_image1 scenario_image2 scenario_image3
           (0.5, 0.5, 0.5, 0.5)%float (1.5, -2.25, 3)%float);
    reflexivity.
Defined.

(** ** Match exporter *)

Lemma match_coords_filter : forall kpts1 kpts2 ms,
  match_coords kpts1 kpts2 ms
  = match_coords kpts1 kpts2 (filter (index_pair_in_range kpts1 kpts2) ms).
Proof.
  intros kpts1 kpts2 ms. induction ms as [| m ms IH]; [reflexivity |].
  destruct m as [| idx1 [| idx2 [| idx3 m']]]; try reflexivity.
  cbn [filter index_pair_in_range].
  destruct ((idx1 <? nd_len kpts1) && (idx2 <? nd_len kpts2)) eqn:E.
  - cbn [match_coords]. rewrite E, <- IH. reflexivity.
  - cbn [match_coords]. rewrite E. exact IH.
Qed.

Lemma match_coords_length : forall kpts1 kpts2 ms cs,
  match_coords kpts1 kpts2 ms = Ok cs ->
  List.length cs
  = List.length (filter (index_pair_in_range kpts1 kpts2) ms).
Proof.
  intros kpts1 kpts2 ms. induction ms as [| m ms IH]; intros cs H.
  - injection H as <-. reflexivity.
  - destruct m as [| idx1 [| idx2 [| idx3 m']]]; try discriminate.
    cbn [filter index_pair_in_range]. cbn [match_coords] in H.
    destruct ((idx1 <? nd_len kpts1) && (idx2 <? nd_len kpts2)).
    + destruct (keypoint_xy kpts1 idx1) as [xy1 |]; [| discriminate].
      destruct (keypoint_xy kpts2 idx2) as [xy2 |]; [| discriminate].
      cbn [bind] in H.
      destruct (match_coords kpts1 kpts2 ms) as [rest |]; [| discriminate].
      cbn [bind] in H. injection H as <-. cbn [List.length].
      f_equal. apply IH. reflexivity.
    + apply IH. exact H.
Qed.

Lemma match_data_of_row_nonempty : forall imgs kps row recs m,
  match_data_of_row imgs kps row = Ok recs ->
  In m recs -> md_matches m <> [].
Proof.
  intros imgs kps row recs m H Hin. unfold match_data_of_row in H.
  destruct (br_data row) as [data |];
    [| injection H as <-; destruct Hin].
  destruct (negb (br_rows row >? 0));
    [injection H as <-; destruct Hin |].
  destruct (pair_id_to_image_ids (br_key row)) as [image_id1 image_id2].
  destruct (dict_get imgs image_id1) as [info1 |];
    [| injection H as <-; destruct Hin].
  destruct (dict_get imgs image_id2) as [info2 |];
    [| injection H as <-; destruct Hin].
  destruct (dict_get kps image_id1) as [kpts1 |];
    [| injection H as <-; destruct Hin].
  destruct (dict_get kps image_id2) as [kpts2 |];
    [| injection H as <-; destruct Hin].
  destruct (blob_to_array (Some data) uint32 (Shape2 2)) as [[ms |] | e];
    cbn [bind] in H; try discriminate;
    [| injection H as <-; destruct Hin].
  destruct (nd_len ms =? 0); [injection H as <-; destruct Hin |].
  destruct (match_coords kpts1 kpts2 (nd_rows ms)) as [cs |];
    cbn [bind] in H; [| discriminate].
  destruct cs as [| c cs]; cbn in H; injection H as <-.
  - destruct Hin.
  - destruct Hin as [<- | []]. discriminate.
Qed.

(** C10. In the match exporter every stored index pair is tested against the
    keypoint counts of both images before a keypoint array is indexed: the
    coordinates collected for a row of [matches] are those of the in-range
    pairs alone, an out-of-range pair contributing neither a coordinate line
    nor an error.  So the number of coordinate lines is the number of
    in-range pairs, at most the stored count; when no pair is in range the
    loop ends without error on an empty list, and a row never produces a
    record (hence a file) without coordinates.  On the scenario store with
    the index pairs [(0,0) (9,1) (2,7)] the file has one coordinate line for
    three stored pairs; with [(6,0) (0,6)] no file is written, whatever the
    minimum. *)
Theorem out_of_range_index_pairs_omitted :
  (forall kpts1 kpts2 ms,
     match_coords kpts1 kpts2 ms
     = match_coords kpts1 kpts2
         (filter (index_pair_in_range kpts1 kpts2) ms)) /\
  (forall kpts1 kpts2 ms cs,
     match_coords kpts1 kpts2 ms = Ok cs ->
     List.length cs
     = List.length (filter (index_pair_in_range kpts1 kpts2) ms) /\
     (List.length cs <= List.length ms)%nat) /\
  (forall kpts1 kpts2 ms,
     filter (index_pair_in_range kpts1 kpts2) ms = [] ->
     match_coords kpts1 kpts2 ms = Ok []) /\
  (forall imgs kps row recs m,
     match_data_of_row imgs kps row = Ok recs ->
     In m recs -> md_matches m <> []) /\
  matches_main scenario_db_out_of_range 1
  = [("matches_img1_img2.txt"%string,
      ("1 2" ++ newline ++
       "10.500000 20.250000 11.500000 21.250000" ++ newline)%string)] /\
  read_database_matches scenario_db_all_out_of_range = Ok [] /\
  (forall min_matches,
     matches_main scenario_db_all_out_of_range min_matches = []).
Proof.
  repeat apply conj.
  - exact match_coords_filter.
  - intros kpts1 kpts2 ms cs H.
    rewrite (match_coords_length kpts1 kpts2 ms cs H).
    split; [reflexivity | apply filter_length_le].
  - intros kpts1 kpts2 ms H. rewrite match_coords_filter, H. reflexivity.
  - exact match_data_of_row_nonempty.
  - vm_compute. reflexivity.
  - vm_compute. reflexivity.
  - intros min_matches. unfold matches_main.
    replace (read_database_matches scenario_db_all_out_of_range)
      with (@Ok (list match_data) []) by (vm_compute; reflexivity).
    reflexivity.
Qed.

Lemma scenario_matches_read :
  read_database_matches scenario_db
  = Ok [mk_match_data 1 2 1 2 "img1.jpg" "img2.jpg"
          [(10.5, 20.25, 11.5, 21.25)%float;
           (30, 40, 31, 41)%float;
           (50.125, 60.5, 71, 81.75)%float;
           (70, 80.75, 51.125, 61.5)%float;
           (110, 120, 91.5, 101)%float]].
Proof. vm_compute. reflexivity. Qed.

(** With the default minimum of 15 matches the scenario's pair, which has 5
    index pairs, is filtered out by [main] and no match file is written. *)
Lemma match_exporter_scenario_default_minimum :
  default_min_matches = 15 /\
  matches_main scenario_db default_min_matches = [].
Proof. split; vm_compute; reflexivity. Qed.

(** C4 (amended). For the end-to-end scenario's single match-table row
    between images 1 and 2 holding 5 index pairs, run with a minimum match
    count of at most 5 (the default is 15), the match exporter writes exactly
    one file, [matches_img1_img2.txt], named from the two image names with
    the extensions stripped; its first line is the two camera identifiers
    and it has exactly 5 coordinate lines [x1 y1 x2 y2] at 6 decimal
    places. *)
Theorem match_exporter_scenario : forall min_matches : Z,
  min_matches <= 5 ->
  matches_main scenario_db min_matches
  = [("matches_img1_img2.txt"%string,
      ("1 2" ++ newline ++
       "10.500000 20.250000 11.500000 21.250000" ++ newline ++
       "30.000000 40.000000 31.000000 41.000000" ++ newline ++
       "50.125000 60.500000 71.000000 81.750000" ++ newline ++
       "70.000000 80.750000 51.125000 61.500000" ++ newline ++
       "110.000000 120.000000 91.500000 101.000000" ++ newline)%string)].
Proof.
  intros min_matches Hmin. unfold matches_main.
  rewrite scenario_matches_read. cbn [filter md_matches List.length].
  replace (Z.of_nat 5 >=? min_matches) with true
    by (symmetry; rewrite Z.geb_leb; apply Z.leb_le; lia).
  vm_compute. reflexivity.
Qed.

Lemma match_exporter_scenario_witness :
  matches_main scenario_db 5
  = [("matches_img1_img2.txt"%string,
      ("1 2" ++ newline ++
       "10.500000 20.250000 11.500000 21.250000" ++ newline ++
       "30.000000 40.000000 31.000000 41.000000" ++ newline ++
       "50.125000 60.500000 71.000000 81.750000" ++ newline ++
       "70.000000 80.750000 51.125000 61.500000" ++ newline ++
       "110.000000 120.000000 91.500000 101.000000" ++ newline)%string)].
Proof. apply (match_exporter_scenario 5). lia. Defined.

(** ** Model readers: the binary layout *)

Lemma byte_to_Z_of_Z : forall z, byte_to_Z (byte_of_Z z) = z mod 256.
Proof.
  intros z. unfold byte_to_Z, byte_of_Z.
  assert (Hr : 0 <= z mod 256 < 256) by (apply Z.mod_pos_bound; lia).
  destruct (Byte.of_N (Z.to_N (z mod 256))) as [b |] eqn:E.
  - apply Byte.to_of_N in E. rewrite E. apply Z2N.id. lia.
  - apply Byte.of_N_None_iff in E. lia.
Qed.

Lemma le_bytes_length : forall n z, List.length (le_bytes n z) = n.
Proof.
  induction n as [| n IH]; intros z; [reflexivity |].
  cbn [le_bytes List.length]. rewrite IH. reflexivity.
Qed.

Lemma le_unsigned_le_bytes : forall n z,
  le_unsigned (le_bytes n z) = z mod 2 ^ (8 * Z.of_nat n).
Proof.
  induction n as [| n IH]; intros z.
  - cbn. rewrite Z.mod_1_r. reflexivity.
  - cbn [le_bytes le_unsigned]. rewrite byte_to_Z_of_Z, IH.
    replace (8 * Z.of_nat (S n)) with (8 + 8 * Z.of_nat n) by lia.
    rewrite Z.pow_add_r by lia. change (2 ^ 8) with 256.
    rewrite Z.rem_mul_r by lia. reflexivity.
Qed.

Lemma le_unsigned_le_bytes_small : forall n z,
  0 <= z < 2 ^ (8 * Z.of_nat n) -> le_unsigned (le_bytes n z) = z.
Proof.
  intros n z Hz. rewrite le_unsigned_le_bytes. apply Z.mod_small. exact Hz.
Qed.



Lemma slice_here : forall (A : Type) (a l : list A) n,
  List.length a = n -> slice 0 n (a ++ l) = a.
Proof.
  intros A a l n <-. unfold slice. cbn [skipn].
  rewrite firstn_app, Nat.sub_diag, firstn_all. cbn. apply app_nil_r.
Qed.


Lemma slice_skip : forall (A : Type) (a l : list A) m k n,
  List.length a = m -> (m <= k)%nat ->
  slice k n (a ++ l) = slice (k - m) n l.
Proof.
  intros A a l m k n <- Hk. unfold slice.
  rewrite skipn_app, (skipn_all2 a) by lia. reflexivity.
Qed.

Lemma chunks_cons : forall (A : Type) (n : nat) (l r : list A),
  (0 < n)%nat -> List.length l = n ->
  chunks n (l ++ r) = l :: chunks n r.
Proof.
  intros A n l r Hn Hl. unfold chunks.
  rewrite length_app, Hl.
  replace (n + List.length r)%nat with (1 * n + List.length r)%nat by lia.
  rewrite Nat.div_add_l by lia.
  cbn [Nat.add seq map]. rewrite <- seq_shift, map_map. f_equal.
  - rewrite Nat.mul_0_l. apply slice_here. exact Hl.
  - apply map_ext. intros i.
    rewrite slice_skip with (m := n) by (try exact Hl; cbn; lia).
    f_equal. cbn. lia.
Qed.

Lemma chunks_nil : forall (A : Type) (n : nat), chunks n (@nil A) = [].
Proof. intros A n. unfold chunks. cbn. rewrite Nat.Div0.div_0_l. reflexivity. Qed.

Lemma chunks_flat_map : forall (A B : Type) (f : A -> list B) (n : nat) (l : list A),
  (0 < n)%nat -> (forall x, List.length (f x) = n) ->
  chunks n (flat_map f l) = map f l.
Proof.
  intros A B f n l Hn Hf. induction l as [| x l IH].
  - apply chunks_nil.
  - cbn [flat_map map]. rewrite chunks_cons by (try apply Hf; exact Hn).
    rewrite IH. reflexivity.
Qed.

Lemma flat_map_length_const : forall (A B : Type) (f : A -> list B) (n : nat) (l : list A),
  (forall x, List.length (f x) = n) ->
  List.length (flat_map f l) = (n * List.length l)%nat.
Proof.
  intros A B f n l Hf. induction l as [| x l IH]; cbn [flat_map List.length].
  - lia.
  - rewrite length_app, Hf, IH. lia.
Qed.






Section BinaryReader.
Variable py_int : string -> option Z.
Variable py_float : string -> option float.













End BinaryReader.

(** ** Model readers: the text layout *)

Local Open Scope string_scope.

Lemma string_app_assoc : forall a b c : string, (a ++ b) ++ c = a ++ (b ++ c).
Proof.
  induction a as [| x a IH]; intros b c; cbn; [reflexivity |].
  rewrite IH. reflexivity.
Qed.

Lemma string_app_nil_r : forall a : string, a ++ "" = a.
Proof.
  induction a as [| x a IH]; cbn; [reflexivity |]. rewrite IH. reflexivity.
Qed.

Lemma all_ascii_app : forall p a b,
  all_ascii p (a ++ b) = all_ascii p a && all_ascii p b.
Proof.
  intros p. induction a as [| x a IH]; intros b; cbn; [reflexivity |].
  rewrite IH, andb_assoc. reflexivity.
Qed.

Lemma all_ascii_weaken : forall (p q : ascii -> bool) s,
  (forall c, p c = true -> q c = true) ->
  all_ascii p s = true -> all_ascii q s = true.
Proof.
  intros p q s Hpq. induction s as [| x s IH]; cbn; [reflexivity |].
  intros H. apply andb_prop in H. destruct H as [Hx Hs].
  rewrite (Hpq x Hx), (IH Hs). reflexivity.
Qed.

Lemma not_space_not_newline : forall c,
  not_space c = true -> not_newline c = true.
Proof.
  intros c H. unfold not_space, not_newline in *.
  destruct (Ascii.eqb_spec c (ascii_of_nat 10)) as [-> | ]; [| reflexivity].
  discriminate H.
Qed.

Lemma is_token_inv : forall t,
  is_token t = true -> is_empty t = false /\ all_ascii not_space t = true.
Proof.
  intros t H. unfold is_token in H. apply andb_prop in H.
  destruct H as [He Ha]. apply negb_true_iff in He. split; assumption.
Qed.

Lemma is_empty_app_r : forall a b, is_empty b = false -> is_empty (a ++ b) = false.
Proof. intros [| x a] b H; [exact H | reflexivity]. Qed.

Lemma is_empty_app_l : forall a b, is_empty a = false -> is_empty (a ++ b) = false.
Proof. intros [| x a] b H; [discriminate | reflexivity]. Qed.

(** *** Lines *)

Lemma split_lines_line : forall l rest,
  all_ascii not_newline l = true ->
  split_lines (l ++ newline ++ rest) = (l ++ newline) :: split_lines rest.
Proof.
  induction l as [| x l IH]; intros rest H.
  - reflexivity.
  - cbn [all_ascii] in H. apply andb_prop in H. destruct H as [Hx Hl].
    unfold not_newline in Hx. apply negb_true_iff in Hx.
    cbn [append split_lines]. rewrite Hx, (IH rest Hl). reflexivity.
Qed.

(** *** Splitting on whitespace *)

Lemma split_from_token : forall t cur rest,
  all_ascii not_space t = true ->
  split_from cur (t ++ rest) = split_from (cur ++ t) rest.
Proof.
  induction t as [| x t IH]; intros cur rest H.
  - cbn. rewrite string_app_nil_r. reflexivity.
  - cbn [all_ascii] in H. apply andb_prop in H. destruct H as [Hx Ht].
    unfold not_space in Hx. apply negb_true_iff in Hx.
    cbn [append split_from]. rewrite Hx, (IH _ rest Ht).
    rewrite string_app_assoc. reflexivity.
Qed.

Lemma split_from_spaces : forall w,
  all_ascii is_space w = true -> split_from "" w = [].
Proof.
  induction w as [| x w IH]; intros H; [reflexivity |].
  cbn [all_ascii] in H. apply andb_prop in H. destruct H as [Hx Hw].
  cbn [split_from is_empty]. rewrite Hx. apply IH. exact Hw.
Qed.

Lemma split_from_cur_spaces : forall cur w,
  is_empty cur = false -> all_ascii is_space w = true ->
  split_from cur w = [cur].
Proof.
  intros cur [| x w] Hc H.
  - cbn. rewrite Hc. reflexivity.
  - cbn [all_ascii] in H. apply andb_prop in H. destruct H as [Hx Hw].
    cbn [split_from]. rewrite Hx, Hc, (split_from_spaces w Hw). reflexivity.
Qed.

Lemma split_from_cur_space : forall cur rest,
  is_empty cur = false ->
  split_from cur (String " " rest) = cur :: split_from "" rest.
Proof. intros cur rest Hc. cbn. rewrite Hc. reflexivity. Qed.

Lemma join_space_cons : forall t t' toks,
  join_space (t :: t' :: toks) = t ++ " " ++ join_space (t' :: toks).
Proof. reflexivity. Qed.

Lemma split_join_space : forall toks w,
  Forall (fun t => is_token t = true) toks ->
  all_ascii is_space w = true ->
  split (join_space toks ++ w) = toks.
Proof.
  unfold split. induction toks as [| t toks IH]; intros w Htoks Hw.
  - cbn. apply split_from_spaces. exact Hw.
  - inversion Htoks as [| t0 toks0 Ht Hrest]; subst.
    destruct (is_token_inv t Ht) as [Hne Hns].
    destruct toks as [| t' toks].
    + cbn [join_space]. rewrite split_from_token by exact Hns.
      cbn [append]. apply split_from_cur_spaces; assumption.
    + rewrite join_space_cons, !string_app_assoc.
      rewrite split_from_token by exact Hns. cbn [append].
      rewrite split_from_cur_space by exact Hne.
      rewrite (IH w Hrest Hw). reflexivity.
Qed.

(** *** Stripping *)







(** *** Tokens of a record *)



Lemma concat_empty_cons : forall x xs,
  String.concat "" (x :: xs) = x ++ String.concat "" xs.
Proof.
  intros x [| y xs]; cbn; [rewrite string_app_nil_r |]; reflexivity.
Qed.

Section TextReader.
Variable py_int : string -> option Z.
Variable py_float : string -> option float.





Lemma tokens_no_newline : forall toks,
  Forall (fun t => is_token t = true) toks ->
  all_ascii not_newline (join_space toks) = true.
Proof.
  induction toks as [| t toks IH]; intros H; [reflexivity |].
  inversion H as [| t0 toks0 Ht Hrest]; subst.
  destruct (is_token_inv t Ht) as [_ Hns].
  pose proof (all_ascii_weaken not_space not_newline t
                not_space_not_newline Hns) as Hnl.
  destruct toks as [| t' toks]; [exact Hnl |].
  rewrite join_space_cons, !all_ascii_app, Hnl, (IH Hrest). reflexivity.
Qed.




End TextReader.

Local Close Scope string_scope.

(** *** The two readers on the two layouts *)





(** The name is the tenth whitespace-separated field of the text layout: for
    a name holding a space the text reader keeps the first word, where the
    binary reader returns the name up to the zero byte. *)
Example text_name_is_first_word :
  is_token (c_name spaced_name_content) = false /\
  Model.read_images_binary (spec_images_binary [spaced_name_content])
    = Ok [(1, image_of_content spaced_name_content)] /\
  Model.read_images_text decimal_int decimal_float
    (spec_images_text [] [spaced_name_content])
    = Ok [(1, Model.mk_Image 1 (1, 0, 0, 0)%float (0, 0, 0)%float 1 "my"
                [] [])].
Proof. repeat split; vm_compute; reflexivity. Qed.

(* ================================================================== *)
(** * Part II, continued. Further properties of the code              *)
(* ================================================================== *)

(** ** Pair keys *)

Lemma encode_min_max : forall a b,
  _image_ids_to_pair_id a b = Z.min a b * MAX_IMAGE_ID + Z.max a b.
Proof.
  intros a b. unfold _image_ids_to_pair_id.
  destruct (a >? b) eqn:E.
  - rewrite Z.min_r, Z.max_l by lia. reflexivity.
  - rewrite Z.min_l, Z.max_r by lia. reflexivity.
Qed.

(** X1. The decoder splits every integer key [k] into [(a, b)] with
    [a * (2^31 - 1) + b = k] and [0 <= b < 2^31 - 1]; encoding the decoded
    pair gives [k] back exactly when [a <= b], so a stored key whose first
    component is the larger one is never the key of any encoder call on its
    own components. *)
Theorem pair_id_decode_then_encode : forall k,
  let '(a, b) := _pair_id_to_image_ids k in
  a * MAX_IMAGE_ID + b = k /\
  0 <= b < MAX_IMAGE_ID /\
  (_image_ids_to_pair_id a b = k <-> a <= b) /\
  (_image_ids_to_pair_id b a = k <-> a <= b).
Proof.
  intro k. unfold _pair_id_to_image_ids.
  assert (HM : 0 < MAX_IMAGE_ID) by (rewrite MAX_IMAGE_ID_value; lia).
  pose proof (Z.mod_pos_bound k MAX_IMAGE_ID HM) as Hb.
  pose proof (Z.div_mod k MAX_IMAGE_ID ltac:(lia)) as Hk.
  set (b := k mod MAX_IMAGE_ID) in *.
  assert (Ha : (k - b) / MAX_IMAGE_ID = k / MAX_IMAGE_ID).
  { replace (k - b) with (k / MAX_IMAGE_ID * MAX_IMAGE_ID) by lia.
    apply Z.div_mul. lia. }
  rewrite Ha. set (a := k / MAX_IMAGE_ID) in *.
  assert (E : a * MAX_IMAGE_ID + b = k) by lia.
  split; [exact E|]. split; [exact Hb|].
  assert (Hne : a <= b \/ (b < a /\ b * MAX_IMAGE_ID + a <> k)).
  { destruct (Z_le_gt_dec a b) as [Hle | Hgt]; [left; exact Hle | right].
    split; [lia|]. rewrite MAX_IMAGE_ID_value in *. nia. }
  split.
  - rewrite encode_min_max. split.
    + intro H. destruct Hne as [Hle | [Hlt Hd]]; [exact Hle|].
      rewrite Z.min_r, Z.max_l in H by lia. contradiction.
    + intro Hle. rewrite Z.min_l, Z.max_r by lia. exact E.
  - rewrite encode_min_max. split.
    + intro H. destruct Hne as [Hle | [Hlt Hd]]; [exact Hle|].
      rewrite Z.min_l, Z.max_r in H by lia. contradiction.
    + intro Hle. rewrite Z.min_r, Z.max_l by lia. exact E.
Qed.

Lemma decode_encode_min_max : forall a b,
  0 <= a < MAX_IMAGE_ID -> 0 <= b < MAX_IMAGE_ID ->
  _pair_id_to_image_ids (_image_ids_to_pair_id a b) = (Z.min a b, Z.max a b).
Proof.
  intros a b Ha Hb. rewrite encode_min_max. apply decode_packed. lia.
Qed.

(** X2. Pair keys do not collide: for identifiers within [[0, 2^31 - 1)],
    two pairs get the same key only when they are the same unordered pair;
    the order of the two arguments never matters. *)
Theorem pair_id_no_collision : forall a b c d,
  0 <= a < MAX_IMAGE_ID -> 0 <= b < MAX_IMAGE_ID ->
  0 <= c < MAX_IMAGE_ID -> 0 <= d < MAX_IMAGE_ID ->
  (_image_ids_to_pair_id a b = _image_ids_to_pair_id c d <->
   (a = c /\ b = d) \/ (a = d /\ b = c)).
Proof.
  intros a b c d Ha Hb Hc Hd. split.
  - intro H.
    pose proof (decode_encode_min_max a b Ha Hb) as E1.
    pose proof (decode_encode_min_max c d Hc Hd) as E2.
    rewrite H in E1. rewrite E1 in E2. inversion E2. lia.
  - intros [[-> ->] | [-> ->]]; [reflexivity|].
    rewrite !encode_min_max, Z.min_comm, Z.max_comm. reflexivity.
Qed.

Lemma pair_id_no_collision_witness :
  _image_ids_to_pair_id 7 3 = _image_ids_to_pair_id 3 7 <->
  (7 = 3 /\ 3 = 7) \/ (7 = 7 /\ 3 = 3).
Proof.
  apply (pair_id_no_collision 7 3 3 7); rewrite MAX_IMAGE_ID_value; lia.
Defined.

(** ** The text written by the exporters *)

Local Open Scope string_scope.

Lemma uint_digits : forall d,
  all_ascii is_digit (NilEmpty.string_of_uint d) = true.
Proof. induction d; cbn; try reflexivity; exact IHd. Qed.

Lemma string_of_uint_digits : forall d,
  all_ascii is_digit (NilZero.string_of_uint d) = true /\
  is_empty (NilZero.string_of_uint d) = false.
Proof.
  intro d. destruct d; try (split; [exact (uint_digits _) | reflexivity]).
  split; reflexivity.
Qed.

Lemma digit_not_space : forall c, is_digit c = true -> not_space c = true.
Proof.
  intros c H. unfold is_digit in H. unfold not_space, is_space.
  cbv zeta in *. apply andb_prop in H as [H1 H2].
  apply Nat.leb_le in H1. apply Nat.leb_le in H2.
  apply negb_true_iff.
  repeat match goal with
         | |- (_ || _)%bool = false => apply orb_false_intro
         | |- (_ && _)%bool = false => apply andb_false_iff
         end.
  - apply Nat.eqb_neq. lia.
  - right. apply Nat.leb_gt. lia.
  - right. apply Nat.leb_gt. lia.
Qed.

Lemma string_of_uint_token : forall d,
  is_token (NilZero.string_of_uint d) = true.
Proof.
  intro d. destruct (string_of_uint_digits d) as [H1 H2].
  unfold is_token. rewrite H2. cbn [negb andb].
  exact (all_ascii_weaken _ _ _ digit_not_space H1).
Qed.

Lemma is_token_app : forall a b,
  is_token a = true -> all_ascii not_space b = true -> is_token (a ++ b) = true.
Proof.
  intros a b Ha Hb. apply is_token_inv in Ha as [Ha1 Ha2].
  unfold is_token. rewrite (is_empty_app_l _ _ Ha1). cbn [negb andb].
  change (all_ascii not_space (a ++ b) = true).
  rewrite all_ascii_app, Ha2, Hb. reflexivity.
Qed.

Lemma is_token_prefix : forall a b,
  all_ascii not_space a = true -> is_token b = true -> is_token (a ++ b) = true.
Proof.
  intros a b Ha Hb. apply is_token_inv in Hb as [Hb1 Hb2].
  unfold is_token. rewrite (is_empty_app_r _ _ Hb1). cbn [negb andb].
  change (all_ascii not_space (a ++ b) = true).
  rewrite all_ascii_app, Ha, Hb2. reflexivity.
Qed.

Lemma zeros_not_space : forall n, all_ascii not_space (zeros n) = true.
Proof. induction n; [reflexivity | exact IHn]. Qed.

Lemma str_of_nat_token : forall n, is_token (str_of_nat n) = true.
Proof. intro n. apply string_of_uint_token. Qed.

Lemma str_of_Z_token : forall z, is_token (str_of_Z z) = true.
Proof.
  intro z. unfold str_of_Z, NilZero.string_of_int.
  destruct (Z.to_int z).
  - apply string_of_uint_token.
  - apply (is_token_prefix "-"); [reflexivity | apply string_of_uint_token].
Qed.

Lemma pad_digits_not_space : forall w n,
  all_ascii not_space (pad_digits w n) = true.
Proof.
  intros w n. unfold pad_digits. rewrite all_ascii_app, zeros_not_space.
  destruct (string_of_uint_digits (N.to_uint (Z.to_N n))) as [H _].
  exact (all_ascii_weaken _ _ _ digit_not_space H).
Qed.

Lemma format_f_token : forall digits x, is_token (format_f digits x) = true.
Proof.
  intros digits x. unfold format_f.
  destruct (Prim2SF x) as [s | s | | s m e].
  - apply is_token_prefix; [destruct s; reflexivity|].
    apply (is_token_app "0"); [reflexivity|].
    destruct (Nat.eqb digits 0); [reflexivity|].
    rewrite all_ascii_app, zeros_not_space. reflexivity.
  - destruct s; reflexivity.
  - reflexivity.
  - cbv zeta. apply is_token_prefix; [destruct s; reflexivity|].
    apply is_token_app; [apply string_of_uint_token|].
    destruct (Nat.eqb digits 0); [reflexivity|].
    rewrite all_ascii_app, pad_digits_not_space. reflexivity.
Qed.

Lemma split_lines_concat : forall (A : Type) (body : A -> string) xs,
  (forall x, In x xs -> all_ascii not_newline (body x) = true) ->
  split_lines (String.concat "" (map (fun x => body x ++ newline) xs))
  = map (fun x => body x ++ newline) xs.
Proof.
  intros A body xs. induction xs as [| x xs IH]; intros H; [reflexivity|].
  cbn [map]. rewrite concat_empty_cons, string_app_assoc.
  rewrite split_lines_line by (apply H; left; reflexivity).
  f_equal. apply IH. intros y Hy. apply H. right. exact Hy.
Qed.

Lemma split_line_of_tokens : forall toks,
  Forall (fun t => is_token t = true) toks ->
  split (join_space toks ++ newline) = toks.
Proof. intros toks H. apply split_join_space; [exact H | reflexivity]. Qed.

Lemma match_coord_line_tokens : forall c,
  match_coord_line c = join_space (coord_tokens c) ++ newline /\
  Forall (fun t => is_token t = true) (coord_tokens c).
Proof.
  intros [[[x1 y1] x2] y2]. split.
  - unfold match_coord_line, coord_tokens. cbn [join_space].
    rewrite !string_app_assoc. reflexivity.
  - unfold coord_tokens. repeat constructor; apply format_f_token.
Qed.

Lemma global_pose_line_tokens : forall nm R t,
  global_pose_line nm R t = join_space (pose_tokens nm R t) ++ newline /\
  (is_token nm = true ->
   Forall (fun t => is_token t = true) (pose_tokens nm R t)).
Proof.
  intros nm R [[t0 t1] t2]. split.
  - unfold global_pose_line, pose_tokens. cbv zeta. cbn [join_space].
    rewrite !string_app_assoc. reflexivity.
  - intro Hn. unfold pose_tokens. cbv zeta.
    repeat constructor; try apply format_f_token. exact Hn.
Qed.

Lemma match_file_split_lines : forall m,
  split_lines (match_file_content m)
  = (str_of_Z (md_camera_id1 m) ++ " " ++ str_of_Z (md_camera_id2 m)
       ++ newline)
    :: map match_coord_line (md_matches m) /\
  split (str_of_Z (md_camera_id1 m) ++ " " ++ str_of_Z (md_camera_id2 m)
           ++ newline)
  = [str_of_Z (md_camera_id1 m); str_of_Z (md_camera_id2 m)] /\
  map split (map match_coord_line (md_matches m))
  = map coord_tokens (md_matches m) /\
  List.length (split_lines (match_file_content m))
  = S (List.length (md_matches m)).
Proof.
  intro m.
  assert (Hids : Forall (fun t => is_token t = true)
                   [str_of_Z (md_camera_id1 m); str_of_Z (md_camera_id2 m)])
    by (repeat constructor; apply str_of_Z_token).
  assert (Hlines : map match_coord_line (md_matches m)
                   = map (fun c => join_space (coord_tokens c) ++ newline)
                       (md_matches m)).
  { apply map_ext. intro c. apply match_coord_line_tokens. }
  assert (H1 : split_lines (match_file_content m)
               = (str_of_Z (md_camera_id1 m) ++ " " ++
                  str_of_Z (md_camera_id2 m) ++ newline)
                 :: map match_coord_line (md_matches m)).
  { unfold match_file_content.
    change (str_of_Z (md_camera_id1 m) ++ " " ++ str_of_Z (md_camera_id2 m)
              ++ newline ++
              String.concat "" (map match_coord_line (md_matches m)))
      with (str_of_Z (md_camera_id1 m) ++
            (" " ++ str_of_Z (md_camera_id2 m) ++ newline ++
             String.concat "" (map match_coord_line (md_matches m)))).
    replace (str_of_Z (md_camera_id1 m) ++
             (" " ++ str_of_Z (md_camera_id2 m) ++ newline ++
              String.concat "" (map match_coord_line (md_matches m))))
      with (join_space [str_of_Z (md_camera_id1 m); str_of_Z (md_camera_id2 m)]
              ++ newline ++
              String.concat "" (map match_coord_line (md_matches m)))
      by (cbn [join_space]; rewrite !string_app_assoc; reflexivity).
    rewrite split_lines_line by (apply tokens_no_newline; exact Hids).
    f_equal.
    - cbn [join_space]. rewrite !string_app_assoc. reflexivity.
    - rewrite Hlines. apply split_lines_concat.
      intros c _. apply tokens_no_newline. apply match_coord_line_tokens. }
  split; [exact H1|]. split; [|split].
  - replace (str_of_Z (md_camera_id1 m) ++ " " ++ str_of_Z (md_camera_id2 m)
               ++ newline)
      with (join_space [str_of_Z (md_camera_id1 m); str_of_Z (md_camera_id2 m)]
              ++ newline)
      by (cbn [join_space]; rewrite !string_app_assoc; reflexivity).
    apply split_line_of_tokens. exact Hids.
  - rewrite map_map. apply map_ext. intro c.
    destruct (match_coord_line_tokens c) as [-> Ht].
    apply split_line_of_tokens. exact Ht.
  - rewrite H1. cbn [List.length]. rewrite length_map. reflexivity.
Qed.

(** X3. A match file can be read back line by line: its lines are the line
    of the two camera identifiers followed by one line per coordinate
    record, in order; the first line splits on whitespace into exactly the
    two identifiers and every coordinate line into exactly four fields. *)
Theorem match_file_lines : forall m,
  split_lines (match_file_content m)
  = (str_of_Z (md_camera_id1 m) ++ " " ++ str_of_Z (md_camera_id2 m)
       ++ newline)
    :: map match_coord_line (md_matches m) /\
  split (str_of_Z (md_camera_id1 m) ++ " " ++ str_of_Z (md_camera_id2 m)
           ++ newline)
  = [str_of_Z (md_camera_id1 m); str_of_Z (md_camera_id2 m)] /\
  map split (map match_coord_line (md_matches m))
  = map coord_tokens (md_matches m) /\
  List.length (split_lines (match_file_content m))
  = S (List.length (md_matches m)).
Proof. exact match_file_split_lines. Qed.

Lemma pose_lines : forall (A : Type) (nm : A -> string) (R : A -> mat3)
    (t : A -> vec3) (xs : list A),
  Forall (fun x => is_token (nm x) = true) xs ->
  split_lines
    (str_of_nat (List.length xs) ++ newline ++
     String.concat "" (map (fun x => global_pose_line (nm x) (R x) (t x)) xs))
  = (str_of_nat (List.length xs) ++ newline)
    :: map (fun x => global_pose_line (nm x) (R x) (t x)) xs /\
  map split (map (fun x => global_pose_line (nm x) (R x) (t x)) xs)
  = map (fun x => pose_tokens (nm x) (R x) (t x)) xs.
Proof.
  intros A nm R t xs Hn.
  assert (Hlines : map (fun x => global_pose_line (nm x) (R x) (t x)) xs
                   = map (fun x => join_space (pose_tokens (nm x) (R x) (t x))
                                     ++ newline) xs).
  { apply map_ext. intro x. apply global_pose_line_tokens. }
  split.
  - rewrite split_lines_line.
    2:{ destruct (is_token_inv _ (str_of_nat_token (List.length xs))) as [_ H].
        exact (all_ascii_weaken _ _ _ not_space_not_newline H). }
    f_equal. rewrite Hlines. apply split_lines_concat.
    intros x Hx. apply tokens_no_newline.
    apply global_pose_line_tokens.
    rewrite Forall_forall in Hn. exact (Hn x Hx).
  - rewrite map_map. apply map_ext_in. intros x Hx.
    destruct (global_pose_line_tokens (nm x) (R x) (t x)) as [-> Ht].
    apply split_line_of_tokens. apply Ht.
    rewrite Forall_forall in Hn. exact (Hn x Hx).
Qed.

(** X4. When every image name is one whitespace-free word, a global pose
    file, written from the store or from a model, can be read back line by
    line: its first line is the number of poses and it has one more line
    than poses; every pose line splits on whitespace into exactly thirteen
    fields, the name first. *)
Theorem global_pose_file_lines :
  (forall poses_data,
     Forall (fun p => is_token (gp_image_name p) = true) poses_data ->
     split_lines (export_global_poses_txt poses_data)
     = (str_of_nat (List.length poses_data) ++ newline)
       :: map (fun p => global_pose_line (gp_image_name p)
                          (gp_rotation_matrix p) (gp_translation p))
            poses_data /\
     map split
       (map (fun p => global_pose_line (gp_image_name p)
                        (gp_rotation_matrix p) (gp_translation p))
          poses_data)
     = map (fun p => pose_tokens (gp_image_name p) (gp_rotation_matrix p)
                       (gp_translation p)) poses_data) /\
  (forall images,
     Forall (fun kv => is_token (Model.name (snd kv)) = true) images ->
     split_lines (Model.export_global_poses_txt images)
     = (str_of_nat (List.length images) ++ newline)
       :: map (fun kv => global_pose_line (Model.name (snd kv))
                           (qvec2rotmat (Model.qvec (snd kv)))
                           (Model.tvec (snd kv))) images /\
     map split
       (map (fun kv => global_pose_line (Model.name (snd kv))
                         (qvec2rotmat (Model.qvec (snd kv)))
                         (Model.tvec (snd kv))) images)
     = map (fun kv => pose_tokens (Model.name (snd kv))
                        (qvec2rotmat (Model.qvec (snd kv)))
                        (Model.tvec (snd kv))) images).
Proof.
  split.
  - intros poses_data H.
    exact (pose_lines _ gp_image_name gp_rotation_matrix gp_translation
             poses_data H).
  - intros images H.
    exact (pose_lines _ (fun kv => Model.name (snd kv))
             (fun kv => qvec2rotmat (Model.qvec (snd kv)))
             (fun kv => Model.tvec (snd kv)) images H).
Qed.

Local Close Scope string_scope.

(** ** The output folder of the match exporter *)

Lemma fs_read_write_same : forall fs path content,
  fs_read (fs_write fs path content) path = Some content.
Proof.
  induction fs as [| [p c] fs IH]; intros path content.
  - cbn. rewrite String.eqb_refl. reflexivity.
  - cbn [fs_write]. destruct (String.eqb p path) eqn:E.
    + cbn [fs_read]. rewrite E. reflexivity.
    + cbn [fs_read]. rewrite E. apply IH.
Qed.

Lemma fs_read_write_other : forall fs path content path',
  path <> path' ->
  fs_read (fs_write fs path content) path' = fs_read fs path'.
Proof.
  induction fs as [| [p c] fs IH]; intros path content path' Hne.
  - cbn. destruct (String.eqb path path') eqn:E; [|reflexivity].
    apply String.eqb_eq in E. contradiction.
  - cbn [fs_write]. destruct (String.eqb p path) eqn:E.
    + apply String.eqb_eq in E. subst p. cbn [fs_read].
      destruct (String.eqb path path') eqn:E'; [|reflexivity].
      apply String.eqb_eq in E'. contradiction.
    + cbn [fs_read]. destruct (String.eqb p path'); [reflexivity|].
      apply IH. exact Hne.
Qed.

Lemma fs_write_names : forall fs path content p,
  In p (map fst (fs_write fs path content)) <->
  p = path \/ In p (map fst fs).
Proof.
  induction fs as [| [q c] fs IH]; intros path content p.
  - cbn. intuition congruence.
  - cbn [fs_write]. destruct (String.eqb q path) eqn:E.
    + apply String.eqb_eq in E. subst q. cbn. intuition congruence.
    + cbn [map fst In]. rewrite IH. intuition.
Qed.

Lemma fs_write_NoDup : forall fs path content,
  NoDup (map fst fs) -> NoDup (map fst (fs_write fs path content)).
Proof.
  induction fs as [| [q c] fs IH]; intros path content H.
  - cbn. constructor; [intros [] | constructor].
  - cbn [fs_write]. destruct (String.eqb q path) eqn:E.
    + exact H.
    + cbn [map fst] in *. inversion H as [| x l Hnin Hnd]; subst.
      constructor; [| apply IH; exact Hnd].
      rewrite fs_write_names. intros [-> | Hin]; [| contradiction].
      rewrite String.eqb_refl in E. discriminate.
Qed.

Lemma fs_write_length : forall fs path content,
  (List.length (fs_write fs path content) <= S (List.length fs))%nat.
Proof.
  induction fs as [| [q c] fs IH]; intros path content; [cbn; lia|].
  cbn [fs_write]. destruct (String.eqb q path); cbn [List.length]; [lia|].
  specialize (IH path content). lia.
Qed.

Lemma find_app_last : forall (A : Type) (f : A -> bool) l x,
  find f (l ++ [x])
  = match find f l with Some y => Some y | None => if f x then Some x else None end.
Proof.
  intros A f l x. induction l as [| y l IH]; cbn.
  - reflexivity.
  - destruct (f y); [reflexivity | exact IH].
Qed.

Section WriteLoop.
Variable A : Type.
Variable file_name file_content : A -> string.

Lemma write_loop_read : forall xs fs path,
  fs_read
    (fold_left (fun fs x => fs_write fs (file_name x) (file_content x)) xs fs)
    path
  = match find (fun x => String.eqb (file_name x) path) (rev xs) with
    | Some x => Some (file_content x)
    | None => fs_read fs path
    end.
Proof.
  induction xs as [| x xs IH]; intros fs path; [reflexivity|].
  cbn [fold_left rev]. rewrite IH, find_app_last.
  destruct (find (fun y => String.eqb (file_name y) path) (rev xs));
    [reflexivity|].
  destruct (String.eqb (file_name x) path) eqn:E.
  - apply String.eqb_eq in E. subst path. apply fs_read_write_same.
  - apply fs_read_write_other. intro H. subst path.
    rewrite String.eqb_refl in E. discriminate.
Qed.

Lemma write_loop_NoDup : forall xs fs,
  NoDup (map fst fs) ->
  NoDup (map fst
    (fold_left (fun fs x => fs_write fs (file_name x) (file_content x)) xs fs)).
Proof.
  induction xs as [| x xs IH]; intros fs H; [exact H|].
  cbn [fold_left]. apply IH. apply fs_write_NoDup. exact H.
Qed.

Lemma write_loop_length : forall xs fs,
  (List.length
     (fold_left (fun fs x => fs_write fs (file_name x) (file_content x)) xs fs)
   <= List.length xs + List.length fs)%nat.
Proof.
  induction xs as [| x xs IH]; intros fs; [cbn; lia|].
  cbn [fold_left List.length].
  specialize (IH (fs_write fs (file_name x) (file_content x))).
  pose proof (fs_write_length fs (file_name x) (file_content x)). lia.
Qed.

Lemma write_loop_names : forall xs fs p,
  In p (map fst
    (fold_left (fun fs x => fs_write fs (file_name x) (file_content x)) xs fs))
  <-> In p (map file_name xs) \/ In p (map fst fs).
Proof.
  induction xs as [| x xs IH]; intros fs p; [cbn; intuition|].
  cbn [fold_left map In]. rewrite IH, fs_write_names. intuition.
Qed.
End WriteLoop.

Lemma fs_read_In : forall fs path content,
  NoDup (map fst fs) ->
  (In (path, content) fs <-> fs_read fs path = Some content).
Proof.
  induction fs as [| [p c] fs IH]; intros path content Hnd.
  - cbn. split; [intros [] | discriminate].
  - cbn [map fst] in Hnd. inversion Hnd as [| x l Hnin Hnd']; subst.
    cbn [fs_read In]. destruct (String.eqb p path) eqn:E.
    + apply String.eqb_eq in E. subst p. split.
      * intros [H | H]; [congruence|].
        exfalso. apply Hnin. apply (in_map fst) in H. exact H.
      * intro H. left. congruence.
    + rewrite <- (IH path content Hnd'). split.
      * intros [H | H]; [| exact H].
        injection H as -> _. rewrite String.eqb_refl in E. discriminate.
      * intro H. right. exact H.
Qed.

(** X5. The output folder of the match exporter, for image names that hold
    no path separator and no zero byte (with one, [open] fails): no two
    files share a name, there are at most as many files as records, every
    record's file name is present, and a file holds the content of the last
    record with that file name (records whose names differ only in the
    extension share a file name, and the earlier one is overwritten). *)
Theorem export_matches_last_record_wins : forall matches_data,
  forallb plain_names matches_data = true ->
  NoDup (map fst (export_matches_to_files matches_data)) /\
  (List.length (export_matches_to_files matches_data)
   <= List.length matches_data)%nat /\
  (forall path,
     In path (map fst (export_matches_to_files matches_data))
     <-> In path (map match_filename matches_data)) /\
  (forall path,
     fs_read (export_matches_to_files matches_data) path
     = option_map match_file_content
         (find (fun m => String.eqb (match_filename m) path)
            (rev matches_data))).
Proof.
  intros ms _. unfold export_matches_to_files. repeat apply conj.
  - apply write_loop_NoDup. constructor.
  - pose proof (write_loop_length match_data match_filename
                  match_file_content ms []) as H.
    cbn [List.length] in H. lia.
  - intro path. rewrite write_loop_names. cbn. intuition.
  - intro path. rewrite write_loop_read.
    destruct (find _ (rev ms)); reflexivity.
Qed.

Lemma export_matches_last_record_wins_witness :
  NoDup (map fst (export_matches_to_files same_stem_records)) /\
  (List.length (export_matches_to_files same_stem_records)
   <= List.length same_stem_records)%nat /\
  (forall path,
     In path (map fst (export_matches_to_files same_stem_records))
     <-> In path (map match_filename same_stem_records)) /\
  (forall path,
     fs_read (export_matches_to_files same_stem_records) path
     = option_map match_file_content
         (find (fun m => String.eqb (match_filename m) path)
            (rev same_stem_records))).
Proof.
  apply (export_matches_last_record_wins same_stem_records). reflexivity.
Defined.

(** Two pairs whose first images differ only in the extension: one file,
    holding the second pair. *)
Example export_matches_same_stem :
  export_matches_to_files same_stem_records
  = [("matches_a_c.txt"%string,
      match_file_content (mk_match_data 2 3 1 1 "a.png" "c.jpg"
                            [(5, 6, 7, 8)%float]))].
Proof. vm_compute. reflexivity. Qed.

(** ** Dicts *)

Lemma dict_get_set_same : forall (V : Type) (d : list (Z * V)) k v,
  dict_get (dict_set d k v) k = Some v.
Proof.
  intros V. induction d as [| [k' v'] d IH]; intros k v.
  - cbn. rewrite Z.eqb_refl. reflexivity.
  - cbn [dict_set]. destruct (k =? k') eqn:E.
    + cbn [dict_get]. rewrite E. reflexivity.
    + cbn [dict_get]. rewrite E. apply IH.
Qed.

Lemma dict_get_set_other : forall (V : Type) (d : list (Z * V)) k v k',
  k <> k' -> dict_get (dict_set d k v) k' = dict_get d k'.
Proof.
  intros V. induction d as [| [k0 v0] d IH]; intros k v k' Hne.
  - cbn. destruct (Z.eqb_spec k' k); [congruence | reflexivity].
  - cbn [dict_set]. destruct (Z.eqb_spec k k0) as [-> | Hk].
    + cbn [dict_get]. destruct (Z.eqb_spec k' k0); [congruence | reflexivity].
    + cbn [dict_get]. destruct (k' =? k0); [reflexivity | apply IH; exact Hne].
Qed.

Lemma dict_set_keys : forall (V : Type) (d : list (Z * V)) k v p,
  In p (map fst (dict_set d k v)) <-> p = k \/ In p (map fst d).
Proof.
  intros V. induction d as [| [k0 v0] d IH]; intros k v p.
  - cbn. intuition congruence.
  - cbn [dict_set]. destruct (Z.eqb_spec k k0) as [-> | Hk].
    + cbn. intuition congruence.
    + cbn [map fst In]. rewrite IH. intuition.
Qed.

Lemma dict_set_NoDup : forall (V : Type) (d : list (Z * V)) k v,
  NoDup (map fst d) -> NoDup (map fst (dict_set d k v)).
Proof.
  intros V. induction d as [| [k0 v0] d IH]; intros k v H.
  - cbn. constructor; [intros [] | constructor].
  - cbn [dict_set]. destruct (Z.eqb_spec k k0) as [-> | Hk]; [exact H|].
    cbn [map fst] in *. inversion H as [| x l Hnin Hnd]; subst.
    constructor; [| apply IH; exact Hnd].
    rewrite dict_set_keys. intros [-> | Hin]; [congruence | contradiction].
Qed.

Lemma dict_set_length : forall (V : Type) (d : list (Z * V)) k v,
  (List.length (dict_set d k v) <= S (List.length d))%nat.
Proof.
  intros V. induction d as [| [k0 v0] d IH]; intros k v; [cbn; lia|].
  cbn [dict_set]. destruct (k =? k0); cbn [List.length]; [lia|].
  specialize (IH k v). lia.
Qed.

Lemma dict_set_values : forall (V : Type) (P : Z -> V -> Prop)
    (d : list (Z * V)) k v,
  P k v -> Forall (fun kv => P (fst kv) (snd kv)) d ->
  Forall (fun kv => P (fst kv) (snd kv)) (dict_set d k v).
Proof.
  intros V P. induction d as [| [k0 v0] d IH]; intros k v Hv H.
  - cbn. constructor; [exact Hv | constructor].
  - inversion H as [| x l Hx Hl]; subst. cbn [dict_set].
    destruct (Z.eqb_spec k k0) as [-> | Hk].
    + constructor; [exact Hv | exact Hl].
    + constructor; [exact Hx | apply IH; assumption].
Qed.

Lemma dict_get_In : forall (V : Type) (d : list (Z * V)) k v,
  dict_get d k = Some v -> In (k, v) d.
Proof.
  intros V. induction d as [| [k0 v0] d IH]; intros k v H; [discriminate|].
  cbn [dict_get] in H. destruct (Z.eqb_spec k k0) as [-> | Hk].
  - injection H as ->. left. reflexivity.
  - right. apply IH. exact H.
Qed.

Section DictLoop.
Variables A V : Type.
Variable key : A -> Z.
Variable val : A -> V.

Lemma dict_loop_get : forall xs d k,
  dict_get (fold_left (fun d x => dict_set d (key x) (val x)) xs d) k
  = match find (fun x => key x =? k) (rev xs) with
    | Some x => Some (val x)
    | None => dict_get d k
    end.
Proof.
  induction xs as [| x xs IH]; intros d k; [reflexivity|].
  cbn [fold_left rev]. rewrite IH, find_app_last.
  destruct (find (fun y => key y =? k) (rev xs)); [reflexivity|].
  destruct (Z.eqb_spec (key x) k) as [<- | Hne].
  - apply dict_get_set_same.
  - apply dict_get_set_other. exact Hne.
Qed.
End DictLoop.

(** ** Where the records of the match reader come from *)

Lemma read_image_infos_get : forall rows k info,
  dict_get (read_image_infos rows) k = Some info ->
  exists r, In r rows /\ image_id r = k /\
            ii_name info = name r /\ ii_camera_id info = camera_id r.
Proof.
  intros rows k info H. unfold read_image_infos in H.
  rewrite (dict_loop_get image_row image_info image_id
             (fun r => mk_image_info (name r) (camera_id r))) in H.
  destruct (find (fun x => image_id x =? k) (rev rows)) as [r |] eqn:F;
    [| discriminate].
  apply find_some in F as [Hin Hk]. injection H as <-.
  exists r. rewrite <- in_rev in Hin. apply Z.eqb_eq in Hk.
  repeat split; assumption.
Qed.

Lemma read_keypoints_get : forall rows acc kps k arr,
  read_keypoints rows acc = Ok kps ->
  dict_get kps k = Some arr ->
  (exists r data, In r rows /\ br_key r = k /\ br_data r = Some data /\
     blob_to_array (Some data) float32 (Shape2 (br_cols r)) = Ok (Some arr))
  \/ dict_get acc k = Some arr.
Proof.
  induction rows as [| r rows IH]; intros acc kps k arr H Hg.
  - injection H as <-. right. exact Hg.
  - cbn [read_keypoints] in H.
    destruct (br_data r) as [data |] eqn:Hd.
    + destruct (blob_to_array (Some data) float32 (Shape2 (br_cols r)))
        as [[kpts |] | e] eqn:Hb; cbn [bind] in H; [| | discriminate].
      * destruct (IH _ _ _ _ H Hg) as [(r' & d' & Hin & Hk & Hd' & Hb') | Hacc].
        -- left. exists r', d'. repeat split; try assumption. right. exact Hin.
        -- destruct (Z.eq_dec (br_key r) k) as [E | E].
           ++ subst k. rewrite dict_get_set_same in Hacc. injection Hacc as <-.
              left. exists r, data. repeat split; try assumption.
              left. reflexivity.
           ++ rewrite dict_get_set_other in Hacc by exact E. right. exact Hacc.
      * destruct (IH _ _ _ _ H Hg) as [(r' & d' & Hin & Hk & Hd' & Hb') | Hacc].
        -- left. exists r', d'. repeat split; try assumption. right. exact Hin.
        -- right. exact Hacc.
    + destruct (IH _ _ _ _ H Hg) as [(r' & d' & Hin & Hk & Hd' & Hb') | Hacc].
      * left. exists r', d'. repeat split; try assumption. right. exact Hin.
      * right. exact Hacc.
Qed.

Lemma match_data_of_row_inv : forall imgs kps row recs m,
  match_data_of_row imgs kps row = Ok recs ->
  In m recs ->
  exists data info1 info2 kpts1 kpts2 ms,
    br_data row = Some data /\ br_rows row > 0 /\
    pair_id_to_image_ids (br_key row) = (md_image_id1 m, md_image_id2 m) /\
    dict_get imgs (md_image_id1 m) = Some info1 /\
    dict_get imgs (md_image_id2 m) = Some info2 /\
    md_image_name1 m = ii_name info1 /\ md_image_name2 m = ii_name info2 /\
    md_camera_id1 m = ii_camera_id info1 /\
    md_camera_id2 m = ii_camera_id info2 /\
    dict_get kps (md_image_id1 m) = Some kpts1 /\
    dict_get kps (md_image_id2 m) = Some kpts2 /\
    blob_to_array (Some data) uint32 (Shape2 2) = Ok (Some ms) /\
    match_coords kpts1 kpts2 (nd_rows ms) = Ok (md_matches m).
Proof.
  intros imgs kps row recs m H Hin. unfold match_data_of_row in H.
  destruct (br_data row) as [data |];
    [| injection H as <-; destruct Hin].
  destruct (br_rows row >? 0) eqn:Hrows; cbn [negb] in H;
    [| injection H as <-; destruct Hin].
  destruct (pair_id_to_image_ids (br_key row)) as [image_id1 image_id2].
  destruct (dict_get imgs image_id1) as [info1 |] eqn:Hi1;
    [| injection H as <-; destruct Hin].
  destruct (dict_get imgs image_id2) as [info2 |] eqn:Hi2;
    [| injection H as <-; destruct Hin].
  destruct (dict_get kps image_id1) as [kpts1 |] eqn:Hk1;
    [| injection H as <-; destruct Hin].
  destruct (dict_get kps image_id2) as [kpts2 |] eqn:Hk2;
    [| injection H as <-; destruct Hin].
  destruct (blob_to_array (Some data) uint32 (Shape2 2)) as [[ms |] | e] eqn:Hb;
    cbn [bind] in H; try discriminate;
    [| injection H as <-; destruct Hin].
  destruct (nd_len ms =? 0); [injection H as <-; destruct Hin |].
  destruct (match_coords kpts1 kpts2 (nd_rows ms)) as [cs |] eqn:Hc;
    cbn [bind] in H; [| discriminate].
  destruct cs as [| c cs]; cbn in H; injection H as <-.
  - destruct Hin.
  - destruct Hin as [<- | []]. cbn.
    exists data, info1, info2, kpts1, kpts2, ms.
    repeat split; try assumption; try reflexivity. lia.
Qed.

Lemma read_match_rows_In : forall imgs kps rows ms m,
  read_match_rows imgs kps rows = Ok ms -> In m ms ->
  exists row recs, In row rows /\
    match_data_of_row imgs kps row = Ok recs /\ In m recs.
Proof.
  intros imgs kps. induction rows as [| r rows IH]; intros ms m H Hin.
  - injection H as <-. destruct Hin.
  - cbn [read_match_rows] in H.
    destruct (match_data_of_row imgs kps r) as [here |] eqn:Hr;
      cbn [bind] in H; [| discriminate].
    destruct (read_match_rows imgs kps rows) as [rest |] eqn:Hrest;
      cbn [bind] in H; [| discriminate].
    injection H as <-. apply in_app_or in Hin as [Hin | Hin].
    + exists r, here. repeat split; try assumption. left. reflexivity.
    + destruct (IH rest m eq_refl Hin) as (row & recs & Hrow & Hrec & Hm).
      exists row, recs. repeat split; try assumption. right. exact Hrow.
Qed.

(** X6. Every record the match reader returns comes from a row of
    [matches] with a positive row count and a blob, whose key decodes to the
    record's two image identifiers; both identifiers are rows of [images],
    from which the record takes its names and camera identifiers; both
    images have a keypoint blob; and the record holds at least one
    coordinate.  A row that names an unknown image, or an image without
    keypoints, gives no record. *)
Theorem read_database_matches_provenance : forall db matches_data m,
  read_database_matches db = Ok matches_data ->
  In m matches_data ->
  (exists row data,
     In row (matches db) /\ br_rows row > 0 /\ br_data row = Some data /\
     pair_id_to_image_ids (br_key row) = (md_image_id1 m, md_image_id2 m)) /\
  (exists r1, In r1 (images db) /\ image_id r1 = md_image_id1 m /\
     name r1 = md_image_name1 m /\ camera_id r1 = md_camera_id1 m) /\
  (exists r2, In r2 (images db) /\ image_id r2 = md_image_id2 m /\
     name r2 = md_image_name2 m /\ camera_id r2 = md_camera_id2 m) /\
  (exists k1 data1, In k1 (keypoints db) /\ br_key k1 = md_image_id1 m /\
     br_data k1 = Some data1) /\
  (exists k2 data2, In k2 (keypoints db) /\ br_key k2 = md_image_id2 m /\
     br_data k2 = Some data2) /\
  md_matches m <> [].
Proof.
  intros db ms m H Hin. unfold read_database_matches in H.
  destruct (read_keypoints (keypoints db) []) as [kps |] eqn:Hkps;
    cbn [bind] in H; [| discriminate].
  destruct (read_match_rows_In _ _ _ _ _ H Hin) as (row & recs & Hrow & Hrec & Hm).
  apply filter_In in Hrow as [Hrow _].
  pose proof (match_data_of_row_nonempty _ _ _ _ _ Hrec Hm) as Hne.
  destruct (match_data_of_row_inv _ _ _ _ _ Hrec Hm)
    as (data & info1 & info2 & kpts1 & kpts2 & arr & Hd & Hr & Hp & Hi1 & Hi2
        & Hn1 & Hn2 & Hc1 & Hc2 & Hk1 & Hk2 & _ & _).
  repeat apply conj.
  - exists row, data. repeat split; assumption.
  - destruct (read_image_infos_get _ _ _ Hi1) as (r & Hr1 & Hid & Hnm & Hcam).
    exists r. repeat split; congruence.
  - destruct (read_image_infos_get _ _ _ Hi2) as (r & Hr1 & Hid & Hnm & Hcam).
    exists r. repeat split; congruence.
  - destruct (read_keypoints_get _ _ _ _ _ Hkps Hk1)
      as [(r & d & Hin1 & Hk & Hd1 & _) | Hacc]; [| discriminate].
    exists r, d. repeat split; assumption.
  - destruct (read_keypoints_get _ _ _ _ _ Hkps Hk2)
      as [(r & d & Hin1 & Hk & Hd1 & _) | Hacc]; [| discriminate].
    exists r, d. repeat split; assumption.
  - exact Hne.
Qed.

Lemma read_database_matches_provenance_witness :
  (exists row data,
     In row (matches scenario_db) /\ br_rows row > 0 /\
     br_data row = Some data /\
     pair_id_to_image_ids (br_key row)
     = (md_image_id1 scenario_match_record,
        md_image_id2 scenario_match_record)) /\
  (exists r1, In r1 (images scenario_db) /\
     image_id r1 = md_image_id1 scenario_match_record /\
     name r1 = md_image_name1 scenario_match_record /\
     camera_id r1 = md_camera_id1 scenario_match_record) /\
  (exists r2, In r2 (images scenario_db) /\
     image_id r2 = md_image_id2 scenario_match_record /\
     name r2 = md_image_name2 scenario_match_record /\
     camera_id r2 = md_camera_id2 scenario_match_record) /\
  (exists k1 data1, In k1 (keypoints scenario_db) /\
     br_key k1 = md_image_id1 scenario_match_record /\
     br_data k1 = Some data1) /\
  (exists k2 data2, In k2 (keypoints scenario_db) /\
     br_key k2 = md_image_id2 scenario_match_record /\
     br_data k2 = Some data2) /\
  md_matches scenario_match_record <> [].
Proof.
  apply (read_database_matches_provenance scenario_db
           [scenario_match_record] scenario_match_record).
  - vm_compute. reflexivity.
  - left. reflexivity.
Defined.

Lemma read_database_matches_nonempty : forall db matches_data m,
  read_database_matches db = Ok matches_data ->
  In m matches_data -> md_matches m <> [].
Proof.
  intros db ms m H Hin. unfold read_database_matches in H.
  destruct (read_keypoints (keypoints db) []) as [kps |];
    cbn [bind] in H; [| discriminate].
  destruct (read_match_rows_In _ _ _ _ _ H Hin) as (row & recs & _ & Hrec & Hm).
  exact (match_data_of_row_nonempty _ _ _ _ _ Hrec Hm).
Qed.

Lemma export_matches_In : forall matches_data path content,
  In (path, content) (export_matches_to_files matches_data) ->
  exists m, In m matches_data /\ path = match_filename m /\
            content = match_file_content m.
Proof.
  intros ms path content Hin.
  assert (Hnd : NoDup (map fst (export_matches_to_files ms))).
  { unfold export_matches_to_files. apply write_loop_NoDup. constructor. }
  apply (fs_read_In _ _ _ Hnd) in Hin.
  unfold export_matches_to_files in Hin. rewrite write_loop_read in Hin.
  destruct (find (fun x => String.eqb (match_filename x) path) (rev ms))
    as [m |] eqn:F; [| discriminate].
  apply find_some in F as [Hm Hp]. rewrite <- in_rev in Hm.
  apply String.eqb_eq in Hp. injection Hin as <-.
  exists m. repeat split; [exact Hm | symmetry; exact Hp].
Qed.

(** X7. On a store whose image names hold no path separator and no zero
    byte, every file [main] of the match exporter writes is the file of a
    record of the reader that has at least [min_matches] coordinates and at
    least one; the file has one line more than the record has coordinates.
    So with a minimum of zero or below, a pair without any in-range index
    pair still gets no file. *)
Theorem matches_main_files : forall db min_matches path content,
  forallb (fun r => plain_name (name r)) (images db) = true ->
  In (path, content) (matches_main db min_matches) ->
  exists matches_data m,
    read_database_matches db = Ok matches_data /\ In m matches_data /\
    path = match_filename m /\ content = match_file_content m /\
    min_matches <= Z.of_nat (List.length (md_matches m)) /\
    1 <= Z.of_nat (List.length (md_matches m)) /\
    List.length (split_lines content) = S (List.length (md_matches m)).
Proof.
  intros db min_matches path content _ Hin. unfold matches_main in Hin.
  destruct (read_database_matches db) as [ms |] eqn:Hread; [| destruct Hin].
  assert (Hin' : In (path, content)
                   (export_matches_to_files
                      (filter (fun m => Z.of_nat (List.length (md_matches m))
                                          >=? min_matches) ms))).
  { destruct (filter _ ms); [destruct Hin | exact Hin]. }
  apply export_matches_In in Hin' as (m & Hm & -> & ->).
  apply filter_In in Hm as [Hm Hmin].
  exists ms, m. repeat split; try assumption; try reflexivity.
  - rewrite Z.geb_leb in Hmin. apply Z.leb_le in Hmin. exact Hmin.
  - pose proof (read_database_matches_nonempty _ _ _ Hread Hm) as Hne.
    destruct (md_matches m); [congruence | cbn [List.length]; lia].
  - apply match_file_split_lines.
Qed.

Lemma matches_main_files_witness :
  exists matches_data m,
    read_database_matches scenario_db = Ok matches_data /\
    In m matches_data /\
    "matches_img1_img2.txt"%string = match_filename m /\
    match_file_content scenario_match_record = match_file_content m /\
    0 <= Z.of_nat (List.length (md_matches m)) /\
    1 <= Z.of_nat (List.length (md_matches m)) /\
    List.length (split_lines (match_file_content scenario_match_record))
    = S (List.length (md_matches m)).
Proof.
  apply (matches_main_files scenario_db 0 "matches_img1_img2.txt"
           (match_file_content scenario_match_record)).
  - reflexivity.
  - vm_compute. left. reflexivity.
Defined.

(** ** Decoded arrays and the errors of the match reader *)

Lemma blob_to_array_raises : forall blob dt cols,
  ~ (cols * itemsize dt | Z.of_nat (List.length blob)) ->
  blob_to_array (Some blob) dt (Shape2 cols) = Raise ValueError.
Proof.
  intros blob dt cols Hnd. pose proof (itemsize_pos dt) as Hp.
  set (n := Z.of_nat (List.length blob)) in *. unfold blob_to_array.
  destruct (Z.eq_dec (n mod itemsize dt) 0) as [Hm | Hm].
  - apply Z.mod_divide in Hm; [| lia]. destruct Hm as [k Hk].
    rewrite (frombuffer_multiple blob dt k) by exact Hk.
    cbn [bind reshape nd_size nd_shape fold_right nd_dtype nd_buffer].
    destruct (Z.leb_spec cols 0); [reflexivity |].
    rewrite Z.mul_1_r.
    destruct (Z.eqb_spec (k mod cols) 0) as [Hk0 | Hk0]; [| reflexivity].
    exfalso. apply Hnd. apply Z.mod_divide in Hk0; [| lia].
    destruct Hk0 as [j Hj]. exists j. rewrite Hk, Hj. ring.
  - rewrite frombuffer_not_multiple by exact Hm. reflexivity.
Qed.

Lemma blob_to_array_error : forall blob dt shape e,
  blob_to_array blob dt shape = Raise e -> e = ValueError.
Proof.
  intros [b |] dt shape e H; [| discriminate]. unfold blob_to_array in H.
  unfold frombuffer in H.
  destruct (Z.of_nat (List.length b) mod itemsize dt =? 0);
    cbn [bind] in H; [| congruence].
  destruct shape as [| cols]; cbn [reshape bind] in H; [discriminate|].
  destruct (cols <=? 0); cbn [bind] in H; [congruence|].
  destruct (_ mod cols =? 0); cbn [bind] in H; congruence.
Qed.

Lemma blob_to_array_inv : forall blob dt cols a,
  blob_to_array (Some blob) dt (Shape2 cols) = Ok (Some a) ->
  exists rows,
    a = mk_ndarray dt [rows; cols] blob /\ 0 <= rows /\ 0 < cols /\
    Z.of_nat (List.length blob) = rows * cols * itemsize dt.
Proof.
  intros blob dt cols a H. pose proof (itemsize_pos dt) as Hp.
  unfold blob_to_array, frombuffer in H.
  destruct (Z.eqb_spec (Z.of_nat (List.length blob) mod itemsize dt) 0)
    as [Hm | Hm]; cbn [bind] in H; [| discriminate].
  cbn [reshape nd_size nd_shape fold_right nd_dtype nd_buffer] in H.
  destruct (Z.leb_spec cols 0) as [Hc | Hc]; cbn [bind] in H; [discriminate|].
  rewrite Z.mul_1_r in H.
  set (n := Z.of_nat (List.length blob)) in *.
  destruct (Z.eqb_spec ((n / itemsize dt) mod cols) 0) as [Hk | Hk];
    cbn [bind] in H; [| discriminate].
  injection H as <-.
  exists (n / itemsize dt / cols).
  pose proof (Z.div_mod n (itemsize dt) ltac:(lia)) as E1.
  pose proof (Z.div_mod (n / itemsize dt) cols ltac:(lia)) as E2.
  assert (0 <= n) by (unfold n; lia).
  assert (0 <= n / itemsize dt) by (apply Z.div_pos; lia).
  repeat split; lia.
Qed.

Lemma blob_to_array_array_2d : forall blob dt cols a,
  blob_to_array (Some blob) dt (Shape2 cols) = Ok (Some a) ->
  array_2d a /\ nd_dtype a = dt /\ nd_shape a = [nd_len a; cols].
Proof.
  intros blob dt cols a H.
  destruct (blob_to_array_inv _ _ _ _ H) as (rows & -> & Hr & Hc & Hn).
  repeat split. exists rows, cols. cbn. repeat split; assumption.
Qed.

Lemma array_2d_rows : forall a,
  array_2d a ->
  List.length (nd_rows a) = Z.to_nat (nd_len a) /\
  forall r, In r (nd_rows a) ->
    exists cols, nd_shape a = [nd_len a; cols] /\ 0 < cols /\
                 List.length r = Z.to_nat cols.
Proof.
  intros a (rows & cols & Hs & Hr & Hc & Hn).
  pose proof (itemsize_pos (nd_dtype a)) as Hp.
  assert (Hitems : List.length (nd_items a) = Z.to_nat (rows * cols)).
  { unfold nd_items. rewrite length_map, chunks_length.
    apply Nat2Z.inj. rewrite Nat2Z.inj_div, !Z2Nat.id by nia.
    rewrite Hn. apply Z.div_mul. lia. }
  unfold nd_rows, nd_len. rewrite Hs. cbn [hd]. split.
  - rewrite chunks_length, Hitems.
    apply Nat2Z.inj. rewrite Nat2Z.inj_div, !Z2Nat.id by nia.
    apply Z.div_mul. lia.
  - intros r Hin. exists cols. repeat split; try assumption.
    apply chunks_row_length in Hin; [exact Hin | lia].
Qed.

Lemma le_unsigned_nonneg : forall bs, 0 <= le_unsigned bs.
Proof.
  induction bs as [| b bs IH]; cbn [le_unsigned]; [lia|].
  unfold byte_to_Z. lia.
Qed.

Lemma In_firstn : forall (A : Type) n (l : list A) x,
  In x (firstn n l) -> In x l.
Proof.
  intros A n l x H. rewrite <- (firstn_skipn n l). apply in_or_app. left. exact H.
Qed.

Lemma In_skipn : forall (A : Type) n (l : list A) x,
  In x (skipn n l) -> In x l.
Proof.
  intros A n l x H. rewrite <- (firstn_skipn n l). apply in_or_app. right. exact H.
Qed.

Lemma chunks_In_items : forall (A : Type) (n : nat) (l : list A) r x,
  In r (chunks n l) -> In x r -> In x l.
Proof.
  intros A n l r x Hr Hx. unfold chunks in Hr.
  apply in_map_iff in Hr as (i & <- & _). unfold slice in Hx.
  apply In_firstn in Hx. apply In_skipn in Hx. exact Hx.
Qed.

Lemma nd_rows_nonneg : forall a r x,
  In r (nd_rows a) -> In x r -> 0 <= x.
Proof.
  intros a r x Hr Hx.
  assert (Hitem : In x (nd_items a)).
  { unfold nd_rows in Hr.
    destruct (nd_shape a) as [| s0 [| s1 [| s2 s]]];
      try (apply in_map_iff in Hr as (y & <- & Hy);
           destruct Hx as [<- | []]; exact Hy).
    exact (chunks_In_items _ _ _ _ _ Hr Hx). }
  unfold nd_items in Hitem. apply in_map_iff in Hitem as (bs & <- & _).
  apply le_unsigned_nonneg.
Qed.

(** Indexing a decoded array within its length: the outcome depends on the
    column count alone. *)
Lemma keypoint_xy_in_range : forall a idx,
  array_2d a -> 0 <= idx < nd_len a ->
  (exists xy, keypoint_xy a idx = Ok xy) \/
  keypoint_xy a idx = Raise ValueError.
Proof.
  intros a idx Ha Hidx. destruct (array_2d_rows a Ha) as [Hlen _].
  unfold keypoint_xy.
  destruct (nth_error (nd_rows a) (Z.to_nat idx)) as [row |] eqn:E.
  - destruct row as [| x [| y row]]; [right | right | left];
      try reflexivity. eexists. reflexivity.
  - apply nth_error_None in E. lia.
Qed.

Lemma keypoint_xy_two_columns : forall a idx cols,
  array_2d a -> nd_shape a = [nd_len a; cols] -> 2 <= cols ->
  0 <= idx < nd_len a ->
  exists xy, keypoint_xy a idx = Ok xy.
Proof.
  intros a idx cols Ha Hs Hc Hidx. destruct (array_2d_rows a Ha) as [Hlen Hrow].
  unfold keypoint_xy.
  destruct (nth_error (nd_rows a) (Z.to_nat idx)) as [row |] eqn:E.
  - apply nth_error_In in E. destruct (Hrow row E) as (c & Hs' & _ & Hl).
    rewrite Hs in Hs'. injection Hs' as <-.
    destruct row as [| x [| y row]]; cbn [List.length] in Hl; try lia.
    eexists. reflexivity.
  - apply nth_error_None in E. lia.
Qed.

Lemma match_coords_error : forall kpts1 kpts2 ms e,
  array_2d kpts1 -> array_2d kpts2 ->
  (forall m x, In m ms -> In x m -> 0 <= x) ->
  match_coords kpts1 kpts2 ms = Raise e -> e = ValueError.
Proof.
  intros kpts1 kpts2 ms e H1 H2. induction ms as [| m ms IH]; intros Hpos H.
  - discriminate.
  - assert (Hpos' : forall m' x, In m' ms -> In x m' -> 0 <= x)
      by (intros m' x Hm; apply Hpos; right; exact Hm).
    destruct m as [| idx1 [| idx2 [| idx3 m']]]; cbn [match_coords] in H;
      try congruence.
    destruct ((idx1 <? nd_len kpts1) && (idx2 <? nd_len kpts2)) eqn:E;
      [| exact (IH Hpos' H)].
    apply andb_prop in E as [E1 E2].
    apply Z.ltb_lt in E1. apply Z.ltb_lt in E2.
    assert (P1 : 0 <= idx1) by (apply (Hpos [idx1; idx2]); cbn; auto).
    assert (P2 : 0 <= idx2) by (apply (Hpos [idx1; idx2]); cbn; auto).
    destruct (keypoint_xy_in_range kpts1 idx1 H1 (conj P1 E1)) as [[xy1 K1] | K1];
      rewrite K1 in H; cbn [bind] in H; [| congruence].
    destruct (keypoint_xy_in_range kpts2 idx2 H2 (conj P2 E2)) as [[xy2 K2] | K2];
      rewrite K2 in H; cbn [bind] in H; [| congruence].
    destruct (match_coords kpts1 kpts2 ms) as [rest |] eqn:R;
      cbn [bind] in H; [discriminate|].
    injection H as <-. exact (IH Hpos' eq_refl).
Qed.

Lemma match_coords_total : forall kpts1 kpts2 cols1 cols2 ms,
  array_2d kpts1 -> array_2d kpts2 ->
  nd_shape kpts1 = [nd_len kpts1; cols1] -> 2 <= cols1 ->
  nd_shape kpts2 = [nd_len kpts2; cols2] -> 2 <= cols2 ->
  (forall m x, In m ms -> In x m -> 0 <= x) ->
  (forall m, In m ms -> List.length m = 2%nat) ->
  exists cs, match_coords kpts1 kpts2 ms = Ok cs.
Proof.
  intros kpts1 kpts2 cols1 cols2 ms H1 H2 S1 C1 S2 C2.
  induction ms as [| m ms IH]; intros Hpos Hlen.
  - eexists. reflexivity.
  - assert (Hpos' : forall m' x, In m' ms -> In x m' -> 0 <= x)
      by (intros m' x Hm; apply Hpos; right; exact Hm).
    assert (Hlen' : forall m', In m' ms -> List.length m' = 2%nat)
      by (intros m' Hm; apply Hlen; right; exact Hm).
    destruct (IH Hpos' Hlen') as [rest Hrest].
    pose proof (Hlen m (or_introl eq_refl)) as Hm.
    destruct m as [| idx1 [| idx2 [| idx3 m']]]; try discriminate.
    cbn [match_coords].
    destruct ((idx1 <? nd_len kpts1) && (idx2 <? nd_len kpts2)) eqn:E;
      [| exists rest; exact Hrest].
    apply andb_prop in E as [E1 E2].
    apply Z.ltb_lt in E1. apply Z.ltb_lt in E2.
    assert (P1 : 0 <= idx1) by (apply (Hpos [idx1; idx2]); cbn; auto).
    assert (P2 : 0 <= idx2) by (apply (Hpos [idx1; idx2]); cbn; auto).
    destruct (keypoint_xy_two_columns kpts1 idx1 cols1 H1 S1 C1 (conj P1 E1))
      as [xy1 K1].
    destruct (keypoint_xy_two_columns kpts2 idx2 cols2 H2 S2 C2 (conj P2 E2))
      as [xy2 K2].
    rewrite K1, K2, Hrest. cbn [bind]. eexists. reflexivity.
Qed.

Lemma blob_to_array_ok : forall blob dt cols,
  0 < cols ->
  Z.of_nat (List.length blob) mod (cols * itemsize dt) = 0 ->
  exists a, blob_to_array (Some blob) dt (Shape2 cols) = Ok (Some a).
Proof.
  intros blob dt cols Hc Hm. pose proof (itemsize_pos dt) as Hp.
  apply Z.mod_divide in Hm; [| nia]. destruct Hm as [rows Hn].
  unfold blob_to_array.
  rewrite (frombuffer_multiple blob dt (rows * cols)) by (rewrite Hn; ring).
  cbn [bind reshape nd_size nd_shape fold_right nd_dtype nd_buffer].
  destruct (Z.leb_spec cols 0); [lia |].
  rewrite Z.mul_1_r, Z.mod_mul by lia. rewrite Z.eqb_refl. cbn [bind].
  eexists. reflexivity.
Qed.

Lemma blob_well_formed_decodes : forall isz_dt min_cols cols b,
  blob_well_formed (itemsize isz_dt) min_cols cols (Some b) = true ->
  exists a, blob_to_array (Some b) isz_dt (Shape2 cols) = Ok (Some a) /\
            array_2d a /\ nd_shape a = [nd_len a; cols] /\ min_cols <= cols.
Proof.
  intros dt min_cols cols b H. unfold blob_well_formed in H.
  apply andb_prop in H as [H Hm]. apply andb_prop in H as [Hmin Hc].
  apply Z.leb_le in Hmin. apply Z.ltb_lt in Hc. apply Z.eqb_eq in Hm.
  destruct (blob_to_array_ok b dt cols Hc Hm) as [a Ha].
  exists a. split; [exact Ha|].
  destruct (blob_to_array_array_2d _ _ _ _ Ha) as (H2 & _ & Hs).
  repeat split; assumption.
Qed.

Lemma read_keypoints_Forall : forall (P : ndarray -> Prop) rows acc kps,
  (forall r data a, In r rows -> br_data r = Some data ->
     blob_to_array (Some data) float32 (Shape2 (br_cols r)) = Ok (Some a) ->
     P a) ->
  Forall (fun kv => P (snd kv)) acc ->
  read_keypoints rows acc = Ok kps ->
  Forall (fun kv => P (snd kv)) kps.
Proof.
  intros P. induction rows as [| r rows IH]; intros acc kps HP Hacc H.
  - injection H as <-. exact Hacc.
  - assert (HP' : forall r' data a, In r' rows -> br_data r' = Some data ->
              blob_to_array (Some data) float32 (Shape2 (br_cols r'))
              = Ok (Some a) -> P a)
      by (intros r' data a Hin; apply HP; right; exact Hin).
    cbn [read_keypoints] in H.
    destruct (br_data r) as [data |] eqn:Hd; [| exact (IH _ _ HP' Hacc H)].
    destruct (blob_to_array (Some data) float32 (Shape2 (br_cols r)))
      as [[a |] | e] eqn:Hb; cbn [bind] in H; [| | discriminate].
    + apply (IH _ _ HP') in H; [exact H|].
      apply (dict_set_values ndarray (fun _ v => P v)); [| exact Hacc].
      exact (HP r data a (or_introl eq_refl) Hd Hb).
    + exact (IH _ _ HP' Hacc H).
Qed.

Lemma read_keypoints_error : forall rows acc e,
  read_keypoints rows acc = Raise e -> e = ValueError.
Proof.
  induction rows as [| r rows IH]; intros acc e H; [discriminate|].
  cbn [read_keypoints] in H.
  destruct (br_data r) as [data |]; [| exact (IH _ _ H)].
  destruct (blob_to_array (Some data) float32 (Shape2 (br_cols r)))
    as [[a |] | e'] eqn:Hb; cbn [bind] in H.
  - exact (IH _ _ H).
  - exact (IH _ _ H).
  - injection H as <-. exact (blob_to_array_error _ _ _ _ Hb).
Qed.

Lemma read_keypoints_raise : forall rows acc r data e,
  In r rows -> br_data r = Some data ->
  blob_to_array (Some data) float32 (Shape2 (br_cols r)) = Raise e ->
  read_keypoints rows acc = Raise ValueError.
Proof.
  induction rows as [| r0 rows IH]; intros acc r data e Hin Hd Hb;
    [destruct Hin|].
  destruct (read_keypoints (r0 :: rows) acc) as [kps | e'] eqn:H;
    [| rewrite (read_keypoints_error _ _ _ H); reflexivity].
  exfalso. cbn [read_keypoints] in H. destruct Hin as [-> | Hin].
  - rewrite Hd, Hb in H. discriminate.
  - destruct (br_data r0) as [data0 |].
    + destruct (blob_to_array (Some data0) float32 (Shape2 (br_cols r0)))
        as [[a |] | e0]; cbn [bind] in H; try discriminate;
        rewrite (IH _ r data e Hin Hd Hb) in H; discriminate.
    + rewrite (IH _ r data e Hin Hd Hb) in H. discriminate.
Qed.

Lemma read_keypoints_total : forall min_cols rows acc,
  (forall r, In r rows ->
     blob_well_formed 4 min_cols (br_cols r) (br_data r) = true) ->
  exists kps, read_keypoints rows acc = Ok kps.
Proof.
  intros min_cols. induction rows as [| r rows IH]; intros acc H.
  - eexists. reflexivity.
  - assert (H' : forall r', In r' rows ->
              blob_well_formed 4 min_cols (br_cols r') (br_data r') = true)
      by (intros r' Hin; apply H; right; exact Hin).
    pose proof (H r (or_introl eq_refl)) as Hr.
    cbn [read_keypoints]. destruct (br_data r) as [data |]; [| apply IH, H'].
    destruct (blob_well_formed_decodes float32 min_cols (br_cols r) data Hr)
      as (a & Ha & _). rewrite Ha. cbn [bind]. apply IH, H'.
Qed.

Lemma dict_get_Forall : forall (V : Type) (P : V -> Prop) (d : list (Z * V)) k v,
  Forall (fun kv => P (snd kv)) d -> dict_get d k = Some v -> P v.
Proof.
  intros V P d k v HF Hg. apply dict_get_In in Hg.
  rewrite Forall_forall in HF. exact (HF _ Hg).
Qed.

Lemma index_rows : forall data ms,
  blob_to_array (Some data) uint32 (Shape2 2) = Ok (Some ms) ->
  (forall m x, In m (nd_rows ms) -> In x m -> 0 <= x) /\
  (forall m, In m (nd_rows ms) -> List.length m = 2%nat).
Proof.
  intros data ms H. split.
  - intros m x. apply nd_rows_nonneg.
  - intros m Hm.
    destruct (blob_to_array_array_2d _ _ _ _ H) as (H2 & _ & Hs).
    destruct (array_2d_rows ms H2) as [_ Hrow].
    destruct (Hrow m Hm) as (c & Hs' & _ & Hl).
    rewrite Hs in Hs'. injection Hs' as <-. exact Hl.
Qed.

Lemma match_data_of_row_error : forall imgs kps row e,
  Forall (fun kv => array_2d (snd kv)) kps ->
  match_data_of_row imgs kps row = Raise e -> e = ValueError.
Proof.
  intros imgs kps row e Hk H. unfold match_data_of_row in H.
  destruct (br_data row) as [data |]; [| discriminate].
  destruct (negb (br_rows row >? 0)); [discriminate|].
  destruct (pair_id_to_image_ids (br_key row)) as [image_id1 image_id2].
  destruct (dict_get imgs image_id1) as [info1 |]; [| discriminate].
  destruct (dict_get imgs image_id2) as [info2 |]; [| discriminate].
  destruct (dict_get kps image_id1) as [kpts1 |] eqn:G1; [| discriminate].
  destruct (dict_get kps image_id2) as [kpts2 |] eqn:G2; [| discriminate].
  destruct (blob_to_array (Some data) uint32 (Shape2 2)) as [[ms |] | e'] eqn:Hb;
    cbn [bind] in H; try discriminate.
  - destruct (nd_len ms =? 0); [discriminate|].
    destruct (match_coords kpts1 kpts2 (nd_rows ms)) as [cs | e'] eqn:Hc;
      cbn [bind] in H.
    + destruct (0 <? List.length cs)%nat; discriminate.
    + injection H as <-.
      apply (match_coords_error kpts1 kpts2 (nd_rows ms) e'); try assumption.
      * exact (dict_get_Forall _ _ _ _ _ Hk G1).
      * exact (dict_get_Forall _ _ _ _ _ Hk G2).
      * apply (index_rows data ms Hb).
  - injection H as <-. exact (blob_to_array_error _ _ _ _ Hb).
Qed.

Lemma read_match_rows_error : forall imgs kps rows e,
  Forall (fun kv => array_2d (snd kv)) kps ->
  read_match_rows imgs kps rows = Raise e -> e = ValueError.
Proof.
  intros imgs kps rows e Hk. induction rows as [| r rows IH]; intros H;
    [discriminate|].
  cbn [read_match_rows] in H.
  destruct (match_data_of_row imgs kps r) as [here | e'] eqn:Hr;
    cbn [bind] in H.
  - destruct (read_match_rows imgs kps rows) as [rest | e'];
      cbn [bind] in H; [discriminate|].
    injection H as <-. apply IH. reflexivity.
  - injection H as <-. exact (match_data_of_row_error _ _ _ _ Hk Hr).
Qed.

Lemma read_keypoints_array_2d : forall rows kps,
  read_keypoints rows [] = Ok kps ->
  Forall (fun kv => array_2d (snd kv)) kps.
Proof.
  intros rows kps H.
  apply (read_keypoints_Forall array_2d rows [] kps); [| constructor | exact H].
  intros r data a _ _ Hb. apply (blob_to_array_array_2d _ _ _ _ Hb).
Qed.

(** X8. The only exception the match reader can raise is numpy's
    [ValueError] (a blob that does not decode, or a keypoint row with a
    single column): an index pair never indexes a keypoint array out of
    bounds, for any content of the store. *)
Theorem read_database_matches_raises_only_ValueError : forall db e,
  read_database_matches db = Raise e -> e = ValueError.
Proof.
  intros db e H. unfold read_database_matches in H.
  destruct (read_keypoints (keypoints db) []) as [kps | e'] eqn:Hk;
    cbn [bind] in H.
  - exact (read_match_rows_error _ _ _ _ (read_keypoints_array_2d _ _ Hk) H).
  - injection H as <-. exact (read_keypoints_error _ _ _ Hk).
Qed.

Lemma read_database_matches_raises_only_ValueError_witness :
  read_database_matches scenario_db_corrupt_keypoints = Raise ValueError /\
  ValueError = ValueError.
Proof.
  split; [vm_compute; reflexivity |].
  apply (read_database_matches_raises_only_ValueError
           scenario_db_corrupt_keypoints ValueError).
  vm_compute. reflexivity.
Defined.

(** X9. One keypoint blob that does not decode (its byte length is not a
    multiple of [4 * cols]) makes the match reader fail as a whole, also
    when the image takes part in no pair, and [main] then writes no file:
    there is no per-record skipping in the match exporter. *)
Theorem corrupt_keypoint_blob_aborts_export : forall db r data,
  In r (keypoints db) -> br_data r = Some data ->
  ~ (br_cols r * 4 | Z.of_nat (List.length data)) ->
  read_database_matches db = Raise ValueError /\
  forall min_matches, matches_main db min_matches = [].
Proof.
  intros db r data Hin Hd Hnd.
  assert (H : read_database_matches db = Raise ValueError).
  { unfold read_database_matches.
    rewrite (read_keypoints_raise (keypoints db) [] r data ValueError Hin Hd
               (blob_to_array_raises data float32 (br_cols r) Hnd)).
    reflexivity. }
  split; [exact H|]. intro min_matches. unfold matches_main. rewrite H.
  reflexivity.
Qed.

Lemma corrupt_keypoint_blob_aborts_export_witness :
  read_database_matches scenario_db_corrupt_keypoints = Raise ValueError /\
  forall min_matches, matches_main scenario_db_corrupt_keypoints min_matches = [].
Proof.
  apply (corrupt_keypoint_blob_aborts_export scenario_db_corrupt_keypoints
           (mk_blob_row 3 1 2 (Some (le_bytes 7 0))) (le_bytes 7 0)).
  - right. right. left. reflexivity.
  - reflexivity.
  - intros [k Hk].
    change (Z.of_nat (List.length (le_bytes 7 0))) with 7 in Hk.
    cbn [br_cols] in Hk. lia.
Defined.

Lemma match_data_of_row_total : forall imgs kps row,
  Forall (fun kv => array_2d (snd kv) /\
            exists cols, nd_shape (snd kv) = [nd_len (snd kv); cols] /\
                         2 <= cols) kps ->
  blob_well_formed 4 0 2 (br_data row) = true ->
  exists recs, match_data_of_row imgs kps row = Ok recs.
Proof.
  intros imgs kps row Hk Hw. unfold match_data_of_row.
  destruct (br_data row) as [data |]; [| eexists; reflexivity].
  destruct (negb (br_rows row >? 0)); [eexists; reflexivity|].
  destruct (pair_id_to_image_ids (br_key row)) as [image_id1 image_id2].
  destruct (dict_get imgs image_id1) as [info1 |]; [| eexists; reflexivity].
  destruct (dict_get imgs image_id2) as [info2 |]; [| eexists; reflexivity].
  destruct (dict_get kps image_id1) as [kpts1 |] eqn:G1;
    [| eexists; reflexivity].
  destruct (dict_get kps image_id2) as [kpts2 |] eqn:G2;
    [| eexists; reflexivity].
  destruct (blob_well_formed_decodes uint32 0 2 data Hw) as (ms & Hb & _).
  rewrite Hb. cbn [bind].
  destruct (nd_len ms =? 0); [eexists; reflexivity|].
  pose proof (dict_get_Forall ndarray
                (fun a => array_2d a /\
                   exists cols, nd_shape a = [nd_len a; cols] /\ 2 <= cols)
                kps) as HP. cbv beta in HP.
  destruct (HP _ _ Hk G1) as (A1 & c1 & S1 & C1).
  destruct (HP _ _ Hk G2) as (A2 & c2 & S2 & C2).
  destruct (index_rows data ms Hb) as [Hpos Hlen].
  destruct (match_coords_total kpts1 kpts2 c1 c2 (nd_rows ms)
              A1 A2 S1 C1 S2 C2 Hpos Hlen) as [cs Hcs].
  rewrite Hcs. cbn [bind].
  destruct (0 <? List.length cs)%nat; eexists; reflexivity.
Qed.

Lemma read_match_rows_total : forall imgs kps rows,
  Forall (fun kv => array_2d (snd kv) /\
            exists cols, nd_shape (snd kv) = [nd_len (snd kv); cols] /\
                         2 <= cols) kps ->
  (forall r, In r rows -> blob_well_formed 4 0 2 (br_data r) = true) ->
  exists ms, read_match_rows imgs kps rows = Ok ms.
Proof.
  intros imgs kps rows Hk. induction rows as [| r rows IH]; intros H.
  - eexists. reflexivity.
  - cbn [read_match_rows].
    destruct (match_data_of_row_total imgs kps r Hk (H r (or_introl eq_refl)))
      as [here ->].
    destruct IH as [rest ->]; [intros r' Hr; apply H; right; exact Hr|].
    cbn [bind]. eexists. reflexivity.
Qed.

(** X10. The match reader returns (it does not raise) on every store whose
    keypoint blobs hold whole rows of at least two [float32] columns and
    whose match blobs hold whole [uint32] index pairs, whatever the index
    values, the image identifiers and the pair keys. *)
Theorem read_database_matches_total : forall db,
  forallb (fun r => blob_well_formed 4 2 (br_cols r) (br_data r))
    (keypoints db) = true ->
  forallb (fun r => blob_well_formed 4 0 2 (br_data r)) (matches db) = true ->
  exists matches_data, read_database_matches db = Ok matches_data.
Proof.
  intros db Hk Hm. rewrite forallb_forall in Hk, Hm.
  unfold read_database_matches.
  destruct (read_keypoints_total 2 (keypoints db) [] Hk) as [kps Hkps].
  rewrite Hkps. cbn [bind]. apply read_match_rows_total.
  - apply (read_keypoints_Forall
             (fun a => array_2d a /\
                exists cols, nd_shape a = [nd_len a; cols] /\ 2 <= cols)
             (keypoints db) [] kps);
      [| constructor | exact Hkps].
    intros r data a Hin Hd Hb.
    destruct (blob_to_array_array_2d _ _ _ _ Hb) as (H2 & _ & Hs).
    split; [exact H2|]. exists (br_cols r). split; [exact Hs|].
    specialize (Hk r Hin). rewrite Hd in Hk. unfold blob_well_formed in Hk.
    apply andb_prop in Hk as [Hk _]. apply andb_prop in Hk as [Hk _].
    apply Z.leb_le in Hk. exact Hk.
  - intros r Hr. apply Hm. apply filter_In in Hr as [Hr _]. exact Hr.
Qed.

Lemma read_database_matches_total_witness :
  exists matches_data,
    read_database_matches scenario_db_out_of_range = Ok matches_data.
Proof.
  apply (read_database_matches_total scenario_db_out_of_range);
    vm_compute; reflexivity.
Defined.

(** ** Stored index pairs *)

Lemma map_le_unsigned_le_bytes : forall ws,
  Forall (fun w => 0 <= w < 2 ^ 32) ws ->
  map le_unsigned (map (le_bytes 4) ws) = ws.
Proof.
  induction ws as [| w ws IH]; intros H; [reflexivity|].
  inversion H as [| x l Hw Hws]; subst. cbn [map].
  rewrite le_unsigned_le_bytes_small by exact Hw. rewrite IH by exact Hws.
  reflexivity.
Qed.

(** X11. Index pairs stored as consecutive little-endian [uint32] words
    decode back to themselves: a blob of [n] pairs with components below
    [2^32] decodes into an array of length [n] whose rows are the pairs, in
    order. *)
Theorem index_pairs_round_trip : forall pairs : list (Z * Z),
  Forall (fun p => 0 <= fst p < 2 ^ 32 /\ 0 <= snd p < 2 ^ 32) pairs ->
  exists a,
    blob_to_array
      (Some (words32 (flat_map (fun p => [fst p; snd p]) pairs)))
      uint32 (Shape2 2) = Ok (Some a) /\
    nd_rows a = map (fun p => [fst p; snd p]) pairs /\
    nd_len a = Z.of_nat (List.length pairs).
Proof.
  intros pairs H.
  set (flat := flat_map (fun p => [fst p; snd p]) pairs).
  assert (Hflat : List.length flat = (2 * List.length pairs)%nat)
    by (apply flat_map_length_const; reflexivity).
  assert (Hlen : Z.of_nat (List.length (words32 flat))
                 = Z.of_nat (List.length pairs) * 2 * itemsize uint32).
  { unfold words32.
    rewrite (flat_map_length_const _ _ (le_bytes 4) 4 flat)
      by (intro; apply le_bytes_length).
    rewrite Hflat. cbn [itemsize]. lia. }
  exists (mk_ndarray uint32 [Z.of_nat (List.length pairs); 2] (words32 flat)).
  assert (Hws : Forall (fun w => 0 <= w < 2 ^ 32) flat).
  { unfold flat. clear Hflat Hlen. induction H as [| p ps [Hp1 Hp2] _ IH];
      [constructor|]. cbn [flat_map app].
    constructor; [exact Hp1|]. constructor; [exact Hp2 | exact IH]. }
  repeat split.
  - unfold blob_to_array.
    rewrite (frombuffer_multiple (words32 flat) uint32
               (Z.of_nat (List.length pairs) * 2)) by exact Hlen.
    cbn [bind reshape nd_size nd_shape fold_right nd_dtype nd_buffer].
    rewrite Z.mul_1_r, Z.mod_mul, Z.div_mul by lia. reflexivity.
  - unfold nd_rows, nd_items. cbn [nd_shape nd_dtype nd_buffer itemsize].
    unfold words32.
    rewrite (chunks_flat_map _ _ (le_bytes 4) (Z.to_nat 4) flat)
      by (try lia; intro; apply le_bytes_length).
    rewrite map_le_unsigned_le_bytes by exact Hws.
    unfold flat. apply (chunks_flat_map _ _ (fun p : Z * Z => [fst p; snd p]));
      [lia | reflexivity].
Qed.

Lemma index_pairs_round_trip_witness :
  exists a,
    blob_to_array
      (Some (words32 (flat_map (fun p => [fst p; snd p]) [(0, 0); (9, 1); (2, 7)])))
      uint32 (Shape2 2) = Ok (Some a) /\
    nd_rows a = map (fun p => [fst p; snd p]) [(0, 0); (9, 1); (2, 7)] /\
    nd_len a = Z.of_nat (List.length [(0, 0); (9, 1); (2, 7)]).
Proof.
  apply (index_pairs_round_trip [(0, 0); (9, 1); (2, 7)]).
  repeat constructor; cbn; lia.
Defined.

(** ** The binary model reader on arbitrary bytes *)

Lemma read_next_bytes_inv : forall fid n data fid',
  0 <= n ->
  read_next_bytes fid n = Ok (data, fid') ->
  fid = data ++ fid' /\ List.length data = Z.to_nat n.
Proof.
  intros fid n data fid' Hn H. unfold read_next_bytes in H.
  destruct (Z.ltb_spec (Z.of_nat (List.length fid)) n); [discriminate|].
  injection H as <- <-. split; [symmetry; apply firstn_skipn|].
  apply firstn_length_le. lia.
Qed.

Lemma read_name_inv : forall fid nm fid',
  read_name fid = Ok (nm, fid') -> fid = nm ++ x00 :: fid'.
Proof.
  induction fid as [| b fid IH]; intros nm fid' H; [discriminate|].
  cbn [read_name] in H. destruct (Byte.eqb b x00) eqn:E.
  - injection H as <- <-. apply Byte.byte_dec_bl in E. subst b. reflexivity.
  - destruct (read_name fid) as [[nm0 rest] |] eqn:R; cbn [bind] in H;
      [| discriminate].
    injection H as <- <-. cbn [fst snd]. rewrite (IH _ _ eq_refl). reflexivity.
Qed.

(** One pass of the loop consumes the 64-byte header, the name and its zero
    byte, the count and 24 bytes per observation; the record has as many
    coordinates as point ids. *)
Lemma read_image_binary_inv : forall fid image fid',
  Model.read_image_binary fid = Ok (image, fid') ->
  exists consumed,
    fid = consumed ++ fid' /\
    List.length consumed
    = (73 + String.length (Model.name image)
       + 24 * List.length (Model.xys image))%nat /\
    List.length (Model.xys image) = List.length (Model.point3D_ids image).
Proof.
  intros fid image fid' H. unfold Model.read_image_binary in H.
  destruct (read_next_bytes fid 64) as [[props fid1] |] eqn:H1;
    cbn [bind] in H; [| discriminate].
  destruct (Model.unpack_image_properties props) as [[[image_id qvec] tvec] cam].
  destruct (read_name fid1) as [[nm fid2] |] eqn:H2; cbn [bind] in H;
    [| discriminate].
  destruct (read_next_bytes fid2 8) as [[count fid3] |] eqn:H3;
    cbn [bind] in H; [| discriminate].
  destruct (read_next_bytes fid3 (24 * le_unsigned count))
    as [[pts fid4] |] eqn:H4; cbn [bind] in H; [| discriminate].
  injection H as <- <-.
  pose proof (le_unsigned_nonneg count) as Hc.
  apply read_next_bytes_inv in H1 as [E1 L1]; [| lia].
  apply read_name_inv in H2.
  apply read_next_bytes_inv in H3 as [E3 L3]; [| lia].
  apply read_next_bytes_inv in H4 as [E4 L4]; [| lia].
  exists (props ++ nm ++ x00 :: count ++ pts).
  cbn [Model.name Model.xys Model.point3D_ids]. repeat split.
  - rewrite E1, H2, E3, E4. rewrite <- !app_assoc. cbn [app].
    rewrite <- !app_assoc. reflexivity.
  - rewrite !length_app. cbn [List.length]. rewrite !length_app.
    rewrite !length_map, chunks_length, L1, L3, L4.
    assert (Hn : String.length (string_of_list_byte nm) = List.length nm).
    { clear. unfold string_of_list_byte.
      induction nm as [| b nm IH];
        cbn [map string_of_list_ascii String.length List.length];
        congruence. }
    rewrite Hn.
    replace (Z.to_nat (24 * le_unsigned count))
      with (24 * Z.to_nat (le_unsigned count))%nat by lia.
    rewrite Nat.mul_comm, Nat.div_mul by lia.
    change (Z.to_nat 64) with 64%nat. change (Z.to_nat 8) with 8%nat. lia.
  - rewrite !length_map. reflexivity.
Qed.

Lemma read_images_binary_loop_inv : forall fuel n fid images result,
  Model.read_images_binary_loop fuel n fid images = Ok result ->
  NoDup (map fst images) ->
  Forall (fun kv => fst kv = Model.id (snd kv) /\
            List.length (Model.xys (snd kv))
            = List.length (Model.point3D_ids (snd kv))) images ->
  NoDup (map fst result) /\
  Forall (fun kv => fst kv = Model.id (snd kv) /\
            List.length (Model.xys (snd kv))
            = List.length (Model.point3D_ids (snd kv))) result /\
  Z.of_nat (List.length result) <= Z.of_nat (List.length images) + Z.max 0 n /\
  (73 * Z.max 0 n <= Z.of_nat (List.length fid)).
Proof.
  induction fuel as [| fuel IH]; intros n fid images result H Hnd Hinv;
    cbn [Model.read_images_binary_loop] in H.
  - destruct (Z.leb_spec n 0); [| discriminate]. injection H as <-.
    repeat split; try assumption; lia.
  - destruct (Z.leb_spec n 0).
    + injection H as <-. repeat split; try assumption; lia.
    + destruct (Model.read_image_binary fid) as [[image fid'] |] eqn:R;
        cbn [bind] in H; [| discriminate].
      destruct (read_image_binary_inv _ _ _ R) as (consumed & Hf & Hl & Hxy).
      apply IH in H.
      * destruct H as (N & F & L & B). repeat split; try assumption.
        -- pose proof (dict_set_length _ images (Model.id image) image). lia.
        -- rewrite Hf, length_app. lia.
      * apply dict_set_NoDup. exact Hnd.
      * apply (dict_set_values Model.Image
                 (fun k v => k = Model.id v /\
                    List.length (Model.xys v)
                    = List.length (Model.point3D_ids v)));
          [split; [reflexivity | exact Hxy] | exact Hinv].
Qed.

(** X12. Whatever the bytes of the file, when the binary model reader
    returns, the dict has no repeated key, every record is stored under its
    own image id and has as many 2D coordinates as 3D point ids, the number
    of records is at most the count declared in the first eight bytes, and
    the file holds at least 8 + 73 bytes per declared record. *)
Theorem read_images_binary_invariants : forall file images,
  Model.read_images_binary file = Ok images ->
  NoDup (map fst images) /\
  Forall (fun kv => fst kv = Model.id (snd kv) /\
            List.length (Model.xys (snd kv))
            = List.length (Model.point3D_ids (snd kv))) images /\
  Z.of_nat (List.length images) <= le_unsigned (firstn 8 file) /\
  8 + 73 * le_unsigned (firstn 8 file) <= Z.of_nat (List.length file).
Proof.
  intros file images H. unfold Model.read_images_binary in H.
  destruct (read_next_bytes file 8) as [[count fid] |] eqn:H1;
    cbn [bind] in H; [| discriminate].
  assert (Hc : count = firstn 8 file).
  { unfold read_next_bytes in H1.
    destruct (Z.of_nat (List.length file) <? 8); [discriminate|].
    injection H1 as <- _. reflexivity. }
  apply read_next_bytes_inv in H1 as [E L]; [| lia].
  apply read_images_binary_loop_inv in H; [| constructor | constructor].
  destruct H as (N & F & Len & B). rewrite <- Hc.
  pose proof (le_unsigned_nonneg count).
  repeat split; try assumption.
  - cbn [List.length] in Len. lia.
  - rewrite E, length_app, L. change (Z.to_nat 8) with 8%nat. lia.
Qed.

Lemma read_images_binary_invariants_witness :
  NoDup (map fst (images_of_contents example_contents)) /\
  Forall (fun kv => fst kv = Model.id (snd kv) /\
            List.length (Model.xys (snd kv))
            = List.length (Model.point3D_ids (snd kv)))
    (images_of_contents example_contents) /\
  Z.of_nat (List.length (images_of_contents example_contents))
  <= le_unsigned (firstn 8 (spec_images_binary example_contents)) /\
  8 + 73 * le_unsigned (firstn 8 (spec_images_binary example_contents))
  <= Z.of_nat (List.length (spec_images_binary example_contents)).
Proof.
  apply (read_images_binary_invariants (spec_images_binary example_contents)
           (images_of_contents example_contents)).
  vm_compute. reflexivity.
Defined.

(** ** The binary model reader on longer and shorter files *)

Section BinaryFiles.
Variable py_int : string -> option Z.
Variable py_float : string -> option float.









End BinaryFiles.




(** ** The text model reader on arbitrary text *)

Lemma every_third_lengths : forall (A : Type) (l : list A),
  (List.length (every_third 2 l) <= List.length (every_third 1 l))%nat /\
  (List.length (every_third 1 l) <= List.length (every_third 0 l))%nat /\
  (List.length (every_third 0 l) <= S (List.length (every_third 2 l)))%nat.
Proof.
  intros A. induction l as [| x l IH]; [cbn; lia|].
  cbn [every_third List.length]. lia.
Qed.

Section TextFiles.
Variable py_int : string -> option Z.
Variable py_float : string -> option float.

Lemma parse_all_length : forall (A : Type) (f : string -> option A) toks vs,
  Model.parse_all f toks = Ok vs -> List.length vs = List.length toks.
Proof.
  intros A f. induction toks as [| t toks IH]; intros vs H.
  - injection H as <-. reflexivity.
  - cbn [Model.parse_all] in H.
    destruct (Model.parse_with f t) as [v |]; cbn [bind] in H; [| discriminate].
    destruct (Model.parse_all f toks) as [vs' |]; cbn [bind] in H;
      [| discriminate].
    injection H as <-. cbn [List.length]. rewrite (IH vs' eq_refl). reflexivity.
Qed.

(** An image line is accepted only with at least ten fields; the name is the
    tenth; an observation line may end in a pair [x y] without point id. *)
Lemma read_image_text_inv : forall elems obs image,
  Model.read_image_text py_int py_float elems obs = Ok image ->
  (10 <= List.length elems)%nat /\
  nth_error elems 9 = Some (Model.name image) /\
  (List.length (Model.point3D_ids image) <= List.length (Model.xys image)
   <= S (List.length (Model.point3D_ids image)))%nat.
Proof.
  intros elems obs image H. unfold Model.read_image_text in H.
  destruct (Model.elem_at elems 0) as [e0 |]; cbn [bind] in H; [| discriminate].
  destruct (Model.parse_with py_int e0) as [image_id |]; cbn [bind] in H;
    [| discriminate].
  destruct (Model.parse_all py_float (slice 1 4 elems)) as [qvec |];
    cbn [bind] in H; [| discriminate].
  destruct (Model.parse_all py_float (slice 5 3 elems)) as [tvec |];
    cbn [bind] in H; [| discriminate].
  destruct (Model.elem_at elems 8) as [e8 |]; cbn [bind] in H; [| discriminate].
  destruct (Model.parse_with py_int e8) as [cam |]; cbn [bind] in H;
    [| discriminate].
  unfold Model.elem_at in H at 1.
  destruct (nth_error elems 9) as [nm |] eqn:E9; cbn [bind] in H;
    [| discriminate].
  destruct (Model.parse_all py_float (every_third 0 obs)) as [xs |] eqn:Hxs;
    cbn [bind] in H; [| discriminate].
  destruct (Model.parse_all py_float (every_third 1 obs)) as [ys |] eqn:Hys;
    cbn [bind] in H; [| discriminate].
  destruct (Nat.eqb_spec (List.length xs) (List.length ys)) as [Hxy | Hxy];
    cbn [bind] in H; [| discriminate].
  destruct (Model.parse_all py_int (every_third 2 obs)) as [ids |] eqn:Hids;
    cbn [bind] in H; [| discriminate].
  destruct qvec as [| q0 [| q1 [| q2 [| q3 [| q4 qvec]]]]]; try discriminate.
  destruct tvec as [| t0 [| t1 [| t2 [| t3 tvec]]]]; try discriminate.
  injection H as <-. cbn [Model.name Model.xys Model.point3D_ids].
  split; [| split; [reflexivity|]].
  - assert (nth_error elems 9 <> None) by congruence.
    apply nth_error_Some in H. lia.
  - apply parse_all_length in Hxs, Hys, Hids.
    rewrite length_combine, <- Hxy, Nat.min_id, Hxs, Hids.
    rewrite Hxs, Hys in Hxy.
    pose proof (every_third_lengths _ obs). lia.
Qed.

Lemma read_images_text_loop_inv : forall lines images result,
  Model.read_images_text_loop py_int py_float lines images = Ok result ->
  NoDup (map fst images) ->
  Forall (fun kv => fst kv = Model.id (snd kv) /\
            (List.length (Model.point3D_ids (snd kv))
             <= List.length (Model.xys (snd kv))
             <= S (List.length (Model.point3D_ids (snd kv))))%nat) images ->
  NoDup (map fst result) /\
  Forall (fun kv => fst kv = Model.id (snd kv) /\
            (List.length (Model.point3D_ids (snd kv))
             <= List.length (Model.xys (snd kv))
             <= S (List.length (Model.point3D_ids (snd kv))))%nat) result /\
  (2 * List.length result <= 2 * List.length images + S (List.length lines))%nat.
Proof.
  intros lines. remember (List.length lines) as n eqn:Hn.
  revert lines Hn. induction n as [n IH] using lt_wf_ind.
  intros lines Hn images result H Hnd Hinv.
  destruct lines as [| line rest].
  - injection H as <-. repeat split; try assumption. lia.
  - cbn [Model.read_images_text_loop] in H. cbn [List.length] in Hn.
    assert (Hskip :
      Model.read_images_text_loop py_int py_float rest images = Ok result ->
      NoDup (map fst result) /\
      Forall (fun kv => fst kv = Model.id (snd kv) /\
                (List.length (Model.point3D_ids (snd kv))
                 <= List.length (Model.xys (snd kv))
                 <= S (List.length (Model.point3D_ids (snd kv))))%nat) result /\
      (2 * List.length result <= 2 * List.length images + S n)%nat).
    { intro H'.
      destruct (IH (List.length rest) ltac:(lia) rest eq_refl images result
                  H' Hnd Hinv) as (N & F & L).
      repeat split; try assumption. lia. }
    destruct (strip line) as [| c s] eqn:Hs; [exact (Hskip H)|].
    destruct (Ascii.eqb c "#"); [exact (Hskip H)|].
    assert (Hset : forall image obs,
      Model.read_image_text py_int py_float (split (String c s)) obs = Ok image ->
      NoDup (map fst (dict_set images (Model.id image) image)) /\
      Forall (fun kv => fst kv = Model.id (snd kv) /\
                (List.length (Model.point3D_ids (snd kv))
                 <= List.length (Model.xys (snd kv))
                 <= S (List.length (Model.point3D_ids (snd kv))))%nat)
        (dict_set images (Model.id image) image) /\
      (List.length (dict_set images (Model.id image) image)
       <= S (List.length images))%nat).
    { intros image obs R. split; [apply dict_set_NoDup; exact Hnd|]. split.
      - apply (dict_set_values Model.Image
                 (fun k v => k = Model.id v /\
                    (List.length (Model.point3D_ids v)
                     <= List.length (Model.xys v)
                     <= S (List.length (Model.point3D_ids v)))%nat));
          [| exact Hinv].
        split; [reflexivity|]. apply (read_image_text_inv _ _ _ R).
      - apply dict_set_length. }
    destruct rest as [| obs rest'].
    + destruct (Model.read_image_text py_int py_float (split (String c s)) [])
        as [image |] eqn:R; cbn [bind] in H; [| discriminate].
      injection H as <-. destruct (Hset image [] R) as (N & F & L).
      repeat split; try assumption. cbn [List.length] in Hn. lia.
    + destruct (Model.read_image_text py_int py_float (split (String c s))
                  (split obs)) as [image |] eqn:R; cbn [bind] in H;
        [| discriminate].
      destruct (Hset image (split obs) R) as (N & F & L).
      cbn [List.length] in Hn.
      destruct (IH (List.length rest') ltac:(lia) rest' eq_refl _ result
                  H N F) as (N' & F' & L').
      repeat split; try assumption. lia.
Qed.

(** X15. Whatever the text of the file and whatever [int()] and [float()]
    accept, when the text model reader returns, the dict has no repeated
    key, every record is stored under its own image id, a record has as
    many 2D coordinates as 3D point ids or one more (an observation line
    ending in a pair [x y] without point id is accepted), and two lines are
    read per record, the last record apart. *)
Theorem read_images_text_invariants : forall file images,
  Model.read_images_text py_int py_float file = Ok images ->
  NoDup (map fst images) /\
  Forall (fun kv => fst kv = Model.id (snd kv) /\
            (List.length (Model.point3D_ids (snd kv))
             <= List.length (Model.xys (snd kv))
             <= S (List.length (Model.point3D_ids (snd kv))))%nat) images /\
  (2 * List.length images <= S (List.length (split_lines file)))%nat.
Proof.
  intros file images H. unfold Model.read_images_text in H.
  apply read_images_text_loop_inv in H; [| constructor | constructor].
  cbn [List.length] in H. exact H.
Qed.

End TextFiles.

Lemma read_images_text_invariants_witness :
  NoDup (map fst dangling_pair_images) /\
  Forall (fun kv => fst kv = Model.id (snd kv) /\
            (List.length (Model.point3D_ids (snd kv))
             <= List.length (Model.xys (snd kv))
             <= S (List.length (Model.point3D_ids (snd kv))))%nat)
    dangling_pair_images /\
  (2 * List.length dangling_pair_images
   <= S (List.length (split_lines dangling_pair_text)))%nat.
Proof.
  apply (read_images_text_invariants decimal_int decimal_float
           dangling_pair_text dangling_pair_images).
  vm_compute. reflexivity.
Defined.

(** The text reader on a line with a dangling pair: two coordinates, one
    point id. *)
Example text_reader_accepts_dangling_pair :
  Model.read_images_text decimal_int decimal_float dangling_pair_text
  = Ok dangling_pair_images.
Proof. vm_compute. reflexivity. Qed.

(** ** Model folders *)

Section ModelFolders.
Variable py_int : string -> option Z.
Variable py_float : string -> option float.




End ModelFolders.



(** ** The two pose readers of the store agree on registered images *)








(** ** The text and CSV files of the per-image exporter *)

Local Open Scope string_scope.

Lemma split_lines_prefix_lines : forall ls rest,
  Forall (fun l => all_ascii not_newline l = true) ls ->
  split_lines (String.concat "" (map (fun l => l ++ newline) ls) ++ rest)
  = List.app (map (fun l => l ++ newline) ls) (split_lines rest).
Proof.
  induction ls as [| l ls IH]; intros rest H; [reflexivity|].
  inversion H as [| x xs Hl Hls]; subst.
  cbn [map]. rewrite concat_empty_cons, !string_app_assoc.
  rewrite split_lines_line by exact Hl.
  cbn [List.app]. f_equal. apply IH. exact Hls.
Qed.

Lemma flag_text_token : forall b, is_token (flag_text b) = true.
Proof. destruct b; reflexivity. Qed.

Lemma pose_txt_line_tokens : forall p,
  pose_txt_line p = join_space (pose_txt_tokens p) ++ newline /\
  (is_token (pd_image_name p) = true ->
   Forall (fun t => is_token t = true) (pose_txt_tokens p)).
Proof.
  intro p. unfold pose_txt_line, pose_txt_tokens.
  destruct (pd_quaternion p) as [[[q0 q1] q2] q3].
  destruct (pd_translation p) as [[t0 t1] t2].
  destruct (pd_camera_center p) as [[c0 c1] c2].
  destruct (pd_euler_angles p) as [[e0 e1] e2]. split.
  - cbn [join_space]. rewrite !string_app_assoc. reflexivity.
  - intro Hn.
    repeat constructor;
      first [exact Hn | apply flag_text_token | apply format_f_token].
Qed.

Lemma pose_csv_line_no_newline : forall p,
  all_ascii not_newline (pd_image_name p) = true ->
  exists body, pose_csv_line p = body ++ newline /\
               all_ascii not_newline body = true.
Proof.
  intros p Hn. unfold pose_csv_line.
  destruct (pd_quaternion p) as [[[q0 q1] q2] q3].
  destruct (pd_translation p) as [[t0 t1] t2].
  destruct (pd_camera_center p) as [[c0 c1] c2].
  destruct (pd_euler_angles p) as [[e0 e1] e2].
  assert (F : forall d x, all_ascii not_newline (format_f d x) = true).
  { intros d x. destruct (is_token_inv _ (format_f_token d x)) as [_ H].
    exact (all_ascii_weaken _ _ _ not_space_not_newline H). }
  assert (Z : forall z, all_ascii not_newline (str_of_Z z) = true).
  { intros z. destruct (is_token_inv _ (str_of_Z_token z)) as [_ H].
    exact (all_ascii_weaken _ _ _ not_space_not_newline H). }
  assert (B : forall b, all_ascii not_newline (flag_text b) = true)
    by (destruct b; reflexivity).
  eexists. split.
  - rewrite <- !string_app_assoc. reflexivity.
  - rewrite !all_ascii_app, Hn, Z, B, !F. reflexivity.
Qed.

Lemma export_poses_txt_split_lines : forall poses_data,
  Forall (fun p => is_token (pd_image_name p) = true) poses_data ->
  split_lines (export_poses_txt poses_data)
  = List.app (map (fun l => l ++ newline) poses_txt_header)
      (map pose_txt_line poses_data) /\
  map split (map pose_txt_line poses_data)
  = map pose_txt_tokens poses_data.
Proof.
  intros poses_data Hn.
  assert (Hlines : map pose_txt_line poses_data
                   = map (fun p => join_space (pose_txt_tokens p) ++ newline)
                       poses_data).
  { apply map_ext. intro p. apply pose_txt_line_tokens. }
  split.
  - unfold export_poses_txt.
    rewrite split_lines_prefix_lines
      by (repeat constructor).
    f_equal. rewrite Hlines. apply split_lines_concat.
    intros p Hp. apply tokens_no_newline. apply pose_txt_line_tokens.
    rewrite Forall_forall in Hn. exact (Hn p Hp).
  - rewrite map_map. apply map_ext_in. intros p Hp.
    destruct (pose_txt_line_tokens p) as [-> Ht].
    apply split_line_of_tokens. apply Ht.
    rewrite Forall_forall in Hn. exact (Hn p Hp).
Qed.

Lemma split_lines_lines : forall ls,
  Forall (fun l => exists body, l = body ++ newline /\
                     all_ascii not_newline body = true) ls ->
  split_lines (String.concat "" ls) = ls.
Proof.
  induction ls as [| l ls IH]; intros H; [reflexivity|].
  inversion H as [| x xs (body & -> & Hb) Hls]; subst.
  rewrite concat_empty_cons, string_app_assoc.
  rewrite split_lines_line by exact Hb. f_equal. apply IH. exact Hls.
Qed.

Lemma export_poses_csv_split_lines : forall poses_data,
  Forall (fun p => all_ascii not_newline (pd_image_name p) = true) poses_data ->
  split_lines (export_poses_csv poses_data)
  = (poses_csv_header ++ newline) :: map pose_csv_line poses_data.
Proof.
  intros poses_data Hn. unfold export_poses_csv.
  rewrite split_lines_line by reflexivity. f_equal.
  apply split_lines_lines. rewrite Forall_forall in Hn |- *.
  intros l Hl. apply in_map_iff in Hl as (p & <- & Hp).
  apply pose_csv_line_no_newline. exact (Hn p Hp).
Qed.

(** X19. The per-image exporter's files can be read back line by line when
    the image names are whitespace-free words: [camera_poses.txt] is its
    four comment lines followed by one line per pose, each of exactly
    fifteen whitespace-separated fields, the name first and the
    registration flag ([1] or [0]) second; [camera_poses.csv] is its header
    line followed by one line per pose. *)
Theorem camera_pose_files_lines : forall poses_data,
  Forall (fun p => is_token (pd_image_name p) = true) poses_data ->
  split_lines (export_poses_txt poses_data)
  = List.app (map (fun l => l ++ newline) poses_txt_header)
      (map pose_txt_line poses_data) /\
  map split (map pose_txt_line poses_data)
  = map pose_txt_tokens poses_data /\
  Forall (fun p => List.length (pose_txt_tokens p) = 15%nat /\
                   nth_error (pose_txt_tokens p) 1
                   = Some (if pd_is_registered p then "1" else "0"))
    poses_data /\
  split_lines (export_poses_csv poses_data)
  = (poses_csv_header ++ newline) :: map pose_csv_line poses_data.
Proof.
  intros poses_data Hn.
  destruct (export_poses_txt_split_lines poses_data Hn) as [H1 H2].
  repeat apply conj; try assumption.
  - rewrite Forall_forall. intros p _. unfold pose_txt_tokens.
    destruct (pd_quaternion p) as [[[q0 q1] q2] q3].
    destruct (pd_translation p) as [[t0 t1] t2].
    destruct (pd_camera_center p) as [[c0 c1] c2].
    destruct (pd_euler_angles p) as [[e0 e1] e2].
    split; reflexivity.
  - apply export_poses_csv_split_lines.
    rewrite Forall_forall in Hn |- *. intros p Hp.
    destruct (is_token_inv _ (Hn p Hp)) as [_ H].
    exact (all_ascii_weaken _ _ _ not_space_not_newline H).
Qed.

Local Close Scope string_scope.

Lemma camera_pose_files_lines_witness :
  split_lines (export_poses_txt scenario_poses)
  = List.app (map (fun l => (l ++ newline)%string) poses_txt_header)
      (map pose_txt_line scenario_poses) /\
  map split (map pose_txt_line scenario_poses)
  = map pose_txt_tokens scenario_poses /\
  Forall (fun p => List.length (pose_txt_tokens p) = 15%nat /\
                   nth_error (pose_txt_tokens p) 1
                   = Some (if pd_is_registered p then "1" else "0")%string)
    scenario_poses /\
  split_lines (export_poses_csv scenario_poses)
  = (poses_csv_header ++ newline)%string :: map pose_csv_line scenario_poses.
Proof.
  apply (camera_pose_files_lines scenario_poses).
  repeat constructor.
Defined.





(** ** The loader's sqlite readers *)

Lemma encode_symmetric : forall a b,
  _image_ids_to_pair_id a b = _image_ids_to_pair_id b a.
Proof.
  intros a b. rewrite !encode_min_max, Z.min_comm, Z.max_comm. reflexivity.
Qed.

(** X21. Asking the loader for the matches of a pair in either order reads
    the same row: [get_matches(b, a)] returns the index array of
    [get_matches(a, b)] unchanged -- its two columns are not exchanged --
    under the identifiers as given, and one is [None] when the other is. *)
Theorem get_matches_either_order : forall db image_id1 image_id2,
  _read_matches_sqlite db image_id2 image_id1
  = _read_matches_sqlite db image_id1 image_id2 /\
  get_matches db image_id2 image_id1
  = option_map (fun m => mk_MatchInfo image_id2 image_id1 (mi_matches m))
      (get_matches db image_id1 image_id2).
Proof.
  intros db a b.
  assert (H : _read_matches_sqlite db b a = _read_matches_sqlite db a b).
  { unfold _read_matches_sqlite. rewrite (encode_symmetric b a). reflexivity. }
  split; [exact H|]. unfold get_matches. rewrite H.
  destruct (_read_matches_sqlite db a b) as [[m |] |]; try reflexivity.
  destruct (nd_len m >? 0); reflexivity.
Qed.

Lemma encode_decoded : forall k a b,
  _pair_id_to_image_ids k = (a, b) -> a <= b ->
  _image_ids_to_pair_id a b = k.
Proof.
  intros k a b H Hle. unfold _pair_id_to_image_ids in H.
  assert (HM : 0 < MAX_IMAGE_ID) by (rewrite MAX_IMAGE_ID_value; lia).
  pose proof (Z.div_mod k MAX_IMAGE_ID ltac:(lia)) as Hk.
  injection H as Ha Hb.
  rewrite encode_ordered by exact Hle.
  assert (E : (k - k mod MAX_IMAGE_ID) / MAX_IMAGE_ID = k / MAX_IMAGE_ID).
  { replace (k - k mod MAX_IMAGE_ID) with (k / MAX_IMAGE_ID * MAX_IMAGE_ID)
      by lia. apply Z.div_mul. lia. }
  rewrite E in Ha. subst a b. lia.
Qed.

Lemma find_unique_key : forall rows row,
  NoDup (map br_key rows) -> In row rows ->
  fetchone rows (br_key row) = Some row.
Proof.
  induction rows as [| r rows IH]; intros row Hnd Hin; [destruct Hin|].
  cbn [map] in Hnd. inversion Hnd as [| x l Hnin Hnd']; subst.
  unfold fetchone. cbn [find]. destruct Hin as [-> | Hin].
  - rewrite Z.eqb_refl. reflexivity.
  - destruct (Z.eqb_spec (br_key r) (br_key row)) as [E | E].
    + exfalso. apply Hnin. rewrite E. apply in_map. exact Hin.
    + apply (IH row Hnd' Hin).
Qed.

Lemma get_all_matches_loop_In : forall rows l mi,
  get_all_matches_loop rows = Ok l -> In mi l ->
  exists row,
    In row rows /\
    _pair_id_to_image_ids (br_key row) = (mi_image_id1 mi, mi_image_id2 mi) /\
    _blob_to_array (br_data row) uint32 (Shape2 2) = Ok (Some (mi_matches mi)) /\
    nd_len (mi_matches mi) > 0.
Proof.
  induction rows as [| row rows IH]; intros l mi H Hin.
  - injection H as <-. destruct Hin.
  - cbn [get_all_matches_loop] in H.
    destruct (_pair_id_to_image_ids (br_key row)) as [id1 id2] eqn:Hd.
    destruct (_blob_to_array (br_data row) uint32 (Shape2 2)) as [arr |] eqn:Hb;
      cbn [bind] in H; [| discriminate].
    destruct (get_all_matches_loop rows) as [rest |] eqn:Hrest;
      cbn [bind] in H; [| discriminate].
    injection H as <-.
    assert (Hrec : In mi rest ->
              exists row0, In row0 (row :: rows) /\
                _pair_id_to_image_ids (br_key row0)
                = (mi_image_id1 mi, mi_image_id2 mi) /\
                _blob_to_array (br_data row0) uint32 (Shape2 2)
                = Ok (Some (mi_matches mi)) /\
                nd_len (mi_matches mi) > 0).
    { intro Hr. destruct (IH rest mi eq_refl Hr) as (row0 & Hin0 & Hrest0).
      exists row0. split; [right; exact Hin0 | exact Hrest0]. }
    destruct arr as [m |]; [| exact (Hrec Hin)].
    destruct (nd_len m >? 0) eqn:Hlen; [| exact (Hrec Hin)].
    destruct Hin as [<- | Hin]; [| exact (Hrec Hin)].
    exists row. cbn [mi_image_id1 mi_image_id2 mi_matches].
    repeat split; try assumption; [left; reflexivity | lia].
Qed.

(** X22. With unique pair keys, every entry [get_all_matches] lists whose
    first identifier is not the larger one is the entry [get_matches]
    returns for its two identifiers: the two accessors agree on the pairs
    stored under a key the encoder produces. *)
Theorem get_all_matches_agrees_with_get_matches : forall db l mi,
  get_all_matches db = Ok l -> In mi l ->
  mi_image_id1 mi <= mi_image_id2 mi ->
  NoDup (map br_key (matches db)) ->
  get_matches db (mi_image_id1 mi) (mi_image_id2 mi) = Some mi.
Proof.
  intros db l mi H Hin Hle Hnd. unfold get_all_matches in H.
  destruct (get_all_matches_loop_In _ _ _ H Hin) as (row & Hrow & Hd & Hb & Hlen).
  apply filter_In in Hrow as [Hrow _].
  unfold get_matches, _read_matches_sqlite.
  rewrite (encode_decoded _ _ _ Hd Hle).
  rewrite (find_unique_key _ _ Hnd Hrow), Hb.
  destruct (Z.gtb_spec (nd_len (mi_matches mi)) 0); [| lia].
  destruct mi; reflexivity.
Qed.

Lemma get_all_matches_agrees_with_get_matches_witness :
  get_matches scenario_db
    (mi_image_id1
       (mk_MatchInfo 1 2
          (mk_ndarray uint32 [5; 2]
             (words32 [0; 0; 1; 1; 2; 3; 3; 2; 5; 4]))))
    (mi_image_id2
       (mk_MatchInfo 1 2
          (mk_ndarray uint32 [5; 2]
             (words32 [0; 0; 1; 1; 2; 3; 3; 2; 5; 4]))))
  = Some (mk_MatchInfo 1 2
            (mk_ndarray uint32 [5; 2]
               (words32 [0; 0; 1; 1; 2; 3; 3; 2; 5; 4]))).
Proof.
  apply (get_all_matches_agrees_with_get_matches scenario_db
           [mk_MatchInfo 1 2
              (mk_ndarray uint32 [5; 2]
                 (words32 [0; 0; 1; 1; 2; 3; 3; 2; 5; 4]))]).
  - vm_compute. reflexivity.
  - left. reflexivity.
  - cbn. lia.
  - repeat constructor. intros [].
Defined.

(** A row stored under a key whose first component is the larger one:
    [get_all_matches] lists it, [get_matches] on its identifiers, in either
    order, reads the other key and finds nothing. *)
Example get_matches_misses_swapped_key :
  (exists m, get_all_matches scenario_db_swapped_key
             = Ok [mk_MatchInfo 5 2 m]) /\
  get_matches scenario_db_swapped_key 5 2 = None /\
  get_matches scenario_db_swapped_key 2 5 = None.
Proof.
  split; [eexists; vm_compute; reflexivity |].
  split; vm_compute; reflexivity.
Qed.

Lemma dict_set_In_inv : forall (V : Type) (d : list (Z * V)) k v k' v',
  In (k', v') (dict_set d k v) -> (k' = k /\ v' = v) \/ In (k', v') d.
Proof.
  intros V. induction d as [| [k0 v0] d IH]; intros k v k' v' H.
  - destruct H as [H | []]. injection H as <- <-. left. split; reflexivity.
  - cbn [dict_set] in H. destruct (Z.eqb_spec k k0) as [-> | Hne].
    + destruct H as [H | H].
      * injection H as <- <-. left. split; reflexivity.
      * right. right. exact H.
    + destruct H as [H | H].
      * right. left. exact H.
      * destruct (IH _ _ _ _ H) as [E | Hin]; [left; exact E | right; right; exact Hin].
Qed.

Lemma dict_set_In_same : forall (V : Type) (d : list (Z * V)) k v,
  In (k, v) (dict_set d k v).
Proof.
  intros V. induction d as [| [k0 v0] d IH]; intros k v.
  - left. reflexivity.
  - cbn [dict_set]. destruct (Z.eqb_spec k k0) as [-> | Hne].
    + left. reflexivity.
    + right. apply IH.
Qed.

Lemma dict_set_In_other : forall (V : Type) (d : list (Z * V)) k v k' v',
  k' <> k -> In (k', v') d -> In (k', v') (dict_set d k v).
Proof.
  intros V. induction d as [| [k0 v0] d IH]; intros k v k' v' Hne H.
  - destruct H.
  - cbn [dict_set]. destruct (Z.eqb_spec k k0) as [-> | Hk].
    + destruct H as [H | H]; [injection H as <- <-; congruence | right; exact H].
    + destruct H as [H | H]; [left; exact H | right; apply IH; assumption].
Qed.

Section OptionalDictLoop.
Variable V : Type.
Variable get : Z -> option V.

Lemma optional_loop_In : forall ks d k v,
  (forall k0 v0, In (k0, v0) d -> get k0 = Some v0) ->
  (In (k, v) (fold_left
           (fun d k0 => match get k0 with
                        | Some v0 => dict_set d k0 v0
                        | None => d
                        end) ks d)
   <-> (In k ks /\ get k = Some v) \/ In (k, v) d).
Proof.
  induction ks as [| k0 ks IH]; intros d k v Hd.
  - cbn. intuition.
  - cbn [fold_left]. rewrite IH.
    + destruct (get k0) as [v0 |] eqn:G.
      * split.
        -- intros [[Hin Hg] | Hin]; [left; split; [right; exact Hin | exact Hg]|].
           apply dict_set_In_inv in Hin as [[-> ->] | Hin];
             [left; split; [left; reflexivity | exact G] | right; exact Hin].
        -- intros [[[<- | Hin] Hg] | Hin].
           ++ right. rewrite G in Hg. injection Hg as <-. apply dict_set_In_same.
           ++ left. split; assumption.
           ++ destruct (Z.eq_dec k k0) as [-> | Hne].
              ** right. pose proof (Hd _ _ Hin) as Hg. rewrite G in Hg.
                 injection Hg as <-. apply dict_set_In_same.
              ** right. apply dict_set_In_other; assumption.
      * split.
        -- intros [[Hin Hg] | Hin]; [left; split; [right; exact Hin | exact Hg]|].
           right. exact Hin.
        -- intros [[[<- | Hin] Hg] | Hin]; [congruence | |].
           ++ left. split; assumption.
           ++ right. exact Hin.
    + intros k1 v1 Hin.
      destruct (get k0) as [v0 |] eqn:G; [| exact (Hd _ _ Hin)].
      apply dict_set_In_inv in Hin as [[-> ->] | Hin];
        [exact G | exact (Hd _ _ Hin)].
Qed.

Lemma optional_loop_NoDup : forall ks d,
  NoDup (map fst d) -> NoDup (map fst (fold_left
           (fun d k0 => match get k0 with
                        | Some v0 => dict_set d k0 v0
                        | None => d
                        end) ks d)).
Proof.
  induction ks as [| k0 ks IH]; intros d H; [exact H|].
  cbn [fold_left]. apply IH.
  destruct (get k0); [apply dict_set_NoDup; exact H | exact H].
Qed.
End OptionalDictLoop.

Lemma dict_loop_keys : forall (A V : Type) (key : A -> Z) (val : A -> V) xs d k,
  In k (map fst (fold_left (fun d x => dict_set d (key x) (val x)) xs d))
  <-> In k (map key xs) \/ In k (map fst d).
Proof.
  intros A V key val. induction xs as [| x xs IH]; intros d k.
  - cbn. intuition.
  - cbn [fold_left map In]. rewrite IH, dict_set_keys. intuition.
Qed.

Lemma get_features_error : forall db image_id,
  (exists e, _read_keypoints_sqlite db image_id = Raise e) \/
  (exists e, _read_descriptors_sqlite db image_id = Raise e) ->
  get_features db image_id = None.
Proof.
  intros db id [[e H] | [e H]]; unfold get_features.
  - rewrite H. reflexivity.
  - rewrite H. destruct (_read_keypoints_sqlite db id) as [[k |] |]; reflexivity.
Qed.

(** X23. The loader reads features image by image and skips what fails:
    [get_all_features] has one entry per image of the store for which
    [get_features] returns a record, under distinct keys and holding that
    record; and [get_features] returns [None], without raising, for an image
    whose keypoint or descriptor blob does not decode, so one corrupt blob
    drops one image and no other. *)
Theorem get_all_features_skips_failures : forall db,
  NoDup (map fst (get_all_features db)) /\
  (forall image feature_info,
     In (image, feature_info) (get_all_features db)
     <-> In image (map image_id (images db)) /\
         get_features db image = Some feature_info) /\
  (forall image row data,
     fetchone (keypoints db) image = Some row ->
     br_data row = Some data ->
     ~ (br_cols row * 4 | Z.of_nat (List.length data)) ->
     get_features db image = None) /\
  (forall image row data,
     fetchone (descriptors db) image = Some row ->
     br_data row = Some data ->
     ~ (br_cols row * 1 | Z.of_nat (List.length data)) ->
     get_features db image = None).
Proof.
  intro db. repeat apply conj.
  - unfold get_all_features.
    apply (optional_loop_NoDup FeatureInfo (get_features db)). constructor.
  - intros id f. unfold get_all_features.
    rewrite (optional_loop_In FeatureInfo (get_features db))
      by (intros k0 v0 []).
    unfold get_images_info, _read_images_sqlite.
    rewrite dict_loop_keys. cbn [map In]. intuition.
  - intros id row data Hrow Hd Hnd. apply get_features_error. left.
    exists ValueError. unfold _read_keypoints_sqlite. rewrite Hrow, Hd.
    apply (blob_to_array_raises data float32 (br_cols row) Hnd).
  - intros id row data Hrow Hd Hnd. apply get_features_error. right.
    exists ValueError. unfold _read_descriptors_sqlite. rewrite Hrow, Hd.
    apply (blob_to_array_raises data uint8 (br_cols row) Hnd).
Qed.

(** On the store whose keypoint blob of image 3 does not decode, the loader
    keeps the features of images 1 and 2. *)
Example get_all_features_corrupt_blob :
  map fst (get_all_features scenario_db_corrupt_keypoints) = [1; 2] /\
  get_features scenario_db_corrupt_keypoints 3 = None.
Proof. split; vm_compute; reflexivity. Qed.

(** ** Camera model names *)

Lemma str_of_Z_inj : forall a b, str_of_Z a = str_of_Z b -> a = b.
Proof.
  intros a b H. unfold str_of_Z in H.
  assert (Hn : forall z, Z.to_int z <> Decimal.Pos Decimal.Nil /\
                         Z.to_int z <> Decimal.Neg Decimal.Nil).
  { intros [| p | p]; cbn; split; try discriminate;
      intro E; injection E as E; exact (DecimalPos.Unsigned.to_uint_nonnil p E). }
  apply DecimalZ.to_int_inj.
  pose proof (NilZero.isi (Z.to_int a) (proj1 (Hn a)) (proj2 (Hn a))) as Ea.
  pose proof (NilZero.isi (Z.to_int b) (proj1 (Hn b)) (proj2 (Hn b))) as Eb.
  rewrite H in Ea. rewrite Ea in Eb. injection Eb as Eb. exact Eb.
Qed.

Lemma string_app_inj_l : forall p a b : string,
  (p ++ a)%string = (p ++ b)%string -> a = b.
Proof.
  induction p as [| c p IH]; intros a b H; [exact H|].
  cbn in H. injection H as H. apply IH. exact H.
Qed.

Lemma model_names_known : forall k nm,
  dict_get model_names k = Some nm ->
  0 <= k <= 10 /\ prefix "UNKNOWN_" nm = false.
Proof.
  intros k nm H. unfold model_names in H. cbn [dict_get] in H.
  repeat match type of H with
         | (if ?k =? ?c then _ else _) = _ =>
             destruct (Z.eqb_spec k c) as [-> | ?];
             [injection H as <-; split; [lia | reflexivity] |]
         end.
  discriminate.
Qed.

Lemma prefix_app : forall p s, prefix p (p ++ s) = true.
Proof.
  induction p as [| c p IH]; intro s; [destruct s; reflexivity|].
  cbn. destruct (ascii_dec c c); [apply IH | congruence].
Qed.

(** X24. The loader's model names identify the stored model ids: two
    different ids never get the same name; the ids [0] to [10] get the
    names of the table and every other id, negative ones included, gets
    [UNKNOWN_] followed by its decimal writing, which is none of the
    table's names. *)
Theorem camera_model_name_injective : forall model_id1 model_id2,
  (_get_camera_model_name model_id1 = _get_camera_model_name model_id2
   <-> model_id1 = model_id2) /\
  (prefix "UNKNOWN_" (_get_camera_model_name model_id1) = true
   <-> ~ (0 <= model_id1 <= 10)).
Proof.
  intros a b.
  assert (Hu : forall k, prefix "UNKNOWN_" (_get_camera_model_name k) = true
                         <-> ~ (0 <= k <= 10)).
  { intro k. unfold _get_camera_model_name.
    destruct (dict_get model_names k) as [nm |] eqn:G.
    - destruct (model_names_known k nm G) as [Hk Hp]. rewrite Hp.
      split; [discriminate | intro H; contradiction].
    - split; [| intros _; apply prefix_app].
      intros _ Hk. unfold model_names in G. cbn [dict_get] in G.
      repeat match type of G with
             | (if ?k =? ?c then _ else _) = _ =>
                 destruct (Z.eqb_spec k c); [discriminate|]
             end.
      lia. }
  split; [| apply Hu]. split; [| intros ->; reflexivity].
  intro H. pose proof (Hu a) as Ha. pose proof (Hu b) as Hb.
  rewrite H in Ha. unfold _get_camera_model_name in H.
  destruct (dict_get model_names a) as [na |] eqn:Ga;
    destruct (dict_get model_names b) as [nb |] eqn:Gb.
  - subst nb. unfold model_names in Ga, Gb. cbn [dict_get] in Ga, Gb.
    repeat match type of Ga with
           | (if ?k =? ?c then _ else _) = _ =>
               destruct (Z.eqb_spec k c) as [-> | ?]
           end; try discriminate;
    repeat match type of Gb with
           | (if ?k =? ?c then _ else _) = _ =>
               destruct (Z.eqb_spec k c) as [-> | ?]
           end; try discriminate; try reflexivity;
    injection Ga as <-; discriminate.
  - destruct (model_names_known a na Ga) as [_ Hp].
    rewrite H, prefix_app in Hp. discriminate.
  - destruct (model_names_known b nb Gb) as [_ Hp].
    rewrite <- H, prefix_app in Hp. discriminate.
  - apply str_of_Z_inj. exact (string_app_inj_l _ _ _ H).
Qed.

(** ** The sign of a quaternion *)










(** ** File names of the match files *)

Local Open Scope string_scope.

Lemma rfind_from_absent : forall c s i found,
  all_ascii (fun d => negb (Ascii.eqb d c)) s = true ->
  rfind_from c s i found = found.
Proof.
  intros c. induction s as [| d s IH]; intros i found H; [reflexivity|].
  cbn [all_ascii] in H. apply andb_prop in H as [Hd Hs].
  apply negb_true_iff in Hd. cbn [rfind_from]. rewrite Hd. apply IH. exact Hs.
Qed.

Lemma rfind_from_app : forall c a b i found,
  rfind_from c (a ++ b) i found
  = rfind_from c b (i + Z.of_nat (String.length a)) (rfind_from c a i found).
Proof.
  intros c. induction a as [| d a IH]; intros b i found.
  - cbn. rewrite Z.add_0_r. reflexivity.
  - cbn [append rfind_from String.length]. rewrite IH. f_equal. lia.
Qed.

Lemma substring_prefix : forall a b,
  substring 0 (String.length a) (a ++ b) = a.
Proof.
  induction a as [| c a IH]; intro b.
  - destruct b; reflexivity.
  - cbn. rewrite IH. reflexivity.
Qed.

Lemma splitext_root_stem : forall stem ext,
  all_ascii (fun c => negb (Ascii.eqb c "/")) stem = true ->
  all_chars "." stem = false ->
  all_ascii (fun c => negb (Ascii.eqb c ".")) ext = true ->
  all_ascii (fun c => negb (Ascii.eqb c "/")) ext = true ->
  splitext_root (stem ++ "." ++ ext) = stem.
Proof.
  intros stem ext Hs Hd He1 He2. unfold splitext_root, rfind.
  assert (Hsep : rfind_from "/" (stem ++ "." ++ ext) 0 (-1) = -1).
  { apply rfind_from_absent. rewrite !all_ascii_app, Hs, He2. reflexivity. }
  assert (Hdot : rfind_from "." (stem ++ "." ++ ext) 0 (-1)
                 = Z.of_nat (String.length stem)).
  { rewrite rfind_from_app. cbn [append rfind_from].
    rewrite Ascii.eqb_refl.
    rewrite rfind_from_absent by exact He1. lia. }
  rewrite Hsep, Hdot.
  destruct (Z.gtb_spec (Z.of_nat (String.length stem)) (-1)); [| lia].
  replace (Z.to_nat (-1 + 1)) with 0%nat by reflexivity.
  replace (Z.to_nat (Z.of_nat (String.length stem) - -1 - 1))
    with (String.length stem) by lia.
  rewrite Nat2Z.id, substring_prefix, Hd. reflexivity.
Qed.

Lemma splitext_root_no_dot : forall p,
  all_ascii (fun c => negb (Ascii.eqb c ".")) p = true ->
  splitext_root p = p.
Proof.
  intros p H. unfold splitext_root, rfind.
  rewrite (rfind_from_absent "." p 0 (-1) H).
  assert (Hge : -1 <= rfind_from "/" p 0 (-1)).
  { assert (G : forall s i found, -1 <= found -> 0 <= i ->
                  -1 <= rfind_from "/" s i found).
    { induction s as [| d s IH]; intros i found Hf Hi; [exact Hf|].
      cbn [rfind_from]. apply IH; [destruct (Ascii.eqb d "/"); lia | lia]. }
    apply G; lia. }
  destruct (Z.gtb_spec (-1) (rfind_from "/" p 0 (-1))); [lia | reflexivity].
Qed.

(** X26. The stem used in a match file name: for an image name
    [stem.ext] without path separator, whose extension holds no further
    dot and whose stem is not made of dots alone, the extension and its dot
    are removed; a name without any dot is kept whole.  So a record named
    [stem1.ext1], [stem2.ext2] is written to
    [matches_stem1_stem2.txt]. *)
Theorem match_filename_stems : forall m stem1 ext1 stem2 ext2,
  md_image_name1 m = stem1 ++ "." ++ ext1 ->
  md_image_name2 m = stem2 ++ "." ++ ext2 ->
  plain_name (md_image_name1 m) = true ->
  plain_name (md_image_name2 m) = true ->
  all_chars "." stem1 = false -> all_chars "." stem2 = false ->
  all_ascii (fun c => negb (Ascii.eqb c ".")) ext1 = true ->
  all_ascii (fun c => negb (Ascii.eqb c ".")) ext2 = true ->
  splitext_root (md_image_name1 m) = stem1 /\
  splitext_root (md_image_name2 m) = stem2 /\
  match_filename m = "matches_" ++ stem1 ++ "_" ++ stem2 ++ ".txt" /\
  (forall p, all_ascii (fun c => negb (Ascii.eqb c ".")) p = true ->
             splitext_root p = p).
Proof.
  intros m stem1 ext1 stem2 ext2 E1 E2 P1 P2 D1 D2 X1 X2.
  assert (S : forall stem ext,
            plain_name (stem ++ "." ++ ext) = true ->
            all_ascii (fun c => negb (Ascii.eqb c "/")) stem = true /\
            all_ascii (fun c => negb (Ascii.eqb c "/")) ext = true).
  { intros stem ext H. unfold plain_name in H.
    rewrite !all_ascii_app in H.
    apply andb_prop in H as [Hs H]. apply andb_prop in H as [_ He].
    split; eapply all_ascii_weaken; try eassumption;
      intros c Hc; apply andb_prop in Hc as [Hc _]; exact Hc. }
  rewrite E1 in P1. rewrite E2 in P2.
  destruct (S _ _ P1) as [A1 B1]. destruct (S _ _ P2) as [A2 B2].
  assert (R1 : splitext_root (md_image_name1 m) = stem1)
    by (rewrite E1; apply splitext_root_stem; assumption).
  assert (R2 : splitext_root (md_image_name2 m) = stem2)
    by (rewrite E2; apply splitext_root_stem; assumption).
  repeat split; try assumption.
  - unfold match_filename. rewrite R1, R2. reflexivity.
  - exact splitext_root_no_dot.
Qed.

Lemma match_filename_stems_witness :
  splitext_root (md_image_name1 scenario_match_record) = "img1" /\
  splitext_root (md_image_name2 scenario_match_record) = "img2" /\
  match_filename scenario_match_record
  = "matches_" ++ "img1" ++ "_" ++ "img2" ++ ".txt" /\
  (forall p, all_ascii (fun c => negb (Ascii.eqb c ".")) p = true ->
             splitext_root p = p).
Proof.
  apply (match_filename_stems scenario_match_record "img1" "jpg" "img2" "jpg");
    reflexivity.
Defined.

Local Close Scope string_scope.

(** ** When the per-image reader returns *)





(** ** Stored keypoints *)

Lemma chunks_concat : forall (A : Type) (n : nat) (rows : list (list A)),
  (0 < n)%nat -> Forall (fun r => List.length r = n) rows ->
  chunks n (List.concat rows) = rows.
Proof.
  intros A n rows Hn. induction rows as [| r rows IH]; intros H.
  - apply chunks_nil.
  - inversion H as [| x l Hr Hrows]; subst. cbn [List.concat].
    rewrite chunks_cons by (try exact Hn; reflexivity).
    rewrite IH by exact Hrows. reflexivity.
Qed.

Lemma concat_length_const : forall (A : Type) (n : nat) (rows : list (list A)),
  Forall (fun r => List.length r = n) rows ->
  List.length (List.concat rows) = (n * List.length rows)%nat.
Proof.
  intros A n rows H. induction H as [| r rows Hr _ IH]; [cbn; lia|].
  cbn [List.concat List.length]. rewrite length_app, Hr, IH. lia.
Qed.

(** X28. Keypoints stored row by row as little-endian [float32] words
    decode back to themselves: a blob of [n] rows of [cols >= 2] words
    decodes, with the stored column count, into an array of length [n]
    whose rows are the stored rows, and indexing it at [i] gives the
    binary32 values of the first two words of row [i], whatever the further
    columns hold. *)
Theorem keypoint_rows_round_trip : forall (cols : nat) (rows : list (list Z)),
  (2 <= cols)%nat ->
  Forall (fun r => List.length r = cols /\
                   Forall (fun w => 0 <= w < 2 ^ 32) r) rows ->
  exists a,
    blob_to_array (Some (words32 (List.concat rows))) float32
      (Shape2 (Z.of_nat cols)) = Ok (Some a) /\
    nd_len a = Z.of_nat (List.length rows) /\
    nd_rows a = rows /\
    forall i row,
      nth_error rows i = Some row ->
      keypoint_xy a (Z.of_nat i)
      = Ok (float_of_bits32 (nth 0 row 0), float_of_bits32 (nth 1 row 0)).
Proof.
  intros cols rows Hc H.
  assert (Hlen : Forall (fun r => List.length r = cols) rows).
  { eapply Forall_impl; [| exact H]. intros r [Hr _]. exact Hr. }
  assert (Hws : Forall (fun w => 0 <= w < 2 ^ 32) (List.concat rows)).
  { clear Hlen. induction H as [| r rows [_ Hr] _ IH]; [constructor|].
    cbn [List.concat]. apply Forall_app. split; assumption. }
  assert (Hflat : List.length (List.concat rows) = (cols * List.length rows)%nat)
    by (apply concat_length_const; exact Hlen).
  assert (Hbytes : Z.of_nat (List.length (words32 (List.concat rows)))
                   = Z.of_nat (List.length rows) * Z.of_nat cols
                     * itemsize float32).
  { unfold words32.
    rewrite (flat_map_length_const _ _ (le_bytes 4) 4 (List.concat rows))
      by (intro; apply le_bytes_length).
    rewrite Hflat. cbn [itemsize]. lia. }
  set (a := mk_ndarray float32 [Z.of_nat (List.length rows); Z.of_nat cols]
              (words32 (List.concat rows))).
  assert (Hrows : nd_rows a = rows).
  { unfold nd_rows, nd_items, a. cbn [nd_shape nd_dtype nd_buffer itemsize].
    unfold words32.
    rewrite (chunks_flat_map _ _ (le_bytes 4) (Z.to_nat 4) (List.concat rows))
      by (try lia; intro; apply le_bytes_length).
    rewrite map_le_unsigned_le_bytes by exact Hws.
    rewrite Nat2Z.id. apply chunks_concat; [lia | exact Hlen]. }
  exists a. repeat split.
  - unfold blob_to_array.
    rewrite (frombuffer_multiple (words32 (List.concat rows)) float32
               (Z.of_nat (List.length rows) * Z.of_nat cols)) by exact Hbytes.
    cbn [bind reshape nd_size nd_shape fold_right nd_dtype nd_buffer].
    destruct (Z.leb_spec (Z.of_nat cols) 0); [lia|].
    rewrite Z.mul_1_r, Z.mod_mul, Z.div_mul by lia. reflexivity.
  - exact Hrows.
  - intros i row Hi. unfold keypoint_xy. rewrite Hrows, Nat2Z.id, Hi.
    apply nth_error_In in Hi. rewrite Forall_forall in Hlen.
    pose proof (Hlen row Hi) as Hl.
    destruct row as [| x [| y row]]; cbn [List.length] in Hl; try lia.
    reflexivity.
Qed.

Lemma keypoint_rows_round_trip_witness :
  exists a,
    blob_to_array
      (Some (words32 (List.concat [[0x41280000; 0x41a20000; 0x3f800000];
                              [0x41f00000; 0x42200000; 0x3fc00000]])))
      float32 (Shape2 (Z.of_nat 3)) = Ok (Some a) /\
    nd_len a
    = Z.of_nat (List.length [[0x41280000; 0x41a20000; 0x3f800000];
                             [0x41f00000; 0x42200000; 0x3fc00000]]) /\
    nd_rows a = [[0x41280000; 0x41a20000; 0x3f800000];
                 [0x41f00000; 0x42200000; 0x3fc00000]] /\
    forall i row,
      nth_error [[0x41280000; 0x41a20000; 0x3f800000];
                 [0x41f00000; 0x42200000; 0x3fc00000]] i = Some row ->
      keypoint_xy a (Z.of_nat i)
      = Ok (float_of_bits32 (nth 0 row 0), float_of_bits32 (nth 1 row 0)).
Proof.
  apply (keypoint_rows_round_trip 3
           [[0x41280000; 0x41a20000; 0x3f800000];
            [0x41f00000; 0x42200000; 0x3fc00000]]).
  - lia.
  - repeat constructor; cbn; lia.
Defined.

(** ** Further instances on the scenario store *)

Lemma global_pose_file_lines_witness :
  split_lines (export_global_poses_txt scenario_global_poses)
  = (str_of_nat (List.length scenario_global_poses) ++ newline)%string
    :: map (fun p => global_pose_line (gp_image_name p)
                       (gp_rotation_matrix p) (gp_translation p))
         scenario_global_poses /\
  map split
    (map (fun p => global_pose_line (gp_image_name p)
                     (gp_rotation_matrix p) (gp_translation p))
       scenario_global_poses)
  = map (fun p => pose_tokens (gp_image_name p) (gp_rotation_matrix p)
                    (gp_translation p)) scenario_global_poses.
Proof.
  apply (proj1 global_pose_file_lines scenario_global_poses).
  repeat constructor.
Defined.

Lemma get_all_features_skips_failures_witness :
  get_features scenario_db_corrupt_keypoints 3 = None.
Proof.
  apply (proj1 (proj2 (proj2
           (get_all_features_skips_failures scenario_db_corrupt_keypoints)))
           3 (mk_blob_row 3 1 2 (Some (le_bytes 7 0))) (le_bytes 7 0)).
  - reflexivity.
  - reflexivity.
  - intros [k Hk].
    change (Z.of_nat (List.length (le_bytes 7 0))) with 7 in Hk.
    cbn [br_cols] in Hk. lia.
Defined.


(** On a store whose [images] table has the prior pose columns only, the
    per-image reader fails on the missing columns while the global reader
    returns the two images with a prior quaternion. *)
Example prior_columns_only :
  read_camera_poses_from_database (fun _ _ => 0%float)
    scenario_db_prior_columns = Raise OperationalError /\
  option_map (map gp_image_id)
    (match read_global_poses_from_database scenario_db_prior_columns with
     | Ok poses => Some poses
     | Raise _ => None
     end) = Some [1; 2].
Proof. split; vm_compute; reflexivity. Qed.

(** ** The global pose exporter, end to end *)

Lemma global_pose_of_inv : forall row sel p,
  In p (global_pose_of row sel) ->
  global_pose_of row sel = [p] /\
  gp_image_id p = image_id row /\ gp_image_name p = name row /\
  gp_camera_id p = camera_id row.
Proof.
  intros row sel p Hin. unfold global_pose_of in *.
  destruct sel as [[q t] |]; [| destruct Hin].
  destruct (quaternion_to_rotation_matrix q) as [R |]; cbn in *;
    [| destruct Hin].
  destruct Hin as [<- | []]. repeat split.
Qed.

Lemma flat_map_at_most_one : forall (A B : Type) (f : A -> list B) l,
  (forall x, (List.length (f x) <= 1)%nat) ->
  (List.length (flat_map f l) <= List.length l)%nat.
Proof.
  intros A B f l H. induction l as [| x l IH]; [cbn; lia|].
  cbn [flat_map List.length]. rewrite length_app. specialize (H x). lia.
Qed.

Lemma global_pose_of_length : forall row sel,
  (List.length (global_pose_of row sel) <= 1)%nat.
Proof.
  intros row sel. unfold global_pose_of. destruct sel as [[q t] |]; [| cbn; lia].
  destruct (quaternion_to_rotation_matrix q); cbn; lia.
Qed.

Lemma global_reader_rows : forall db poses,
  read_global_poses_from_database db = Ok poses ->
  (List.length poses <= List.length (images db))%nat /\
  forall p, In p poses ->
    exists row, In row (images db) /\
      gp_image_id p = image_id row /\ gp_image_name p = name row /\
      gp_camera_id p = camera_id row.
Proof.
  intros db poses H. unfold read_global_poses_from_database in H.
  assert (G : forall sel,
            poses = flat_map (fun r => global_pose_of r (sel r)) (images db) ->
            (List.length poses <= List.length (images db))%nat /\
            forall p, In p poses ->
              exists row, In row (images db) /\
                gp_image_id p = image_id row /\ gp_image_name p = name row /\
                gp_camera_id p = camera_id row).
  { intros sel ->. split.
    - apply flat_map_at_most_one. intro r. apply global_pose_of_length.
    - intros p Hp. apply in_flat_map in Hp as (r & Hr & Hp).
      exists r. split; [exact Hr|].
      apply (global_pose_of_inv r (sel r) p Hp). }
  destruct (negb (has_columns db prior_q_columns)
            && negb (has_columns db optimized_columns)).
  - injection H as <-. split; [cbn; lia | intros p []].
  - destruct (has_columns db optimized_columns).
    + destruct (has_columns db key_columns); [| discriminate].
      injection H as <-. apply (G select_optimized). reflexivity.
    + destruct (has_columns db (key_columns ++ prior_t_columns));
        [| discriminate].
      injection H as <-. apply (G select_prior). reflexivity.
Qed.

(** X29. End to end through the global pose exporter: on a store whose
    image names are whitespace-free words, when [main] writes
    [global_pose.txt], the reader returned at least one pose and at most one
    per row of [images]; the first line of the file is the number of poses,
    the further lines are the poses in order, one line each, of thirteen
    whitespace-separated fields; and every pose carries the image id, name
    and camera id of a row of [images]. *)
Theorem global_exporter_end_to_end : forall db content,
  Forall (fun r => is_token (name r) = true) (images db) ->
  global_poses_main db = Some content ->
  exists poses_data,
    read_global_poses_from_database db = Ok poses_data /\
    (1 <= List.length poses_data <= List.length (images db))%nat /\
    split_lines content
    = (str_of_nat (List.length poses_data) ++ newline)%string
      :: map (fun p => global_pose_line (gp_image_name p)
                         (gp_rotation_matrix p) (gp_translation p))
           poses_data /\
    map split
      (map (fun p => global_pose_line (gp_image_name p)
                       (gp_rotation_matrix p) (gp_translation p)) poses_data)
    = map (fun p => pose_tokens (gp_image_name p) (gp_rotation_matrix p)
                      (gp_translation p)) poses_data /\
    (forall p, In p poses_data ->
       exists row, In row (images db) /\
         gp_image_id p = image_id row /\ gp_image_name p = name row /\
         gp_camera_id p = camera_id row).
Proof.
  intros db content Hnames Hmain. unfold global_poses_main in Hmain.
  destruct (read_global_poses_from_database db) as [poses |] eqn:R;
    [| discriminate].
  destruct (global_reader_rows db poses R) as [Hlen Hrows].
  assert (Hc : content = export_global_poses_txt poses /\ poses <> []).
  { destruct poses; [discriminate|]. injection Hmain as <-.
    split; [reflexivity | discriminate]. }
  destruct Hc as [-> Hne].
  assert (Htok : Forall (fun p => is_token (gp_image_name p) = true) poses).
  { rewrite Forall_forall in Hnames |- *. intros p Hp.
    destruct (Hrows p Hp) as (row & Hrow & _ & -> & _). exact (Hnames row Hrow). }
  destruct (pose_lines global_pose gp_image_name gp_rotation_matrix
              gp_translation poses Htok) as [L1 L2].
  exists poses. repeat split; try assumption.
  destruct poses; [congruence | cbn [List.length]; lia].
Qed.

Lemma global_exporter_end_to_end_witness :
  exists poses_data,
    read_global_poses_from_database scenario_db = Ok poses_data /\
    (1 <= List.length poses_data <= List.length (images scenario_db))%nat /\
    split_lines (export_global_poses_txt scenario_global_poses)
    = (str_of_nat (List.length poses_data) ++ newline)%string
      :: map (fun p => global_pose_line (gp_image_name p)
                         (gp_rotation_matrix p) (gp_translation p))
           poses_data /\
    map split
      (map (fun p => global_pose_line (gp_image_name p)
                       (gp_rotation_matrix p) (gp_translation p)) poses_data)
    = map (fun p => pose_tokens (gp_image_name p) (gp_rotation_matrix p)
                      (gp_translation p)) poses_data /\
    (forall p, In p poses_data ->
       exists row, In row (images scenario_db) /\
         gp_image_id p = image_id row /\ gp_image_name p = name row /\
         gp_camera_id p = camera_id row).
Proof.
  apply (global_exporter_end_to_end scenario_db
           (export_global_poses_txt scenario_global_poses)).
  - repeat constructor.
  - vm_compute. reflexivity.
Defined.
